(** * The mockup composition engine of [src/mockup_cli/cli.py]

    A shallow embedding of the rendering pipeline (aspect-fit resize,
    rotation, opacity scaling, blend compositing and the two render entry
    points) and of the commands around it (configuration parsing and
    templates, anchors, output names, the batch loop), together with the
    properties stated about them.

    - Python floats are IEEE-754 binary64 and NumPy [float32] arrays are
      binary32; both are modelled by one executable rounding function over
      the rationals (module [IEEE]).
    - A raster is an RGBA image with 8-bit channels, given by its size and
      its pixel at every coordinate.
    - What Pillow and OpenCV compute inside their resampling, rotation and
      warping kernels is not part of this repository; those pixel values are
      an interface ([Extern]) of which only the output size is fixed.
      [Image.alpha_composite] is written out, since the properties of
      normal blending depend on it.
    - The commands see the file system through [FileSystem] and [PathLib],
      and Python's character classes through [Unicode]; uploading and the
      graphical front end are not modelled. *)

From Stdlib Require Import ZArith QArith Qround Qabs Qpower Qreduction Qcanon.
From Stdlib Require Import Lia Lqa Bool List String Ascii.
From Stdlib Require Import SpecFloat.
From Stdlib Require Strings.Byte.
From Stdlib Require DecimalString.
Import ListNotations.

Set Warnings "-register-all".

Open Scope Z_scope.

(* ================================================================== *)
(** * IEEE-754 arithmetic, round to nearest, ties to even *)
(* ================================================================== *)

Module IEEE.

(** A binary format: [prec] bits of significand, exponents below [emax]. *)
Record format := Format { prec : Z; emax : Z }.

(** Python's [float]. *)
Definition binary64 := Format 53 1024.
(** NumPy's [float32]. *)
Definition binary32 := Format 24 128.

(** Exponent of the smallest subnormal. *)
Definition emin (fmt : format) : Z := 3 - emax fmt - prec fmt.

(** A float is a NaN, an infinity or a finite rational.  The sign of zero
    is not kept: nothing in the program can observe it (no float is ever a
    divisor, and every result leaves through [round], a comparison or a
    cast to [uint8]). *)
Inductive float := NaN | Inf (neg : bool) | Fin (q : Q).

Definition pow2 (k : Z) : Q := Qpower 2 k.

(** [ilog2 x] is the [e] with [2^e <= x < 2^(e+1)], for [x > 0]. *)
Definition ilog2 (x : Q) : Z :=
  let e0 := Z.log2 (Qnum x) - Z.log2 (Zpos (Qden x)) in
  if Qle_bool (pow2 e0) x then e0 else e0 - 1.

(** Nearest integer, ties to the even one. *)
Definition rne (x : Q) : Z :=
  let f := Qfloor x in
  match (x - inject_Z f ?= 1 # 2)%Q with
  | Lt => f
  | Gt => f + 1
  | Eq => if Z.even f then f else f + 1
  end.

(** Exponent of the unit in the last place of [x] in format [fmt]. *)
Definition ulp_exp (fmt : format) (x : Q) : Z :=
  Z.max (ilog2 (Qabs x) - prec fmt + 1) (emin fmt).

(** [x] rounded to the format, exponent range unbounded above. *)
Definition rnd (fmt : format) (x : Q) : Q :=
  if Qeq_bool x 0 then 0%Q
  else let k := ulp_exp fmt x in
       Qred (inject_Z (rne (x / pow2 k)) * pow2 k).

(** [x] rounded to the format; overflow gives an infinity. *)
Definition round_q (fmt : format) (x : Q) : float :=
  let y := rnd fmt x in
  if Qle_bool (pow2 (emax fmt)) (Qabs y) then Inf (negb (Qle_bool 0 y))
  else Fin y.

Definition is_neg (q : Q) : bool := negb (Qle_bool 0 q).

Definition fopp (a : float) : float :=
  match a with
  | NaN => NaN
  | Inf s => Inf (negb s)
  | Fin q => Fin (- q)
  end.

Definition fabs (a : float) : float :=
  match a with
  | NaN => NaN
  | Inf _ => Inf false
  | Fin q => Fin (Qabs q)
  end.

Definition fadd (fmt : format) (a b : float) : float :=
  match a, b with
  | NaN, _ | _, NaN => NaN
  | Inf s, Inf t => if Bool.eqb s t then Inf s else NaN
  | Inf s, Fin _ | Fin _, Inf s => Inf s
  | Fin x, Fin y => round_q fmt (x + y)
  end.

Definition fsub (fmt : format) (a b : float) : float := fadd fmt a (fopp b).

Definition fmul (fmt : format) (a b : float) : float :=
  match a, b with
  | NaN, _ | _, NaN => NaN
  | Inf s, Inf t => Inf (xorb s t)
  | Inf s, Fin y | Fin y, Inf s =>
      if Qeq_bool y 0 then NaN else Inf (xorb s (is_neg y))
  | Fin x, Fin y => round_q fmt (x * y)
  end.

(** Division as NumPy does it (a zero divisor gives an infinity or a NaN,
    no exception).  The program only ever divides by the constant 255. *)
Definition fdiv (fmt : format) (a b : float) : float :=
  match a, b with
  | NaN, _ | _, NaN => NaN
  | Inf _, Inf _ => NaN
  | Inf s, Fin y => Inf (xorb s (is_neg y))
  | Fin _, Inf _ => Fin 0
  | Fin x, Fin y =>
      if Qeq_bool y 0 then (if Qeq_bool x 0 then NaN else Inf (is_neg x))
      else round_q fmt (x / y)
  end.

(** [a < b] and [a <= b]; false as soon as one side is a NaN. *)
Definition flt (a b : float) : bool :=
  match a, b with
  | NaN, _ | _, NaN => false
  | Inf s, Inf t => s && negb t
  | Inf s, Fin _ => s
  | Fin _, Inf t => negb t
  | Fin x, Fin y => negb (Qle_bool y x)
  end.

Definition fle (a b : float) : bool :=
  match a, b with
  | NaN, _ | _, NaN => false
  | Inf s, Inf t => s || negb t
  | Inf s, Fin _ => s
  | Fin _, Inf t => negb t
  | Fin x, Fin y => Qle_bool x y
  end.

(** A decimal literal of the source, read in format [fmt]. *)
Definition lit (fmt : format) (q : Q) : float := round_q fmt q.

(** Conversion between formats ([np.float32(x)] of a Python float). *)
Definition cast (fmt : format) (a : float) : float :=
  match a with
  | Fin q => round_q fmt q
  | other => other
  end.

(** The value of a float of the Standard Library's specification of
    binary floats, for comparing this model with it. *)
Definition SF2Q (f : spec_float) : option Q :=
  match f with
  | S754_zero _ => Some 0%Q
  | S754_finite s m e =>
      Some (Qred ((if s then -1 else 1) * inject_Z (Zpos m) * pow2 e))
  | _ => None
  end.

Definition to_Q (a : float) : option Q :=
  match a with
  | Fin q => Some q
  | _ => None
  end.

End IEEE.

Import IEEE.

(* ================================================================== *)
(** * Python values: exceptions, numbers, strings *)
(* ================================================================== *)

Module Py.

(** The exception classes the engine can raise. *)
Inductive exn :=
| ValueError | OverflowError | ZeroDivisionError | IndexError
| TypeError | AttributeError | AssertionError | OSError.

Inductive result (A : Type) : Type :=
| Ok (a : A)
| Raise (e : exn).
Arguments Ok {A} a.
Arguments Raise {A} e.

Definition bind {A B : Type} (m : result A) (k : A -> result B) : result B :=
  match m with
  | Ok a => k a
  | Raise e => Raise e
  end.

(** [float(n)] for an [int]: correctly rounded, [OverflowError] when the
    integer is too large for a float. *)
Definition float_of_int (n : Z) : result float :=
  match round_q binary64 (inject_Z n) with
  | Inf _ => Raise OverflowError
  | f => Ok f
  end.

(** [a / b] for two [int]s: the correctly rounded quotient. *)
Definition truediv (a b : Z) : result float :=
  if b =? 0 then Raise ZeroDivisionError
  else match round_q binary64 (inject_Z a / inject_Z b) with
       | Inf _ => Raise OverflowError
       | f => Ok f
       end.

(** [round(x)] for a float: nearest integer, ties to even. *)
Definition round (x : float) : result Z :=
  match x with
  | NaN => Raise ValueError
  | Inf _ => Raise OverflowError
  | Fin q => Ok (rne q)
  end.

(** [x * n] and [n * x], [n - x] for a float [x] and an int [n]. *)
Definition mul_float_int (x : float) (n : Z) : result float :=
  bind (float_of_int n) (fun f => Ok (fmul binary64 x f)).

Definition mul_int_float (n : Z) (x : float) : result float :=
  bind (float_of_int n) (fun f => Ok (fmul binary64 f x)).

Definition sub_int_float (n : Z) (x : float) : result float :=
  bind (float_of_int n) (fun f => Ok (fsub binary64 f x)).

(** The builtins [max(a, b)] and [min(a, b)] on floats: the second argument
    is returned only when it compares strictly beyond the first. *)
Definition max (a b : float) : float := if flt a b then b else a.
Definition min (a b : float) : float := if flt b a then b else a.

(** [s.lower()], on ASCII. *)
Definition lower_ascii (c : ascii) : ascii :=
  let n := nat_of_ascii c in
  if ((65 <=? n) && (n <=? 90))%nat then ascii_of_nat (n + 32) else c.

Fixpoint lower (s : string) : string :=
  match s with
  | EmptyString => EmptyString
  | String c r => String (lower_ascii c) (lower r)
  end.

(** [s in {...}] for a set of string constants. *)
Definition mem (s : string) (l : list string) : bool :=
  existsb (String.eqb s) l.

End Py.

Import Py.

Declare Scope py_scope.
Delimit Scope py_scope with py.
Notation "x <- m ;; k" := (Py.bind m (fun x => k))
  (at level 61, m at next level, right associativity) : py_scope.
Notation "' pat <- m ;; k" := (Py.bind m (fun x => match x with pat => k end))
  (at level 61, pat pattern, m at next level, right associativity) : py_scope.
Open Scope py_scope.

(* ================================================================== *)
(** * Rasters *)
(* ================================================================== *)

Definition byte : Set := Corelib.Init.Byte.byte.

(** An 8-bit channel as an integer in [0, 255], and back ([astype(np.uint8)]
    and C's conversion to [UINT8] keep the low eight bits). *)
Definition b2z (b : byte) : Z := Z.of_N (Byte.to_N b).

Definition z2b (z : Z) : byte :=
  match Byte.of_N (Z.to_N (z mod 256)) with
  | Some b => b
  | None => Byte.x00
  end.

Record pixel := RGBA { red : byte; green : byte; blue : byte; alpha : byte }.

(** An RGBA image: its size and the pixel at column [x], row [y].  Only the
    pixels with [0 <= x < width] and [0 <= y < height] belong to the image. *)
Record Raster := { width : Z; height : Z; px : Z -> Z -> pixel }.

Definition transparent : pixel := RGBA Byte.x00 Byte.x00 Byte.x00 Byte.x00.

(** [Image.new("RGBA", size, (0, 0, 0, 0))]. *)
Definition new_transparent (w h : Z) : Raster :=
  {| width := w; height := h; px := fun _ _ => transparent |}.

(** Two rasters are pixel-identical. *)
Definition same_raster (a b : Raster) : Prop :=
  width a = width b /\ height a = height b /\
  forall x y, 0 <= x < width a -> 0 <= y < height a -> px a x y = px b x y.

(* ================================================================== *)
(** * Pillow: alpha compositing *)
(* ================================================================== *)

Module Pillow.

(** [SHIFTFORDIV255(a)] of libImaging: [a / 255] for the values it is used on. *)
Definition shift_for_div255 (a : Z) : Z := Z.shiftr (Z.shiftr a 8 + a) 8.

Definition PRECISION_BITS : Z := 7.

(** One pixel of [ImagingAlphaComposite(imDst, imSrc)]: [src] over [dst],
    in the integer arithmetic of libImaging (all intermediate values fit
    the C types, so nothing wraps). *)
Definition alpha_composite_px (dst src : pixel) : pixel :=
  let sa := b2z (alpha src) in
  if sa =? 0 then dst
  else
    let da := b2z (alpha dst) in
    let blend := da * (255 - sa) in
    let outa255 := sa * 255 + blend in
    let coef1 := sa * 255 * 255 * Z.shiftl 1 PRECISION_BITS / outa255 in
    let coef2 := 255 * Z.shiftl 1 PRECISION_BITS - coef1 in
    let channel (s d : byte) : byte :=
      let tmp := b2z s * coef1 + b2z d * coef2 in
      z2b (Z.shiftr (shift_for_div255 (tmp + Z.shiftl 128 PRECISION_BITS))
                    PRECISION_BITS) in
    RGBA (channel (red src) (red dst))
         (channel (green src) (green dst))
         (channel (blue src) (blue dst))
         (z2b (shift_for_div255 (outa255 + 128))).

(** [Image.alpha_composite(im1, im2)]: a new image, [im2] over [im1];
    [ValueError] ("images do not match") unless the sizes agree. *)
Definition alpha_composite (im1 im2 : Raster) : result Raster :=
  if (width im1 =? width im2) && (height im1 =? height im2)
  then Ok {| width := width im1; height := height im1;
             px := fun x y => alpha_composite_px (px im1 x y) (px im2 x y) |}
  else Raise ValueError.

(** [canvas.alpha_composite(im, dest=(x0, y0))]: the part of [im] that lands
    on the canvas is composited over it in place; the canvas keeps its size
    and the pixels outside the box [x0 <= x < x0 + im.width],
    [y0 <= y < y0 + im.height]. *)
Definition alpha_composite_at (canvas im : Raster) (x0 y0 : Z) : Raster :=
  {| width := width canvas; height := height canvas;
     px := fun x y =>
       if (x0 <=? x) && (x <? x0 + width im) && (y0 <=? y) && (y <? y0 + height im)
       then alpha_composite_px (px canvas x y) (px im (x - x0) (y - y0))
       else px canvas x y |}.

End Pillow.

(* ================================================================== *)
(** * NumPy: float32 arrays of channels *)
(* ================================================================== *)

(** Arithmetic on [float32] values. *)
Declare Scope f32_scope.
Delimit Scope f32_scope with f32.
Infix "+" := (fadd binary32) : f32_scope.
Infix "-" := (fsub binary32) : f32_scope.
Infix "*" := (fmul binary32) : f32_scope.
Infix "/" := (fdiv binary32) : f32_scope.

Module Np.

(** [arr.astype(np.float32)] of a [uint8]: exact. *)
Definition of_u8 (b : byte) : float := Fin (inject_Z (b2z b)).

(** A Python scalar in an operation with a [float32] array. *)
Definition scalar (q : Q) : float := lit binary32 q.

Definition maximum (a b : float) : float :=
  match a, b with
  | NaN, _ | _, NaN => NaN
  | _, _ => if flt a b then b else a
  end.

Definition minimum (a b : float) : float :=
  match a, b with
  | NaN, _ | _, NaN => NaN
  | _, _ => if flt b a then b else a
  end.

(** [np.clip(x, lo, hi)]. *)
Definition clip (x lo hi : float) : float := minimum (maximum x lo) hi.

Definition Qtrunc (q : Q) : Z := if Qle_bool 0 q then Qfloor q else Qceiling q.

(** [x.astype(np.uint8)]: the fraction is dropped.  (The program only casts
    clipped, finite values; the cast of a NaN or an infinity is left at 0.) *)
Definition astype_uint8 (x : float) : byte :=
  match x with
  | Fin q => z2b (Qtrunc q)
  | _ => Byte.x00
  end.

(** [np.array(img).astype(np.float32) / 255.0], one channel. *)
Definition unit_of_u8 (b : byte) : float := (of_u8 b / scalar 255)%f32.

(** [np.clip(out * 255.0, 0, 255).astype(np.uint8)], one channel. *)
Definition to_u8 (x : float) : byte :=
  astype_uint8 (clip (x * scalar 255)%f32 (scalar 0) (scalar 255)).

(** The size of one axis of two arrays broadcast together. *)
Definition broadcast_dim (a b : Z) : result Z :=
  if a =? b then Ok a
  else if a =? 1 then Ok b
  else if b =? 1 then Ok a
  else Raise ValueError.

(** The index into an axis of size [n] of an array broadcast to a larger one. *)
Definition bidx (n i : Z) : Z := if n =? 1 then 0 else i.

End Np.

(* ================================================================== *)
(** * Data models *)
(* ================================================================== *)

(** Center-based placement, normalized to the mockup size. *)
Record RectPlacement := {
  center_x_norm : float;
  center_y_norm : float;
  width_norm : float;
  height_norm : float;
  rotation_deg : float
}.

(** Four corners (top-left, top-right, bottom-right, bottom-left), normalized. *)
Record PerspectivePlacement := { quad_norm : list (float * float) }.

Inductive Placement :=
| Rect (rp : RectPlacement)
| Perspective (pp : PerspectivePlacement).

Record RenderConfig := {
  mode : string;
  placement : Placement;
  blend_mode : string;
  opacity : float;
  maintain_aspect : string
}.

(** A decoded JSON document, as [json.loads] returns it. *)
Inductive json :=
| JNull
| JBool (b : bool)
| JInt (n : Z)
| JFloat (x : float)
| JStr (s : string)
| JList (l : list json)
| JDict (kv : list (string * json)).

(** What the engine takes from outside this repository.  The resampling,
    rotation and warping kernels return pixel values the properties below
    do not depend on; the size of their result is fixed where they are
    used.  The kernels are total functions here: running out of memory in
    them is not modelled. *)
Class Extern := {
  (** the pixels of [img.resize((w, h), resample=LANCZOS)] *)
  lanczos : Raster -> Z -> Z -> Z -> Z -> pixel;
  (** [img.rotate(angle, expand=True, fillcolor=(0, 0, 0, 0))] *)
  rotate_expand : Raster -> float -> Raster;
  (** the pixels of [cv2.warpPerspective] of the design through the
      homography onto the quad, on a canvas of the given size *)
  warp_perspective : Raster -> list (float * float) -> Z -> Z -> Z -> Z -> pixel;
  (** [float(s)] of a string *)
  float_of_str : string -> result float;
  (** [str(v)] of a value that is not a string *)
  str_of_json : json -> string
}.

(** The image files: the RGBA raster a readable file decodes to. *)
Definition FileSystem := string -> option Raster.

(** What a call does to the file system. *)
Inductive event := Opened (path : string).

(** Engine calls: a result or an exception, and the files opened so far. *)
Definition io (A : Type) : Type := list event -> result A * list event.

Definition io_bind {A B : Type} (m : io A) (k : A -> io B) : io B :=
  fun t =>
    match m t with
    | (Ok a, t') => k a t'
    | (Raise e, t') => (Raise e, t')
    end.

Definition lift {A : Type} (r : result A) : io A := fun t => (r, t).

Notation "x <~ m ;; k" := (io_bind m (fun x => k))
  (at level 61, m at next level, right associativity) : py_scope.

(** [ensure_rgba(Image.open(path))]: [OSError] when the file cannot be read. *)
Definition open_rgba (fs : FileSystem) (path : string) : io Raster :=
  fun t =>
    (match fs path with
     | Some img => Ok img
     | None => Raise OSError
     end, t ++ [Opened path]).

(** Run a call from an empty trace. *)
Definition run {A : Type} (m : io A) : result A * list event := m [].

(* ================================================================== *)
(** * The engine *)
(* ================================================================== *)

Section Engine.
Context `{Extern}.

(** ** RenderConfig.from_dict *)

(** [d.get(key, default)]. *)
Definition dict_get (d : list (string * json)) (key : string) (default : json) : json :=
  match find (fun kv => String.eqb (fst kv) key) d with
  | Some (_, v) => v
  | None => default
  end.

(** [v.get(key, default)] on a value that should be a dict. *)
Definition get (v : json) (key : string) (default : json) : result json :=
  match v with
  | JDict d => Ok (dict_get d key default)
  | _ => Raise AttributeError
  end.

(** [float(v)]. *)
Definition py_float (v : json) : result float :=
  match v with
  | JInt n => float_of_int n
  | JFloat x => Ok x
  | JBool b => Ok (Fin (if b then 1 else 0)%Q)
  | JStr s => float_of_str s
  | _ => Raise TypeError
  end.

(** [str(v)]. *)
Definition py_str (v : json) : string :=
  match v with
  | JStr s => s
  | _ => str_of_json v
  end.

(** [v.lower()]: only strings have it. *)
Definition py_lower (v : json) : result string :=
  match v with
  | JStr s => Ok (lower s)
  | _ => Raise AttributeError
  end.

(** The truth value of [v] ([not v] is its negation). *)
Definition truthy (v : json) : bool :=
  match v with
  | JNull => false
  | JBool b => b
  | JInt n => negb (n =? 0)
  | JFloat (Fin q) => negb (Qeq_bool q 0)
  | JFloat _ => true
  | JStr s => negb (String.eqb s "")
  | JList l => match l with [] => false | _ => true end
  | JDict kv => match kv with [] => false | _ => true end
  end.

(** [len(v)]. *)
Definition py_len (v : json) : result Z :=
  match v with
  | JStr s => Ok (Z.of_nat (String.length s))
  | JList l => Ok (Z.of_nat (List.length l))
  | JDict kv => Ok (Z.of_nat (List.length kv))
  | _ => Raise TypeError
  end.

(** The items a [for] loop over [v] yields. *)
Definition py_iter (v : json) : result (list json) :=
  match v with
  | JList l => Ok l
  | JStr s => Ok (map (fun c => JStr (String c EmptyString)) (list_ascii_of_string s))
  | JDict kv => Ok (map (fun kv => JStr (fst kv)) kv)
  | _ => Raise TypeError
  end.

(** The target [(x, y)] of a loop: the item must yield exactly two values. *)
Definition unpack2 (v : json) : result (json * json) :=
  items <- py_iter v ;;
  match items with
  | [x; y] => Ok (x, y)
  | _ => Raise ValueError
  end.

(** [[(float(x), float(y)) for (x, y) in quad]], item by item. *)
Fixpoint quad_typed (items : list json) : result (list (float * float)) :=
  match items with
  | [] => Ok []
  | item :: rest =>
      xy <- unpack2 item ;;
      x <- py_float (fst xy) ;;
      y <- py_float (snd xy) ;;
      tl <- quad_typed rest ;;
      Ok ((x, y) :: tl)
  end.

Definition from_dict (data : list (string * json)) : result RenderConfig :=
  mode <- py_lower (dict_get data "mode" (JStr "rect")) ;;
  placement <-
    (if String.eqb mode "rect" then
       let p := dict_get data "placement" (JDict []) in
       cx <- (v <- get p "center_x_norm" (JFloat (lit binary64 (1 # 2))) ;; py_float v) ;;
       cy <- (v <- get p "center_y_norm" (JFloat (lit binary64 (1 # 2))) ;; py_float v) ;;
       w <- (v <- get p "width_norm" (JFloat (lit binary64 (1 # 2))) ;; py_float v) ;;
       h <- (v <- get p "height_norm" (JFloat (lit binary64 (1 # 2))) ;; py_float v) ;;
       r <- (v <- get p "rotation_deg" (JFloat (Fin 0)) ;; py_float v) ;;
       Ok (Rect {| center_x_norm := cx; center_y_norm := cy;
                   width_norm := w; height_norm := h; rotation_deg := r |})
     else if String.eqb mode "perspective" then
       let p := dict_get data "placement" (JDict []) in
       quad <- get p "quad_norm" JNull ;;
       n <- (if negb (truthy quad) then Ok 0 else py_len quad) ;;
       if negb (truthy quad) || negb (n =? 4) then Raise ValueError
       else
         items <- py_iter quad ;;
         q <- quad_typed items ;;
         Ok (Perspective {| quad_norm := q |})
     else Raise ValueError) ;;
  let blend := lower (py_str (dict_get data "blend_mode" (JStr "normal"))) in
  opacity <- py_float (dict_get data "opacity" (JFloat (Fin 1))) ;;
  let aspect := lower (py_str (dict_get data "maintain_aspect" (JStr "contain"))) in
  Ok {| mode := mode; placement := placement; blend_mode := blend;
        opacity := opacity; maintain_aspect := aspect |}.

(** ** Utility functions *)

(** Every raster of the model is RGBA, so there is nothing to convert. *)
Definition ensure_rgba (img : Raster) : Raster := img.

(** [img.resize((w, h), resample=Image.Resampling.LANCZOS)]. *)
Definition resize (img : Raster) (w h : Z) : Raster :=
  {| width := w; height := h; px := lanczos img w h |}.

(** The size [resize_with_aspect] asks [img.resize] for, when the source
    is not empty. *)
Definition resize_dims (src_w src_h target_w target_h : Z) (mode : string)
  : result (Z * Z) :=
  if String.eqb mode "stretch" then Ok (Z.max 1 target_w, Z.max 1 target_h)
  else
    scale_w <- truediv target_w src_w ;;
    scale_h <- truediv target_h src_h ;;
    let scale := if String.eqb mode "cover" then Py.max scale_w scale_h
                 else Py.min scale_w scale_h in
    new_w <- (v <- mul_int_float src_w scale ;; Py.round v) ;;
    new_h <- (v <- mul_int_float src_h scale ;; Py.round v) ;;
    Ok (Z.max 1 new_w, Z.max 1 new_h).

Definition resize_with_aspect (img : Raster) (target_w target_h : Z) (mode : string)
  : result Raster :=
  let src_w := width img in
  let src_h := height img in
  if (src_w =? 0) || (src_h =? 0) then Ok img
  else
    wh <- resize_dims src_w src_h target_w target_h mode ;;
    Ok (resize img (fst wh) (snd wh)).

Definition rotate_image_rgba (img : Raster) (rotation_deg : float) : Raster :=
  if flt (fabs rotation_deg) (lit binary64 (1 # 1000000)) then img
  else rotate_expand img rotation_deg.

(** [max(0.0, min(1.0, float(opacity)))]. *)
Definition clamp_opacity (opacity : float) : float :=
  Py.max (Fin 0) (Py.min (Fin 1) opacity).

Definition apply_opacity (img_rgba : Raster) (opacity : float) : Raster :=
  let opacity := clamp_opacity opacity in
  if fle (lit binary64 (999 # 1000)) opacity then img_rgba
  else
    {| width := width img_rgba; height := height img_rgba;
       px := fun x y =>
         let p := px img_rgba x y in
         let a_arr := (Np.of_u8 (alpha p) * cast binary32 opacity)%f32 in
         RGBA (red p) (green p) (blue p)
              (Np.astype_uint8 (Np.clip a_arr (Np.scalar 0) (Np.scalar 255))) |}.

Definition blend_normal (base overlay : Raster) : result Raster :=
  Pillow.alpha_composite base overlay.

(** The [f_rgb] of [blend_numpy] for one channel of the base ([b]) and of
    the overlay ([o]), both in [0, 1]. *)
Definition f_rgb (mode : string) (b o : float) : float :=
  if String.eqb mode "multiply" then (b * o)%f32
  else if String.eqb mode "screen" then
    (Np.scalar 1 - (Np.scalar 1 - b) * (Np.scalar 1 - o))%f32
  else if String.eqb mode "overlay" then
    if fle b (Np.scalar (1 # 2)) then (Np.scalar 2 * b * o)%f32
    else (Np.scalar 1 - Np.scalar 2 * (Np.scalar 1 - b) * (Np.scalar 1 - o))%f32
  else if String.eqb mode "lighten" then Np.maximum b o
  else if String.eqb mode "darken" then Np.minimum b o
  else o.

(** One pixel of [blend_numpy]. *)
Definition blend_numpy_px (mode : string) (base over : pixel) : pixel :=
  let o_a := Np.unit_of_u8 (alpha over) in
  let b_a := Np.unit_of_u8 (alpha base) in
  let out_rgb (b o : byte) : byte :=
    let b_rgb := Np.unit_of_u8 b in
    let o_rgb := Np.unit_of_u8 o in
    Np.to_u8 (f_rgb mode b_rgb o_rgb * o_a + b_rgb * (Np.scalar 1 - o_a))%f32 in
  RGBA (out_rgb (red base) (red over))
       (out_rgb (green base) (green over))
       (out_rgb (blue base) (blue over))
       (Np.to_u8 (o_a + b_a * (Np.scalar 1 - o_a))%f32).

(** The arrays of the two images are combined elementwise; NumPy broadcasts
    an axis of size 1, except under the boolean mask of the overlay mode,
    which needs equal shapes. *)
Definition blend_numpy (base overlay : Raster) (mode : string) : result Raster :=
  let base_rgba := ensure_rgba base in
  let over_rgba := ensure_rgba overlay in
  wh <- (if String.eqb mode "overlay" then
           if (width base_rgba =? width over_rgba) && (height base_rgba =? height over_rgba)
           then Ok (width base_rgba, height base_rgba)
           else Raise IndexError
         else
           w <- Np.broadcast_dim (width base_rgba) (width over_rgba) ;;
           h <- Np.broadcast_dim (height base_rgba) (height over_rgba) ;;
           Ok (w, h)) ;;
  Ok {| width := fst wh; height := snd wh;
        px := fun x y =>
          blend_numpy_px mode
            (px base_rgba (Np.bidx (width base_rgba) x) (Np.bidx (height base_rgba) y))
            (px over_rgba (Np.bidx (width over_rgba) x) (Np.bidx (height over_rgba) y)) |}.

Definition numpy_modes : list string :=
  ["multiply"; "screen"; "overlay"; "lighten"; "darken"]%string.

(** [int(round(c - n / 2))]. *)
Definition centered_origin (c n : Z) : result Z :=
  half <- truediv n 2 ;;
  d <- sub_int_float c half ;;
  Py.round d.

Definition paste_overlay (mockup_rgba overlay_rgba : Raster) (center_xy : Z * Z)
  (blend_mode : string) : result Raster :=
  let canvas := new_transparent (width mockup_rgba) (height mockup_rgba) in
  let ow := width overlay_rgba in
  let oh := height overlay_rgba in
  let '(cx, cy) := center_xy in
  x0 <- centered_origin cx ow ;;
  y0 <- centered_origin cy oh ;;
  let canvas := Pillow.alpha_composite_at canvas overlay_rgba x0 y0 in
  let bm := lower blend_mode in
  if String.eqb bm "normal" then blend_normal mockup_rgba canvas
  else if mem bm numpy_modes then blend_numpy mockup_rgba canvas bm
  else blend_normal mockup_rgba canvas.

(** ** Core rendering *)

(** [pp.quad_norm[i]], with Python's [IndexError]. *)
Definition quad_point (pp : PerspectivePlacement) (i : nat) : result (float * float) :=
  match nth_error (quad_norm pp) i with
  | Some p => Ok p
  | None => Raise IndexError
  end.

(** One row [[pp.quad_norm[i][0] * mw, pp.quad_norm[i][1] * mh]] of the
    [float32] array [quad_px]. *)
Definition quad_px_row (pp : PerspectivePlacement) (i : nat) (mw mh : Z)
  : result (float * float) :=
  p <- quad_point pp i ;;
  x <- mul_float_int (fst p) mw ;;
  q <- quad_point pp i ;;
  y <- mul_float_int (snd q) mh ;;
  Ok (cast binary32 x, cast binary32 y).

(** The part of [render_one] after the two images are open. *)
Definition render_loaded (mockup design : Raster) (config : RenderConfig)
  : result Raster :=
  let mw := width mockup in
  let mh := height mockup in
  if String.eqb (mode config) "rect" then
    match placement config with
    | Rect rp =>
        tw <- (v <- mul_float_int (width_norm rp) mw ;; r <- Py.round v ;; Ok (Z.max 1 r)) ;;
        th <- (v <- mul_float_int (height_norm rp) mh ;; r <- Py.round v ;; Ok (Z.max 1 r)) ;;
        cx <- (v <- mul_float_int (center_x_norm rp) mw ;; Py.round v) ;;
        cy <- (v <- mul_float_int (center_y_norm rp) mh ;; Py.round v) ;;
        resized <- resize_with_aspect design tw th (maintain_aspect config) ;;
        let rotated := rotate_image_rgba resized (rotation_deg rp) in
        let overlay := apply_opacity rotated (opacity config) in
        paste_overlay mockup overlay (cx, cy) (blend_mode config)
    | Perspective _ => Raise AssertionError
    end
  else if String.eqb (mode config) "perspective" then
    match placement config with
    | Perspective pp =>
        r0 <- quad_px_row pp 0 mw mh ;;
        r1 <- quad_px_row pp 1 mw mh ;;
        r2 <- quad_px_row pp 2 mw mh ;;
        r3 <- quad_px_row pp 3 mw mh ;;
        let quad_px := [r0; r1; r2; r3] in
        let warped_rgba :=
          {| width := mw; height := mh;
             px := warp_perspective (ensure_rgba design) quad_px mw mh |} in
        let overlay := apply_opacity warped_rgba (opacity config) in
        let bm := blend_mode config in
        if String.eqb bm "normal" then blend_normal mockup overlay
        else if mem bm numpy_modes then blend_numpy mockup overlay bm
        else blend_normal mockup overlay
    | Rect _ => Raise AssertionError
    end
  else Raise ValueError.

Definition render_one (fs : FileSystem) (mockup_path design_path : string)
  (config : RenderConfig) : io Raster :=
  mockup <~ open_rgba fs mockup_path ;;
  design <~ open_rgba fs design_path ;;
  lift (render_loaded mockup design config).

Definition render_one_rect_pixels (fs : FileSystem) (mockup_path design_path : string)
  (center_x_px center_y_px target_width_px target_height_px : Z)
  (rotation_deg : float) (maintain_aspect : string) (opacity : float)
  (blend_mode : string) : io Raster :=
  mockup <~ open_rgba fs mockup_path ;;
  design <~ open_rgba fs design_path ;;
  lift (resized <- resize_with_aspect design target_width_px target_height_px
                     maintain_aspect ;;
        let rotated := rotate_image_rgba resized rotation_deg in
        let overlay := apply_opacity rotated opacity in
        paste_overlay mockup overlay (center_x_px, center_y_px) blend_mode).

(** The engine calls of [cmd_preview]: the config is parsed, then rendered. *)
Definition cmd_preview (fs : FileSystem) (data : list (string * json))
  (mockup_path design_path : string) : io Raster :=
  cfg <~ lift (from_dict data) ;;
  render_one fs mockup_path design_path cfg.

End Engine.

(* ================================================================== *)
(** * Vocabulary of the properties *)
(* ================================================================== *)

Open Scope string_scope.
Open Scope Z_scope.

Open Scope Q_scope.

Definition u64 : Q := 1 # 9007199254740992.

(** The float quotient [t / s] of two sizes. *)
Definition quot (t s : Z) : Q := rnd binary64 (inject_Z t / inject_Z s).

(** [round(n * q)]. *)
Definition scaled (n : Z) (q : Q) : Z := rne (rnd binary64 (inject_Z n * q)).

Definition size_ok (n : Z) : Prop := (1 <= n < 2 ^ 31)%Z.

(** The scale factor [resize_with_aspect] settles on. *)
Definition fit_scale (mode : string) (a b : Q) : Q :=
  if String.eqb mode "cover" then (if Qle_bool b a then a else b)
  else (if Qle_bool a b then a else b).

Close Scope Q_scope.

(** The integers [start, start + n). *)
Fixpoint zrange (start : Z) (n : nat) : list Z :=
  match n with
  | O => []
  | S k => start :: zrange (start + 1) k
  end.

(** A finite float of magnitude at most [2^j]. *)
Definition finite_le (j : Z) (a : float) : Prop :=
  exists q, a = Fin q /\ (Qabs q <= pow2 j)%Q.

(** A channel divided by 255 and scaled back is the channel again. *)
Definition unit_round_trip (z : Z) : bool :=
  b2z (Np.to_u8 (fadd binary32 (Fin 0)
         (fmul binary32 (fdiv binary32 (Fin (inject_Z z)) (Np.scalar 255)) (Fin 1))))
  =? z.

(** [config] with another opacity. *)
Definition with_opacity (config : RenderConfig) (opacity : float) : RenderConfig :=
  {| mode := mode config; placement := placement config;
     blend_mode := blend_mode config; opacity := opacity;
     maintain_aspect := maintain_aspect config |}.

(** Every pixel of the raster is fully transparent. *)
Definition clear_raster (r : Raster) : Prop :=
  forall x y, alpha (px r x y) = Byte.x00.

(** Nearest-neighbour sampling, standing in for the external kernels. *)
Definition nearest (img : Raster) (w h x y : Z) : pixel :=
  px img (x * width img / w) (y * height img / h).

Definition sample_extern : Extern :=
  {| lanczos := nearest;
     rotate_expand := fun img _ => img;
     warp_perspective := fun img _ w h => nearest img w h;
     float_of_str := fun _ => Raise ValueError;
     str_of_json := fun _ => "" |}.

Definition solid (w h : Z) (p : pixel) : Raster :=
  {| width := w; height := h; px := fun _ _ => p |}.

Definition gray : pixel := RGBA (z2b 200) (z2b 200) (z2b 200) (z2b 255).

Definition red_px : pixel := RGBA (z2b 255) (z2b 0) (z2b 0) (z2b 255).

(** A 1000x800 gray mockup and a 100x100 red design. *)
Definition sample_fs : FileSystem :=
  fun path =>
    if String.eqb path "mockup.png" then Some (solid 1000 800 gray)
    else if String.eqb path "design.png" then Some (solid 100 100 red_px)
    else None.

Definition sample_rect : RectPlacement :=
  {| center_x_norm := lit binary64 (1 # 2); center_y_norm := lit binary64 (1 # 2);
     width_norm := lit binary64 (1 # 10); height_norm := lit binary64 (1 # 10);
     rotation_deg := Fin 0 |}.

Definition sample_config : RenderConfig :=
  {| mode := "rect"; placement := Rect sample_rect; blend_mode := "normal";
     opacity := Fin 1; maintain_aspect := "contain" |}.

(** The pixel geometry a rect placement resolves to on a background of
    the given size: center, then target size, each side at least 1. *)
Definition resolve_rect (rp : RectPlacement) (bg_w bg_h : Z) : result (Z * Z * Z * Z) :=
  center_x_px <- (v <- mul_float_int (center_x_norm rp) bg_w ;; Py.round v) ;;
  center_y_px <- (v <- mul_float_int (center_y_norm rp) bg_h ;; Py.round v) ;;
  target_width_px <-
    (v <- mul_float_int (width_norm rp) bg_w ;; r <- Py.round v ;; Ok (Z.max 1 r)) ;;
  target_height_px <-
    (v <- mul_float_int (height_norm rp) bg_h ;; r <- Py.round v ;; Ok (Z.max 1 r)) ;;
  Ok (center_x_px, center_y_px, target_width_px, target_height_px).

Definition is_ok {A : Type} (r : result A) : bool :=
  match r with Ok _ => true | Raise _ => false end.

(** The stated normal-mode mix of one channel, in exact [0, 1] arithmetic,
    expressed as a level out of 255:
    [over_rgb * over_a + base_rgb * (1 - over_a)]. *)
Definition over_formula (over_rgb over_a base_rgb : byte) : Q :=
  let o := (inject_Z (b2z over_rgb) / 255)%Q in
  let a := (inject_Z (b2z over_a) / 255)%Q in
  let b := (inject_Z (b2z base_rgb) / 255)%Q in
  (255 * (o * a + b * (1 - a)))%Q.

(** The channel [c] is within one 8-bit level of [v]. *)
Definition within_a_level (c : byte) (v : Q) : Prop :=
  (Qabs (inject_Z (b2z c) - v) < 1)%Q.

(** The channel [c] is a nearest 8-bit level to [v]. *)
Definition nearest_level (c : byte) (v : Q) : Prop :=
  (Qabs (inject_Z (b2z c) - v) <= 1 # 2)%Q.

Definition show_px (p : pixel) : Z * Z * Z * Z :=
  (b2z (red p), b2z (green p), b2z (blue p), b2z (alpha p)).

(** The pixel of a result, for looking at examples. *)
Definition px_at (r : result Raster) (x y : Z) : option (Z * Z * Z * Z) :=
  match r with
  | Ok img => Some (show_px (px img x y))
  | Raise _ => None
  end.

(** One channel of [alpha_composite_px] over an opaque destination, as a
    function of [t = s * sa + d * (255 - sa)]. *)
Definition opaque_channel (t : Z) : Z :=
  Z.shiftr (Pillow.shift_for_div255 (128 * t + Z.shiftl 128 Pillow.PRECISION_BITS))
           Pillow.PRECISION_BITS.

Definition opaque_channel_rounds (t : Z) : bool :=
  opaque_channel t =? (t + 127) / 255.

Definition half_red : pixel := RGBA (z2b 255) (z2b 0) (z2b 0) (z2b 128).

Inductive BlendFn := Multiply | Screen | Overlay | Lighten | Darken.

Definition blend_name (m : BlendFn) : string :=
  match m with
  | Multiply => "multiply"
  | Screen => "screen"
  | Overlay => "overlay"
  | Lighten => "lighten"
  | Darken => "darken"
  end.

(** The mode formulas as the specification words them, on [float32]
    channels in [0, 1]. *)
Definition mode_formula (m : BlendFn) (base over : float) : float :=
  match m with
  | Multiply => (base * over)%f32
  | Screen => (Np.scalar 1 - (Np.scalar 1 - base) * (Np.scalar 1 - over))%f32
  | Overlay =>
      if fle base (Np.scalar (1 # 2)) then (Np.scalar 2 * base * over)%f32
      else (Np.scalar 1 - Np.scalar 2 * (Np.scalar 1 - base) * (Np.scalar 1 - over))%f32
  | Lighten => Np.maximum base over
  | Darken => Np.minimum base over
  end.

(** [out_rgb = f * over_a + base_rgb * (1 - over_a)]. *)
Definition out_rgb_formula (f over_a base_rgb : float) : float :=
  (f * over_a + base_rgb * (Np.scalar 1 - over_a))%f32.

(** [out_a = over_a + base_a * (1 - over_a)]. *)
Definition out_a_formula (over_a base_a : float) : float :=
  (over_a + base_a * (Np.scalar 1 - over_a))%f32.

(** The pixel the formulas give, back in 8 bits. *)
Definition formula_px (m : BlendFn) (base over : pixel) : pixel :=
  let u := Np.unit_of_u8 in
  let rgb (b o : byte) : byte :=
    Np.to_u8 (out_rgb_formula (mode_formula m (u b) (u o)) (u (alpha over)) (u b)) in
  RGBA (rgb (red base) (red over)) (rgb (green base) (green over))
       (rgb (blue base) (blue over))
       (Np.to_u8 (out_a_formula (u (alpha over)) (u (alpha base)))).

(** The six mode names the dispatchers know. *)
Definition recognized (bm : string) : bool :=
  String.eqb bm "normal" || mem bm numpy_modes.

(** The pass-through pixel: the overlay colour takes the place of [f]. *)
Definition passthrough_px (base over : pixel) : pixel :=
  let u := Np.unit_of_u8 in
  let rgb (b o : byte) : byte :=
    Np.to_u8 (out_rgb_formula (u o) (u (alpha over)) (u b)) in
  RGBA (rgb (red base) (red over)) (rgb (green base) (green over))
       (rgb (blue base) (blue over))
       (Np.to_u8 (out_a_formula (u (alpha over)) (u (alpha base)))).

Definition blue_half : pixel := RGBA (z2b 0) (z2b 0) (z2b 255) (z2b 128).

(** [config] with another blend mode. *)
Definition with_blend_mode (config : RenderConfig) (bm : string) : RenderConfig :=
  {| mode := mode config; placement := placement config;
     blend_mode := bm; opacity := opacity config;
     maintain_aspect := maintain_aspect config |}.

(** An integer that fits a C [int], as every Pillow size does. *)
Definition pixel_int (n : Z) : Prop := Z.abs n <= 2 ^ 31.

Section ExternFacts.
Context `{Extern}.

(** The rotation kernel returns an image whose sides fit 64 bits when its
    input's sides do. *)
Definition rotation_keeps_sizes : Prop :=
  forall img deg,
    Z.abs (width img) <= 2 ^ 62 -> Z.abs (height img) <= 2 ^ 62 ->
    Z.abs (width (rotate_expand img deg)) <= 2 ^ 63 /\
    Z.abs (height (rotate_expand img deg)) <= 2 ^ 63.

End ExternFacts.

(** A mode the engine does not know. *)
Definition unsupported (mode : string) : Prop :=
  mode <> "rect" /\ mode <> "perspective".

(** A call that is rejected before any file is opened. *)
Definition fails_fast {A : Type} (r : result A * list event) : Prop :=
  r = (Raise ValueError, []).

Definition foo_config : RenderConfig :=
  {| mode := "foo"; placement := Rect sample_rect; blend_mode := "normal";
     opacity := Fin 1; maintain_aspect := "contain" |}.

Definition corner (x y : Q) : float * float := (lit binary64 x, lit binary64 y).

(** A quad of five points, and one of three. *)
Definition five_points : RenderConfig :=
  {| mode := "perspective";
     placement := Perspective {| quad_norm :=
       [corner (1 # 10) (1 # 10); corner (9 # 10) (1 # 10); corner (9 # 10) (9 # 10);
        corner (1 # 10) (9 # 10); corner (1 # 2) (1 # 2)] |};
     blend_mode := "normal"; opacity := Fin 1; maintain_aspect := "contain" |}.

Definition three_points : RenderConfig :=
  {| mode := "perspective";
     placement := Perspective {| quad_norm :=
       [corner (1 # 10) (1 # 10); corner (9 # 10) (1 # 10); corner (9 # 10) (9 # 10)] |};
     blend_mode := "normal"; opacity := Fin 1; maintain_aspect := "contain" |}.

(** A perspective configuration with a quad of four points. *)
Definition four_points : RenderConfig :=
  {| mode := "perspective";
     placement := Perspective {| quad_norm :=
       [corner (1 # 10) (1 # 10); corner (9 # 10) (1 # 10); corner (9 # 10) (9 # 10);
        corner (1 # 10) (9 # 10)] |};
     blend_mode := "multiply"; opacity := Fin 1; maintain_aspect := "contain" |}.

(** What [from_dict] guarantees of the configuration it returns. *)
Definition well_formed (config : RenderConfig) : Prop :=
  ((mode config = "rect" /\ exists rp, placement config = Rect rp) \/
   (mode config = "perspective" /\
    exists pp, placement config = Perspective pp /\
               List.length (quad_norm pp) = 4%nat)) /\
  lower (blend_mode config) = blend_mode config /\
  lower (maintain_aspect config) = maintain_aspect config.

(** The configuration of an empty document. *)
Definition default_config : RenderConfig :=
  {| mode := "rect";
     placement := Rect {| center_x_norm := lit binary64 (1 # 2);
                          center_y_norm := lit binary64 (1 # 2);
                          width_norm := lit binary64 (1 # 2);
                          height_norm := lit binary64 (1 # 2);
                          rotation_deg := Fin 0 |};
     blend_mode := "normal"; opacity := Fin 1; maintain_aspect := "contain" |}.

(** The document has no entry under [key]. *)
Definition absent (data : list (string * json)) (key : string) : Prop :=
  find (fun kv => String.eqb (fst kv) key) data = None.

(** A perspective document as [init-config] writes it. *)
Definition perspective_doc : list (string * json) :=
  let pt (x y : Q) := JList [JFloat (lit binary64 x); JFloat (lit binary64 y)] in
  [("mode", JStr "perspective");
   ("placement",
    JDict [("quad_norm",
            JList [pt (2 # 10)%Q (2 # 10)%Q; pt (8 # 10)%Q (2 # 10)%Q;
                   pt (8 # 10)%Q (8 # 10)%Q; pt (2 # 10)%Q (8 # 10)%Q])]);
   ("blend_mode", JStr "normal");
   ("opacity", JFloat (Fin 1))].

(** The pixel [(x, y)] of the canvas lies in the box an image pasted at
    [(x0, y0)] covers. *)
Definition in_box (x0 y0 : Z) (im : Raster) (x y : Z) : bool :=
  (x0 <=? x) && (x <? x0 + width im) && (y0 <=? y) && (y <? y0 + height im).

(** One colour channel of [alpha_composite_px] under an opaque source, as
    a function of the source channel. *)
Definition opaque_src_channel (s : Z) : Z :=
  Z.shiftr (Pillow.shift_for_div255
              (s * (255 * 255 * 255 * Z.shiftl 1 Pillow.PRECISION_BITS / (255 * 255))
               + Z.shiftl 128 Pillow.PRECISION_BITS))
           Pillow.PRECISION_BITS.

(** A 2x2 design: an opaque red pixel, then three half transparent ones. *)
Definition patch : Raster :=
  {| width := 2; height := 2;
     px := fun x y => if (x =? 0) && (y =? 0) then red_px else half_red |}.

(** One colour channel of [blend_numpy_px]: it depends on that channel of
    the base and of the overlay and on the overlay's alpha. *)
Definition channel_of (mode : string) (b o oa : byte) : byte :=
  red (blend_numpy_px mode (RGBA b Byte.x00 Byte.x00 Byte.x00)
                           (RGBA o Byte.x00 Byte.x00 oa)).

(** The alpha channel of [blend_numpy_px], the same in every mode. *)
Definition alpha_of (ba oa : byte) : byte :=
  alpha (blend_numpy_px "normal" (RGBA Byte.x00 Byte.x00 Byte.x00 ba)
                                 (RGBA Byte.x00 Byte.x00 Byte.x00 oa)).

Definition white_px : pixel := RGBA Byte.xff Byte.xff Byte.xff Byte.xff.

Definition black_px : pixel := RGBA Byte.x00 Byte.x00 Byte.x00 Byte.xff.

(** The pixel with the colour of [p], opaque. *)
Definition opaque_of (p : pixel) : pixel := RGBA (red p) (green p) (blue p) Byte.xff.

(** The level screen blending against opaque black gives: one less on the
    levels 1 to 64 and on the even levels up to 126. *)
Definition screened_by_black (z : Z) : Z :=
  if (1 <=? z) && ((z <=? 64) || ((z <=? 126) && Z.even z)) then z - 1 else z.

(* ================================================================== *)
(** * The commands *)
(* ================================================================== *)

(** ** The simple commands: anchors *)

Definition _center_from_anchor (anchor : string) (x y w h : Z) : Z * Z :=
  if String.eqb anchor "topleft" then (x + w / 2, y + h / 2) else (x, y).

(** The integer nearest to [k / 2], the even one on a tie. *)
Definition round_half (k : Z) : Z :=
  if Z.even k then k / 2 else if Z.even (k / 2) then k / 2 else k / 2 + 1.

(** ** File names *)

(** The letters and digits of ASCII. *)
Definition ascii_alnum (c : ascii) : bool :=
  let n := nat_of_ascii c in
  ((48 <=? n) && (n <=? 57) || (65 <=? n) && (n <=? 90)
   || (97 <=? n) && (n <=? 122))%nat.

(** What the file naming takes from Python's Unicode database:
    [str.isalnum] of one character, which on ASCII holds of the letters and
    digits.  A character is a code point below 256. *)
Class Unicode := {
  isalnum : ascii -> bool;
  isalnum_ascii : forall c, (nat_of_ascii c < 128)%nat -> isalnum c = ascii_alnum c
}.

(** [ch in ("-", "_", ".")]. *)
Definition punct (c : ascii) : bool :=
  Ascii.eqb c "-" || Ascii.eqb c "_" || Ascii.eqb c ".".

(** ["__" in safe]. *)
Fixpoint has_dunder (s : list ascii) : bool :=
  match s with
  | a :: ((b :: _) as tl) => (Ascii.eqb a "_" && Ascii.eqb b "_") || has_dunder tl
  | _ => false
  end.

(** [safe.replace("__", "_")]: the occurrences are taken from the left and
    do not overlap. *)
Fixpoint replace_dunder (s : list ascii) : list ascii :=
  match s with
  | a :: ((b :: rest) as tl) =>
      if Ascii.eqb a "_" && Ascii.eqb b "_" then "_"%char :: replace_dunder rest
      else a :: replace_dunder tl
  | _ => s
  end.

(** [while "__" in safe: safe = safe.replace("__", "_")], for at most
    [fuel] rounds. *)
Fixpoint collapse (fuel : nat) (s : list ascii) : option (list ascii) :=
  if has_dunder s then
    match fuel with
    | O => None
    | S f => collapse f (replace_dunder s)
    end
  else Some s.

(** The characters [strip("._")] removes. *)
Definition strip_set (c : ascii) : bool := Ascii.eqb c "." || Ascii.eqb c "_".

Fixpoint lstrip (s : list ascii) : list ascii :=
  match s with
  | c :: r => if strip_set c then lstrip r else s
  | [] => []
  end.

Fixpoint rstrip (s : list ascii) : list ascii :=
  match s with
  | c :: r =>
      match rstrip r with
      | [] => if strip_set c then [] else [c]
      | r' => c :: r'
      end
  | [] => []
  end.

(** [s.strip("._")]. *)
Definition strip (s : list ascii) : list ascii := rstrip (lstrip s).

(** Every run of underscores reduced to one. *)
Fixpoint squeeze (s : list ascii) : list ascii :=
  match s with
  | a :: ((b :: _) as tl) =>
      if Ascii.eqb a "_" && Ascii.eqb b "_" then squeeze tl else a :: squeeze tl
  | _ => s
  end.

Section Slug.
Context `{Unicode}.

(** The character the generator expression yields for [ch]. *)
Definition safe_char (c : ascii) : ascii :=
  if isalnum c || punct c then c else "_"%char.

(** The loop is given one round per character, which is enough since
    every round shortens the string ([collapse_squeeze]). *)
Definition slug_chars (name : list ascii) : option (list ascii) :=
  let safe := map safe_char name in
  match collapse (List.length safe) safe with
  | Some safe =>
      match strip safe with
      | [] => Some (list_ascii_of_string "file")
      | stripped => Some stripped
      end
  | None => None
  end.

Definition slugify_filename (name : string) : option string :=
  option_map string_of_list_ascii (slug_chars (list_ascii_of_string name)).

End Slug.

(** The names [slugify_filename] returns. *)
Definition slug_shaped `{Unicode} (s : list ascii) : Prop :=
  s <> [] /\
  has_dunder s = false /\
  (forall c t, s = c :: t -> strip_set c = false) /\
  (forall c t, s = (t ++ [c])%list -> strip_set c = false) /\
  Forall (fun c => isalnum c || punct c = true) s.

Definition ascii_only : Unicode :=
  {| isalnum := ascii_alnum; isalnum_ascii := fun _ _ => eq_refl |}.

(** ** Output names *)

(** A path as the commands use it: the string it is opened under, and what
    [pathlib] and the file system report of it. *)
Record Path := {
  path_str : string;
  path_stem : string;
  path_suffix : string;
  is_file : bool
}.

(** The design file [stem + suffix] of the working directory. *)
Definition design_file (stem suffix : string) : Path :=
  {| path_str := stem ++ suffix; path_stem := stem; path_suffix := suffix;
     is_file := true |}.

(** [str(index)], in decimal. *)
Definition str_of_int (n : Z) : string :=
  DecimalString.NilZero.string_of_int (Z.to_int n).

(** [s.replace(old, new)] for a non-empty [old], scanning from the left:
    [skip] characters of a match just replaced are still to be passed
    over. *)
Fixpoint replace_from (old new : string) (skip : nat) (s : string) : string :=
  match s with
  | EmptyString => EmptyString
  | String c rest =>
      match skip with
      | S k => replace_from old new k rest
      | O =>
          if String.prefix old s
          then new ++ replace_from old new (String.length old - 1) rest
          else String c (replace_from old new 0 rest)
      end
  end.

(** [new] after every character: what is left of [s.replace("", new)]
    after its leading [new]. *)
Fixpoint intersperse (new s : string) : string :=
  match s with
  | EmptyString => EmptyString
  | String c rest => String c (new ++ intersperse new rest)
  end.

(** [s.replace(old, new)]. *)
Definition replace (s old new : string) : string :=
  if String.eqb old "" then new ++ intersperse new s
  else replace_from old new 0 s.

(** [suffix.lstrip(".")]. *)
Fixpoint lstrip_dots (s : string) : string :=
  match s with
  | String "." rest => lstrip_dots rest
  | _ => s
  end.

Definition build_output_name (pattern : string) (design_path : Path) (index : Z)
  : string :=
  let name_no_ext := path_stem design_path in
  replace
    (replace (replace pattern "{name}" name_no_ext) "{index}" (str_of_int index))
    "{ext}" (lstrip_dots (path_suffix design_path)).

(** The string has no opening brace, so no placeholder. *)
Fixpoint brace_free (s : string) : bool :=
  match s with
  | EmptyString => true
  | String c rest => negb (Ascii.eqb c "{") && brace_free rest
  end.

(** ** The batch commands *)

(** What a command does besides returning: the engine opens a file, or an
    image is saved, as RGB when the name asks for a JPEG. *)
Inductive shell_event :=
| Engine (e : event)
| Saved (path : string) (as_rgb : bool).

(** How a command ends: it returns after rendering [count] images, raises
    an exception, or leaves through [sys.exit].  [Unfinished] stands for a
    naming loop that was not done within its rounds. *)
Inductive outcome :=
| Rendered (count : Z)
| Failed (e : exn)
| Exited (status : Z)
| Unfinished.

(** What the commands take from [pathlib] and the file system. *)
Class PathLib := {
  (** [sorted(Path().glob(pat))] *)
  glob : string -> list Path;
  (** [out_dir / filename] *)
  joinpath : string -> string -> string;
  (** [Path(p).suffix] *)
  suffix_of : string -> string;
  (** [Path(p).with_suffix(suffix)] *)
  with_suffix : string -> string -> string
}.

Section Commands.
Context `{Extern} `{Unicode} `{PathLib}.

Definition list_design_files (patterns : list string) : list Path :=
  flat_map
    (fun pat =>
       filter (fun p => is_file p && mem (lower (path_suffix p)) [".png"]) (glob pat))
    patterns.

(** [save_image(img, out_path)]: the image is converted to RGB first when
    the suffix is [.jpg] or [.jpeg].  Writing the file is taken to succeed. *)
Definition save_image (out_path : string) : shell_event :=
  Saved out_path (mem (lower (suffix_of out_path)) [".jpg"; ".jpeg"]).

(** The path an output is saved under: the slug of the filled pattern in
    the output directory, with [.png] for a suffix unless it has the suffix
    of a PNG or a JPEG. *)
Definition fix_suffix (out_path : string) : string :=
  if mem (lower (suffix_of out_path)) [".png"; ".jpg"; ".jpeg"] then out_path
  else with_suffix out_path ".png".

Definition output_path (out_dir pattern : string) (dp : Path) (idx : Z)
  : option string :=
  option_map (fun filename => fix_suffix (joinpath out_dir filename))
             (slugify_filename (build_output_name pattern dp idx)).

(** The loop [for idx, dp in enumerate(designs, start=1)] of the two batch
    commands, without [--verbose] and [--upload-imgbb]. *)
Fixpoint render_loop (render : Path -> io Raster) (out_dir pattern : string)
  (designs : list Path) (idx count : Z) (t : list shell_event)
  : outcome * list shell_event :=
  match designs with
  | [] => (Rendered count, t)
  | dp :: rest =>
      match run (render dp) with
      | (Raise e, opened) => (Failed e, t ++ map Engine opened)
      | (Ok _, opened) =>
          match output_path out_dir pattern dp idx with
          | None => (Unfinished, t ++ map Engine opened)
          | Some out_path =>
              render_loop render out_dir pattern rest (idx + 1) (count + 1)
                (t ++ map Engine opened ++ [save_image out_path])
          end
      end
  end%list.

(** [cmd_render], from the decoded configuration document on. *)
Definition cmd_render (fs : FileSystem) (data : list (string * json))
  (patterns : list string) (mockup out_dir pattern : string)
  : outcome * list shell_event :=
  match from_dict data with
  | Raise e => (Failed e, [])
  | Ok cfg =>
      match list_design_files patterns with
      | [] => (Exited 1, [])
      | designs =>
          render_loop (fun dp => render_one fs mockup (path_str dp) cfg)
            out_dir pattern designs 1 0 []
      end
  end.

Definition cmd_render_simple (fs : FileSystem) (patterns : list string)
  (mockup out_dir pattern anchor : string) (x y w h : Z) (rotation : float)
  (aspect : string) (opacity : float) (blend : string)
  : outcome * list shell_event :=
  match list_design_files patterns with
  | [] => (Exited 1, [])
  | designs =>
      let '(cx, cy) := _center_from_anchor anchor x y w h in
      render_loop
        (fun dp => render_one_rect_pixels fs mockup (path_str dp) cx cy w h
                     rotation aspect opacity blend)
        out_dir pattern designs 1 0 []
  end.

(** The status the process ends with: [main] returns 0 when the command
    returns and 2 when it raises an exception; [sys.exit] is not an
    exception [main] catches, so its status is the process's. *)
Definition main (command : outcome * list shell_event) : option Z :=
  match fst command with
  | Rendered _ => Some 0
  | Failed _ => Some 2
  | Exited status => Some status
  | Unfinished => None
  end.

(** The name [slugify_filename] gives, in closed form. *)
Definition slug_of (name : string) : string :=
  string_of_list_ascii
    (match strip (squeeze (map safe_char (list_ascii_of_string name))) with
     | [] => list_ascii_of_string "file"
     | stripped => stripped
     end).

Definition saved_path (out_dir pattern : string) (dp : Path) (idx : Z) : string :=
  fix_suffix (joinpath out_dir (slug_of (build_output_name pattern dp idx))).

(** What rendering the designs one after the other does, counting from
    [idx]. *)
Fixpoint loop_events (render : Path -> io Raster) (out_dir pattern : string)
  (designs : list Path) (idx : Z) : list shell_event :=
  match designs with
  | [] => []
  | dp :: rest =>
      map Engine (snd (run (render dp)))
      ++ save_image (saved_path out_dir pattern dp idx)
         :: loop_events render out_dir pattern rest (idx + 1)
  end%list.

(** The events of a batch that goes through: for each design the mockup is
    opened, then the design, then the output is saved. *)
Fixpoint batch_trace (mockup out_dir pattern : string) (designs : list Path)
  (idx : Z) : list shell_event :=
  match designs with
  | [] => []
  | dp :: rest =>
      Engine (Opened mockup) :: Engine (Opened (path_str dp))
      :: save_image (saved_path out_dir pattern dp idx)
      :: batch_trace mockup out_dir pattern rest (idx + 1)
  end.

(** The render of the design returns an image. *)
Definition renders (render : Path -> io Raster) (dp : Path) : Prop :=
  exists img, fst (run (render dp)) = Ok img.

End Commands.

(** A working directory with two designs and a text file; paths are joined
    with a slash and every name is taken to end in [.png]. *)
Definition sample_paths : PathLib :=
  {| glob := fun pat =>
       if String.eqb pat "*.png"
       then [design_file "design" ".png"; design_file "missing" ".png"]
       else if String.eqb pat "*"
       then [design_file "design" ".png"; design_file "notes" ".txt"]
       else [];
     joinpath := fun dir name => dir ++ "/" ++ name;
     suffix_of := fun _ => ".png";
     with_suffix := fun p _ => p |}.

(** ** Configuration templates *)

(** The document [cmd_init_config] writes for [--mode]; read back, its
    numbers are the same binary64 values. *)
Definition cmd_init_config (mode : string) : result (list (string * json)) :=
  let num (q : Q) := JFloat (lit binary64 q) in
  let mode := lower mode in
  if String.eqb mode "rect" then
    Ok [("mode", JStr "rect");
        ("placement",
         JDict [("center_x_norm", num (5 # 10)%Q); ("center_y_norm", num (5 # 10)%Q);
                ("width_norm", num (6 # 10)%Q); ("height_norm", num (4 # 10)%Q);
                ("rotation_deg", num 0%Q)]);
        ("blend_mode", JStr "normal");
        ("opacity", num 1%Q);
        ("maintain_aspect", JStr "contain")]
  else if String.eqb mode "perspective" then
    Ok [("mode", JStr "perspective");
        ("placement",
         JDict [("quad_norm",
                 JList [JList [num (2 # 10)%Q; num (2 # 10)%Q];
                        JList [num (8 # 10)%Q; num (2 # 10)%Q];
                        JList [num (8 # 10)%Q; num (8 # 10)%Q];
                        JList [num (2 # 10)%Q; num (8 # 10)%Q]])]);
        ("blend_mode", JStr "normal");
        ("opacity", num 1%Q)]
  else Raise ValueError.

(** The configurations the two templates stand for. *)
Definition rect_template : RenderConfig :=
  {| mode := "rect";
     placement := Rect {| center_x_norm := lit binary64 (5 # 10);
                          center_y_norm := lit binary64 (5 # 10);
                          width_norm := lit binary64 (6 # 10);
                          height_norm := lit binary64 (4 # 10);
                          rotation_deg := Fin 0 |};
     blend_mode := "normal"; opacity := Fin 1; maintain_aspect := "contain" |}.

Definition perspective_template : RenderConfig :=
  {| mode := "perspective";
     placement := Perspective {| quad_norm :=
       [corner (2 # 10) (2 # 10); corner (8 # 10) (2 # 10); corner (8 # 10) (8 # 10);
        corner (2 # 10) (8 # 10)] |};
     blend_mode := "normal"; opacity := Fin 1; maintain_aspect := "contain" |}.

(* ================================================================== *)
(** * Facts about rounding *)
(* ================================================================== *)

Open Scope Q_scope.

Section RoundingFacts.

Ltac q_compare H :=
  match type of H with
  | (_ ?= _) = Eq => apply (proj2 (Qeq_alt _ _)) in H
  | (_ ?= _) = Lt => apply (proj2 (Qlt_alt _ _)) in H
  | (_ ?= _) = Gt => apply (proj2 (Qgt_alt _ _)) in H
  end.

Lemma rne_bounds (x : Q) :
  x - (1 # 2) <= inject_Z (rne x) <= x + (1 # 2).
Proof.
  unfold rne.
  pose proof (Qfloor_le x) as Hlo.
  pose proof (Qlt_floor x) as Hhi.
  rewrite inject_Z_plus in Hhi. change (inject_Z 1) with 1 in Hhi.
  destruct (x - inject_Z (Qfloor x) ?= 1 # 2) eqn:E.
  - q_compare E.
    destruct (Z.even (Qfloor x));
      [|rewrite inject_Z_plus; change (inject_Z 1) with 1]; lra.
  - q_compare E. lra.
  - q_compare E. rewrite inject_Z_plus. change (inject_Z 1) with 1. lra.
Qed.

Lemma rne_inject_Z (n : Z) : rne (inject_Z n) = n.
Proof.
  unfold rne. rewrite Qfloor_Z.
  replace (inject_Z n - inject_Z n ?= 1 # 2) with Lt; [reflexivity|].
  symmetry. apply (proj1 (Qlt_alt _ _)). lra.
Qed.

Lemma rne_comp (x y : Q) : x == y -> rne x = rne y.
Proof.
  intros E. unfold rne. rewrite (Qfloor_comp _ _ E).
  replace (y - inject_Z (Qfloor y) ?= 1 # 2) with (x - inject_Z (Qfloor y) ?= 1 # 2);
    [reflexivity|].
  apply Qcompare_comp; [rewrite E|]; reflexivity.
Qed.

Lemma inject_Z_lt_succ (a b : Z) : inject_Z a < inject_Z b + 1 -> (a <= b)%Z.
Proof.
  intros Hlt. change 1 with (inject_Z 1) in Hlt.
  rewrite <- (inject_Z_plus b 1) in Hlt.
  rewrite <- Zlt_Qlt in Hlt. lia.
Qed.

Lemma rne_near (x : Q) (n : Z) :
  Qabs (x - inject_Z n) < 1 # 2 -> rne x = n.
Proof.
  intros Hn. apply Qabs_Qlt_condition in Hn.
  pose proof (rne_bounds x) as Hr.
  apply Z.le_antisymm; apply inject_Z_lt_succ; lra.
Qed.

Lemma rne_mono (x y : Q) : x <= y -> (rne x <= rne y)%Z.
Proof.
  intros Hxy.
  pose proof (Qfloor_resp_le _ _ Hxy) as Hf.
  pose proof (Qfloor_le x) as Hxl. pose proof (Qlt_floor x) as Hxh.
  pose proof (Qfloor_le y) as Hyl. pose proof (Qlt_floor y) as Hyh.
  rewrite inject_Z_plus in Hxh, Hyh. change (inject_Z 1) with 1 in Hxh, Hyh.
  assert (Hcase : (Qfloor x = Qfloor y \/ Qfloor x + 1 <= Qfloor y)%Z) by lia.
  destruct Hcase as [Heq | Hlt].
  - unfold rne. rewrite <- Heq.
    destruct (x - inject_Z (Qfloor x) ?= 1 # 2) eqn:Ex;
      destruct (y - inject_Z (Qfloor x) ?= 1 # 2) eqn:Ey;
      try (destruct (Z.even (Qfloor x))); try lia;
      q_compare Ex; q_compare Ey; exfalso; lra.
  - assert (Hx : (rne x <= Qfloor x + 1)%Z).
    { unfold rne. destruct (x - inject_Z (Qfloor x) ?= 1 # 2);
        try destruct (Z.even (Qfloor x)); lia. }
    assert (Hy : (Qfloor y <= rne y)%Z).
    { unfold rne. destruct (y - inject_Z (Qfloor y) ?= 1 # 2);
        try destruct (Z.even (Qfloor y)); lia. }
    lia.
Qed.

End RoundingFacts.

Lemma pow2_pos (k : Z) : 0 < pow2 k.
Proof. apply Qpower_0_lt. reflexivity. Qed.

Lemma pow2_add (a b : Z) : pow2 (a + b) == pow2 a * pow2 b.
Proof. apply Qpower_plus. discriminate. Qed.

Lemma pow2_sub (a b : Z) : pow2 (a - b) == pow2 a / pow2 b.
Proof. apply Qpower_minus. discriminate. Qed.

Lemma pow2_le (a b : Z) : (a <= b)%Z -> pow2 a <= pow2 b.
Proof. intros. apply Qpower_le_compat_l; [assumption | discriminate]. Qed.

Lemma pow2_lt (a b : Z) : (a < b)%Z -> pow2 a < pow2 b.
Proof. intros. apply Qpower_lt_compat_l; [assumption | reflexivity]. Qed.

Lemma pow2_lt_inv (a b : Z) : pow2 a < pow2 b -> (a < b)%Z.
Proof. intros. apply (Qpower_lt_compat_l_inv 2); [assumption | reflexivity]. Qed.

Lemma pow2_Z (k : Z) : (0 <= k)%Z -> pow2 k == inject_Z (2 ^ k).
Proof. intros. unfold pow2. rewrite Zpower_Qpower by assumption. reflexivity. Qed.

Lemma pow2_succ (k : Z) : pow2 (k + 1) == 2 * pow2 k.
Proof. rewrite pow2_add. change (pow2 1) with 2. ring. Qed.

Lemma Qnum_pos (x : Q) : 0 < x -> (0 < Qnum x)%Z.
Proof. destruct x as [n d]. unfold Qlt. simpl. lia. Qed.

Lemma ilog2_spec (x : Q) : 0 < x -> pow2 (ilog2 x) <= x < pow2 (ilog2 x + 1).
Proof.
  intros Hx. pose proof (Qnum_pos x Hx) as Hn.
  destruct x as [n d]. simpl in Hn. unfold ilog2. cbn [Qnum Qden].
  set (a := Z.log2 n). set (b := Z.log2 (Zpos d)).
  destruct (Z.log2_spec n Hn) as [Ha1 Ha2].
  destruct (Z.log2_spec (Zpos d) eq_refl) as [Hb1 Hb2].
  fold a in Ha1, Ha2. fold b in Hb1, Hb2.
  assert (Ha0 : (0 <= a)%Z) by apply Z.log2_nonneg.
  assert (Hb0 : (0 <= b)%Z) by apply Z.log2_nonneg.
  assert (HA1 : pow2 a <= inject_Z n).
  { rewrite pow2_Z by assumption. rewrite <- Zle_Qle. assumption. }
  assert (HA2 : inject_Z n < pow2 (a + 1)).
  { rewrite pow2_Z by lia. rewrite <- Zlt_Qlt. replace (a + 1)%Z with (Z.succ a) by lia. assumption. }
  assert (HB1 : pow2 b <= inject_Z (Zpos d)).
  { rewrite pow2_Z by assumption. rewrite <- Zle_Qle. assumption. }
  assert (HB2 : inject_Z (Zpos d) < pow2 (b + 1)).
  { rewrite pow2_Z by lia. rewrite <- Zlt_Qlt. replace (b + 1)%Z with (Z.succ b) by lia. assumption. }
  assert (HD : 0 < inject_Z (Zpos d)) by (rewrite <- (Zlt_Qlt 0); reflexivity).
  assert (HX : (n # d) * inject_Z (Zpos d) == inject_Z n).
  { rewrite Qmake_Qdiv. field. intro E. rewrite E in HD. discriminate. }
  pose proof (pow2_pos a) as Pa. pose proof (pow2_pos b) as Pb.
  pose proof (pow2_pos (a - b)) as Pab.
  assert (Hab : pow2 (a - b) * pow2 b == pow2 a).
  { rewrite <- pow2_add. replace (a - b + b)%Z with a by lia. reflexivity. }
  destruct (Qle_bool (pow2 (a - b)) (n # d)) eqn:E.
  - apply Qle_bool_iff in E. split; [assumption|].
    rewrite pow2_succ. rewrite pow2_succ in HA2.
    apply (Qmult_lt_r _ _ (inject_Z (Zpos d)) HD). rewrite HX.
    nra.
  - assert (E' : (n # d) < pow2 (a - b)).
    { apply Qnot_le_lt. intro C. apply Qle_bool_iff in C. congruence. }
    split; [|replace (a - b - 1 + 1)%Z with (a - b)%Z by lia; assumption].
    assert (Hs : pow2 (a - b) == 2 * pow2 (a - b - 1)).
    { rewrite <- pow2_succ. replace (a - b - 1 + 1)%Z with (a - b)%Z by lia. reflexivity. }
    rewrite pow2_succ in HB2.
    apply (Qmult_lt_0_le_reg_r _ _ (inject_Z (Zpos d)) HD). rewrite HX.
    pose proof (pow2_pos (a - b - 1)).
    nra.
Qed.

Lemma ilog2_unique (x : Q) (e : Z) :
  pow2 e <= x -> x < pow2 (e + 1) -> ilog2 x = e.
Proof.
  intros Hlo Hhi.
  assert (Hx : 0 < x) by (pose proof (pow2_pos e); lra).
  destruct (ilog2_spec x Hx) as [Slo Shi].
  assert (ilog2 x < e + 1)%Z by (apply pow2_lt_inv; lra).
  assert (e < ilog2 x + 1)%Z by (apply pow2_lt_inv; lra).
  lia.
Qed.

Lemma ilog2_comp (x y : Q) : 0 < x -> x == y -> ilog2 x = ilog2 y.
Proof.
  intros Hx E. symmetry. destruct (ilog2_spec x Hx).
  apply ilog2_unique; rewrite <- E; assumption.
Qed.

Lemma ilog2_mono (x y : Q) : 0 < x -> x <= y -> (ilog2 x <= ilog2 y)%Z.
Proof.
  intros Hx Hxy.
  destruct (ilog2_spec x Hx). destruct (ilog2_spec y ltac:(lra)).
  assert (ilog2 x < ilog2 y + 1)%Z by (apply pow2_lt_inv; lra).
  lia.
Qed.

Lemma ilog2_le (x : Q) (j : Z) : 0 < x -> x < pow2 j -> (ilog2 x < j)%Z.
Proof.
  intros Hx Hj. destruct (ilog2_spec x Hx). apply pow2_lt_inv. lra.
Qed.

Lemma ilog2_ge (x : Q) (j : Z) : pow2 j <= x -> (j <= ilog2 x)%Z.
Proof.
  intros Hj. pose proof (pow2_pos j).
  destruct (ilog2_spec x ltac:(lra)).
  assert (j < ilog2 x + 1)%Z by (apply pow2_lt_inv; lra). lia.
Qed.

Lemma Qabs_le_intro (x r : Q) : - r <= x <= r -> Qabs x <= r.
Proof. apply Qabs_Qle_condition. Qed.

Lemma Qabs_le_elim (x r : Q) : Qabs x <= r -> - r <= x <= r.
Proof. apply Qabs_Qle_condition. Qed.

Lemma Qabs_lt_intro (x r : Q) : - r < x < r -> Qabs x < r.
Proof. apply Qabs_Qlt_condition. Qed.

Lemma Qabs_lt_elim (x r : Q) : Qabs x < r -> - r < x < r.
Proof. apply Qabs_Qlt_condition. Qed.

Section Rounding.
Variable fmt : format.
Hypothesis prec_pos : (1 <= prec fmt)%Z.

Lemma Qabs_pos_lt (x : Q) : ~ x == 0 -> 0 < Qabs x.
Proof.
  intros Hx. pose proof (Qabs_nonneg x) as Hn.
  destruct (Qlt_le_dec 0 (Qabs x)) as [|Hle]; [assumption|].
  exfalso. apply Hx.
  apply Qabs_le_elim in Hle. lra.
Qed.

Lemma Qabs_zero_iff (x : Q) : Qabs x <= 0 -> x == 0.
Proof. intros Hle. apply Qabs_le_elim in Hle. lra. Qed.

Lemma ulp_exp_comp (x y : Q) : ~ x == 0 -> x == y -> ulp_exp fmt x = ulp_exp fmt y.
Proof.
  intros Hx E. unfold ulp_exp.
  rewrite (ilog2_comp (Qabs x) (Qabs y)); [reflexivity| |rewrite E; reflexivity].
  destruct (Qlt_le_dec 0 (Qabs x)) as [|Hle]; [assumption|].
  exfalso. apply Hx. apply Qabs_zero_iff. assumption.
Qed.

Lemma rnd_zero (x : Q) : x == 0 -> rnd fmt x = 0.
Proof.
  intros E. unfold rnd. apply Qeq_bool_iff in E. rewrite E. reflexivity.
Qed.

Lemma rnd_nonzero (x : Q) :
  ~ x == 0 ->
  rnd fmt x == inject_Z (rne (x / pow2 (ulp_exp fmt x))) * pow2 (ulp_exp fmt x).
Proof.
  intros Hx. unfold rnd.
  destruct (Qeq_bool x 0) eqn:E.
  - apply Qeq_bool_iff in E. contradiction.
  - cbv zeta. apply Qred_correct.
Qed.

Lemma rnd_comp (x y : Q) : x == y -> rnd fmt x = rnd fmt y.
Proof.
  intros E. unfold rnd.
  destruct (Qeq_bool x 0) eqn:Ex; destruct (Qeq_bool y 0) eqn:Ey.
  - reflexivity.
  - apply Qeq_bool_iff in Ex. apply Qeq_bool_neq in Ey. exfalso. apply Ey. exact (Qeq_trans _ _ _ (Qeq_sym _ _ E) Ex).
  - apply Qeq_bool_iff in Ey. apply Qeq_bool_neq in Ex. exfalso. apply Ex. exact (Qeq_trans _ _ _ E Ey).
  - apply Qeq_bool_neq in Ex. cbv zeta.
    rewrite <- (ulp_exp_comp x y Ex E).
    apply Qred_complete.
    rewrite (rne_comp (x / pow2 (ulp_exp fmt x)) (y / pow2 (ulp_exp fmt x)));
      [reflexivity|].
    unfold Qdiv. apply Qmult_comp; [exact E|reflexivity].
Qed.

Lemma rnd_error (x : Q) :
  Qabs (rnd fmt x - x) <= pow2 (ulp_exp fmt x) * (1 # 2).
Proof.
  pose proof (pow2_pos (ulp_exp fmt x)) as Hs.
  destruct (Qeq_dec x 0) as [E | Hx].
  - rewrite (rnd_zero x E). apply Qabs_le_intro. lra.
  - rewrite (rnd_nonzero x Hx).
    set (s := pow2 (ulp_exp fmt x)) in *.
    pose proof (rne_bounds (x / s)) as Hr.
    set (m := inject_Z (rne (x / s))) in *.
    assert (Hxs : x == (x / s) * s) by (field; lra).
    set (t := x / s) in *.
    apply Qabs_le_intro. nra.
Qed.

Lemma ulp_exp_normal (x : Q) :
  0 < x -> (emin fmt <= ilog2 x - prec fmt + 1)%Z ->
  ulp_exp fmt x = (ilog2 x - prec fmt + 1)%Z.
Proof.
  intros Hx Hn. unfold ulp_exp.
  rewrite (ilog2_comp (Qabs x) x); [lia| |apply Qabs_pos; lra].
  rewrite Qabs_pos; lra.
Qed.

Lemma rnd_rel_error (x : Q) :
  0 < x -> (emin fmt <= ilog2 x - prec fmt + 1)%Z ->
  Qabs (rnd fmt x - x) <= x * pow2 (- prec fmt).
Proof.
  intros Hx Hn. pose proof (rnd_error x) as He.
  rewrite (ulp_exp_normal x Hx Hn) in He.
  destruct (ilog2_spec x Hx) as [Hlo _].
  assert (E : pow2 (ilog2 x - prec fmt + 1) == 2 * (pow2 (ilog2 x) * pow2 (- prec fmt))).
  { rewrite pow2_succ. rewrite <- pow2_add. reflexivity. }
  rewrite E in He.
  pose proof (pow2_pos (- prec fmt)).
  eapply Qle_trans; [exact He|]. nra.
Qed.

(** A multiple of the unit in the last place is kept. *)
Lemma rnd_exact (x : Q) (m : Z) :
  x == inject_Z m * pow2 (ulp_exp fmt x) -> rnd fmt x == x.
Proof.
  intros E. destruct (Qeq_dec x 0) as [E0 | Hx].
  - rewrite (rnd_zero x E0). symmetry. assumption.
  - rewrite (rnd_nonzero x Hx).
    pose proof (pow2_pos (ulp_exp fmt x)) as Hs.
    rewrite (rne_comp _ (inject_Z m)).
    + rewrite rne_inject_Z. symmetry. assumption.
    + generalize dependent (pow2 (ulp_exp fmt x)). intros s E Hs.
      rewrite E. field. lra.
Qed.

Lemma rnd_exact_scaled (x : Q) (m j : Z) :
  (ulp_exp fmt x <= j)%Z -> x == inject_Z m * pow2 j -> rnd fmt x == x.
Proof.
  intros Hj E. apply (rnd_exact x (m * 2 ^ (j - ulp_exp fmt x))).
  eapply Qeq_trans; [exact E|].
  generalize (ulp_exp fmt x) Hj. intros k Hk.
  rewrite inject_Z_mult. rewrite <- pow2_Z by lia.
  rewrite <- Qmult_assoc. rewrite <- pow2_add.
  replace (j - k + k)%Z with j by lia. reflexivity.
Qed.

Lemma ulp_exp_pow2 (j : Z) : (emin fmt <= j)%Z -> (ulp_exp fmt (pow2 j) <= j)%Z.
Proof.
  intros Hj. unfold ulp_exp. pose proof (pow2_pos j).
  rewrite (ilog2_comp (Qabs (pow2 j)) (pow2 j)); [| rewrite Qabs_pos; lra | apply Qabs_pos; lra].
  rewrite (ilog2_unique (pow2 j) j); [lia|lra|apply pow2_lt; lia].
Qed.

Lemma rnd_pow2 (j : Z) : (emin fmt <= j)%Z -> rnd fmt (pow2 j) == pow2 j.
Proof.
  intros Hj. apply (rnd_exact_scaled _ 1 j); [apply ulp_exp_pow2; assumption|].
  change (inject_Z 1) with 1. ring.
Qed.

Lemma ulp_exp_pos (x : Q) : 0 < x -> ulp_exp fmt x = Z.max (ilog2 x - prec fmt + 1) (emin fmt).
Proof.
  intros Hx. unfold ulp_exp.
  rewrite (ilog2_comp (Qabs x) x); [reflexivity| rewrite Qabs_pos; lra | apply Qabs_pos; lra].
Qed.

Lemma rnd_pos_form (x : Q) :
  0 < x ->
  rnd fmt x == inject_Z (rne (x / pow2 (ulp_exp fmt x))) * pow2 (ulp_exp fmt x).
Proof. intros Hx. apply rnd_nonzero. lra. Qed.

(** On positive numbers rounding is monotone. *)
Lemma rnd_mono_pos (x y : Q) : 0 < x -> x <= y -> rnd fmt x <= rnd fmt y.
Proof.
  intros Hx Hxy. assert (Hy : 0 < y) by lra.
  rewrite (rnd_pos_form x Hx), (rnd_pos_form y Hy).
  pose proof (ilog2_mono x y Hx Hxy) as He.
  rewrite (ulp_exp_pos x Hx), (ulp_exp_pos y Hy).
  set (kx := Z.max (ilog2 x - prec fmt + 1) (emin fmt)).
  set (ky := Z.max (ilog2 y - prec fmt + 1) (emin fmt)).
  assert (Hk : (kx <= ky)%Z) by (unfold kx, ky; lia).
  pose proof (pow2_pos kx) as Hsx. pose proof (pow2_pos ky) as Hsy.
  destruct (Z.eq_dec kx ky) as [Ek | Nk].
  - rewrite <- Ek.
    assert (Hm : (rne (x / pow2 kx) <= rne (y / pow2 kx))%Z).
    { apply rne_mono. apply Qmult_le_compat_r; [assumption|].
      apply Qlt_le_weak. apply Qinv_lt_0_compat. assumption. }
    apply Qmult_le_compat_r; [|lra]. rewrite <- Zle_Qle. assumption.
  - (* x lies below the binade of y *)
    assert (Hlt : (kx < ky)%Z) by lia.
    assert (Hey : ky = (ilog2 y - prec fmt + 1)%Z) by (unfold kx, ky in *; lia).
    assert (Hexy : (ilog2 x < ilog2 y)%Z) by (unfold kx, ky in *; lia).
    set (e := ilog2 y) in *.
    destruct (ilog2_spec x Hx) as [_ Hxhi]. destruct (ilog2_spec y Hy) as [Hylo _].
    fold e in Hylo.
    assert (Hxe : x <= pow2 e).
    { apply Qlt_le_weak. eapply Qlt_le_trans; [exact Hxhi|]. apply pow2_le. lia. }
    (* both roundings are separated by 2^e *)
    apply Qle_trans with (pow2 e).
    + assert (E : pow2 e == inject_Z (2 ^ (e - kx)) * pow2 kx).
      { rewrite <- pow2_Z by lia. rewrite <- pow2_add.
        replace (e - kx + kx)%Z with e by lia. reflexivity. }
      rewrite E. apply Qmult_le_compat_r; [|lra]. rewrite <- Zle_Qle.
      rewrite <- (rne_inject_Z (2 ^ (e - kx))). apply rne_mono.
      apply Qle_shift_div_r; [assumption|]. rewrite <- E. assumption.
    + assert (E : pow2 e == inject_Z (2 ^ (e - ky)) * pow2 ky).
      { rewrite <- pow2_Z by lia. rewrite <- pow2_add.
        replace (e - ky + ky)%Z with e by lia. reflexivity. }
      rewrite E at 1. apply Qmult_le_compat_r; [|lra]. rewrite <- Zle_Qle.
      rewrite <- (rne_inject_Z (2 ^ (e - ky))). apply rne_mono.
      apply Qle_shift_div_l; [assumption|]. rewrite <- E. assumption.
Qed.

Lemma round_q_finite (x : Q) :
  Qabs (rnd fmt x) < pow2 (emax fmt) -> round_q fmt x = Fin (rnd fmt x).
Proof.
  intros Hlt. unfold round_q. cbv zeta.
  destruct (Qle_bool (pow2 (emax fmt)) (Qabs (rnd fmt x))) eqn:E; [|reflexivity].
  apply Qle_bool_iff in E. lra.
Qed.

End Rounding.

Section Bounds.
Variable fmt : format.
Hypothesis prec_pos : (1 <= prec fmt)%Z.

Lemma ulp_exp_le (x : Q) (j : Z) :
  ~ x == 0 -> (emin fmt <= j)%Z -> Qabs x <= pow2 j -> (ulp_exp fmt x <= j)%Z.
Proof.
  intros Hx Hj Hb. unfold ulp_exp.
  pose proof (Qabs_pos_lt x Hx) as Hp.
  destruct (ilog2_spec (Qabs x) Hp) as [Hlo _].
  assert (ilog2 (Qabs x) < j + 1)%Z by (apply pow2_lt_inv; pose proof (pow2_lt j (j + 1) ltac:(lia)); lra).
  lia.
Qed.

(** Rounding does not leave an interval bounded by a power of two. *)
Lemma rnd_abs_le (x : Q) (j : Z) :
  (emin fmt <= j)%Z -> Qabs x <= pow2 j -> Qabs (rnd fmt x) <= pow2 j.
Proof.
  intros Hj Hb. pose proof (pow2_pos j) as Pj.
  destruct (Qeq_dec x 0) as [E | Hx].
  - rewrite (rnd_zero fmt x E). apply Qabs_le_intro. lra.
  - pose proof (ulp_exp_le x j Hx Hj Hb) as Hk.
    rewrite (rnd_nonzero fmt x Hx).
    generalize dependent (ulp_exp fmt x). intros k Hk.
    pose proof (pow2_pos k) as Pk.
    assert (E : pow2 j == inject_Z (2 ^ (j - k)) * pow2 k).
    { rewrite <- pow2_Z by lia. rewrite <- pow2_add.
      replace (j - k + k)%Z with j by lia. reflexivity. }
    apply Qabs_le_elim in Hb.
    assert (Hup : (rne (x / pow2 k) <= 2 ^ (j - k))%Z).
    { rewrite <- (rne_inject_Z (2 ^ (j - k))). apply rne_mono.
      apply Qle_shift_div_r; [assumption|]. rewrite <- E. lra. }
    assert (Hdn : (- 2 ^ (j - k) <= rne (x / pow2 k))%Z).
    { rewrite <- (rne_inject_Z (- 2 ^ (j - k))). apply rne_mono.
      apply Qle_shift_div_l; [assumption|]. rewrite inject_Z_opp.
      setoid_replace (- inject_Z (2 ^ (j - k)) * pow2 k) with (- pow2 j) by (rewrite E; ring).
      lra. }
    rewrite Zle_Qle in Hup, Hdn. rewrite inject_Z_opp in Hdn.
    generalize dependent (inject_Z (rne (x / pow2 k))). intros m Hup Hdn.
    generalize dependent (inject_Z (2 ^ (j - k))). intros c E Hup Hdn.
    apply Qabs_le_intro. rewrite E. nra.
Qed.

Lemma round_q_bounded (x : Q) (j : Z) :
  (emin fmt <= j < emax fmt)%Z -> Qabs x <= pow2 j ->
  round_q fmt x = Fin (rnd fmt x) /\ Qabs (rnd fmt x) <= pow2 j.
Proof.
  intros Hj Hb. pose proof (rnd_abs_le x j ltac:(lia) Hb) as Hr.
  split; [|assumption]. apply round_q_finite.
  pose proof (pow2_lt j (emax fmt) ltac:(lia)). lra.
Qed.

End Bounds.

(** ** Python floats *)

Ltac b64 := unfold emin; cbn [prec emax binary64]; lia.

Lemma Qred_inject_Z (n : Z) : Qred (inject_Z n) = inject_Z n.
Proof.
  apply Qred_identity. simpl. apply Z.gcd_1_r.
Qed.

Lemma inject_Z_abs_le (n : Z) (j : Z) :
  (0 <= j)%Z -> (Z.abs n <= 2 ^ j)%Z -> Qabs (inject_Z n) <= pow2 j.
Proof.
  intros Hj Hn. rewrite pow2_Z by assumption.
  apply Qabs_le_intro. rewrite <- inject_Z_opp. rewrite <- !Zle_Qle. lia.
Qed.

Lemma rnd_int (n : Z) :
  (Z.abs n < 2 ^ 53)%Z -> rnd binary64 (inject_Z n) = inject_Z n.
Proof.
  intros Hn.
  assert (E : rnd binary64 (inject_Z n) == inject_Z n).
  { destruct (Qeq_dec (inject_Z n) 0) as [E0 | Hx].
    - rewrite (rnd_zero _ _ E0). symmetry. assumption.
    - apply (rnd_exact_scaled binary64 _ n 0); [|change (pow2 0) with 1; ring].
      unfold ulp_exp. change (emin binary64) with (-1074)%Z.
      change (prec binary64) with 53%Z.
      pose proof (Qabs_pos_lt _ Hx) as Hp.
      assert (ilog2 (Qabs (inject_Z n)) < 53)%Z; [|lia].
      apply ilog2_le; [assumption|].
      rewrite pow2_Z by lia.
      apply Qabs_lt_intro. rewrite <- inject_Z_opp. rewrite <- !Zlt_Qlt. lia. }
  destruct (Qeq_dec (inject_Z n) 0) as [E0 | Hx].
  - rewrite (rnd_zero _ _ E0).
    assert (n = 0)%Z by (unfold Qeq in E0; simpl in E0; lia). subst. reflexivity.
  - transitivity (Qred (inject_Z n)); [|apply Qred_inject_Z]. unfold rnd.
    destruct (Qeq_bool (inject_Z n) 0) eqn:B.
    + apply Qeq_bool_iff in B. contradiction.
    + cbv zeta. apply Qred_complete.
      pose proof (rnd_nonzero binary64 _ Hx) as F. rewrite <- F. exact E.
Qed.

Lemma float_of_int_small (n : Z) :
  (Z.abs n < 2 ^ 53)%Z -> float_of_int n = Ok (Fin (inject_Z n)).
Proof.
  intros Hn. unfold float_of_int.
  destruct (round_q_bounded binary64 ltac:(b64) (inject_Z n) 53) as [E _].
  - b64.
  - apply inject_Z_abs_le; lia.
  - rewrite E. rewrite (rnd_int n Hn). reflexivity.
Qed.

Lemma Qabs_div_int (a b : Z) :
  (b <> 0)%Z -> Qabs (inject_Z a / inject_Z b) <= Qabs (inject_Z a).
Proof.
  intros Hb. unfold Qdiv. rewrite Qabs_Qmult, Qabs_Qinv.
  assert (H1 : 1 <= Qabs (inject_Z b)).
  { apply Qabs_case; intros; [|rewrite <- inject_Z_opp];
      change 1 with (inject_Z 1); rewrite <- Zle_Qle;
      [rewrite <- (Zle_Qle 0) in *|change 0 with (inject_Z 0) in *; rewrite <- Zle_Qle in *]; lia. }
  pose proof (Qabs_nonneg (inject_Z a)) as H0.
  set (A := Qabs (inject_Z a)) in *. set (B := Qabs (inject_Z b)) in *.
  assert (HB : 0 < B) by lra.
  assert (HI : 0 < / B) by (apply Qinv_lt_0_compat; assumption).
  assert (E : B * / B == 1) by (apply Qmult_inv_r; lra).
  set (I := / B) in *. nra.
Qed.

Lemma truediv_bounded (a b : Z) (j : Z) :
  (b <> 0)%Z -> (0 <= j < 1024)%Z -> (Z.abs a <= 2 ^ j)%Z ->
  truediv a b = Ok (Fin (rnd binary64 (inject_Z a / inject_Z b))) /\
  Qabs (rnd binary64 (inject_Z a / inject_Z b)) <= pow2 j.
Proof.
  intros Hb Hj Ha. unfold truediv.
  destruct (Z.eqb_spec b 0) as [|_]; [contradiction|].
  destruct (round_q_bounded binary64 ltac:(b64) (inject_Z a / inject_Z b) j) as [E B].
  - b64.
  - eapply Qle_trans; [apply Qabs_div_int; assumption|]. apply inject_Z_abs_le; lia.
  - rewrite E. split; [reflexivity|assumption].
Qed.

Lemma mul_int_float_bounded (n : Z) (s : Q) (i j : Z) :
  (Z.abs n < 2 ^ 53)%Z -> (0 <= i)%Z -> (Z.abs n <= 2 ^ i)%Z ->
  (0 <= j)%Z -> (i + j < 1024)%Z -> Qabs s <= pow2 j ->
  mul_int_float n (Fin s) = Ok (Fin (rnd binary64 (inject_Z n * s))) /\
  Qabs (rnd binary64 (inject_Z n * s)) <= pow2 (i + j).
Proof.
  intros Hn Hi Hni Hj Hij Hs. unfold mul_int_float.
  rewrite (float_of_int_small n Hn). cbn [bind fmul].
  destruct (round_q_bounded binary64 ltac:(b64) (inject_Z n * s) (i + j)) as [E B].
  - b64.
  - rewrite Qabs_Qmult, pow2_add.
    apply Qmult_le_compat_nonneg; (split; [apply Qabs_nonneg|]); [|assumption].
    apply inject_Z_abs_le; assumption.
  - rewrite E. split; [reflexivity|assumption].
Qed.

Lemma pow2_m53 : pow2 (-53) == u64.
Proof. reflexivity. Qed.

(** Relative error of a binary64 rounding away from the subnormal range. *)
Lemma rnd64_rel (x : Q) :
  pow2 (-1000) <= x -> - (x * u64) <= rnd binary64 x - x <= x * u64.
Proof.
  intros Hx. pose proof (pow2_pos (-1000)) as Hp.
  apply Qabs_le_elim. rewrite <- pow2_m53.
  apply (rnd_rel_error binary64); [lra|].
  pose proof (ilog2_ge x (-1000) Hx). b64.
Qed.

Lemma pow2_m1000_small : pow2 (-1000) <= 1 # 8589934592.
Proof.
  apply Qle_trans with (pow2 (-33)); [apply pow2_le; lia|].
  apply Qle_lteq. right. reflexivity.
Qed.

Lemma inject_Z_div_mul (t s : Z) :
  (0 < s)%Z -> inject_Z s * (inject_Z t / inject_Z s) == inject_Z t.
Proof.
  intros Hs. field. intro E. unfold Qeq in E. simpl in E. lia.
Qed.

Section ScaleBack.
Variables s t : Z.
Hypothesis s_range : (1 <= s < 2 ^ 31)%Z.
Hypothesis t_range : (1 <= t < 2 ^ 31)%Z.

Let S := inject_Z s.
Let T := inject_Z t.
Let x := T / S.

Lemma ratio_facts :
  1 <= S /\ S <= 2147483648 /\ 1 <= T /\ T <= 2147483648 /\ S * x == T /\ 0 < x.
Proof.
  assert (HS1 : 1 <= S) by (unfold S; change 1 with (inject_Z 1); rewrite <- Zle_Qle; lia).
  assert (HS2 : S <= 2147483648)
    by (unfold S; change 2147483648 with (inject_Z (2 ^ 31)); rewrite <- Zle_Qle; lia).
  assert (HT1 : 1 <= T) by (unfold T; change 1 with (inject_Z 1); rewrite <- Zle_Qle; lia).
  assert (HT2 : T <= 2147483648)
    by (unfold T; change 2147483648 with (inject_Z (2 ^ 31)); rewrite <- Zle_Qle; lia).
  assert (HX : S * x == T) by (apply inject_Z_div_mul; lia).
  repeat split; try assumption.
  unfold x. apply Qlt_shift_div_l; lra.
Qed.

Lemma ratio_lower : (1 # 4294967296) <= x.
Proof.
  destruct ratio_facts as (HS1 & HS2 & HT1 & HT2 & HX & Hx0).
  generalize dependent x. intros x0 HX Hx0. nra.
Qed.

(** The quotient [t / s] as a float. *)
Lemma quotient_error :
  - (x * u64) <= rnd binary64 x - x <= x * u64.
Proof.
  apply rnd64_rel. pose proof ratio_lower. pose proof pow2_m1000_small. lra.
Qed.

(** Scaling the source size by the quotient gives back the target size. *)
Lemma scale_back : rne (rnd binary64 (S * rnd binary64 x)) = t.
Proof.
  destruct ratio_facts as (HS1 & HS2 & HT1 & HT2 & HX & Hx0).
  pose proof quotient_error as Hq. pose proof ratio_lower as Hlo.
  set (q := rnd binary64 x) in *.
  assert (Hy : - (T * u64) <= S * q - T <= T * u64).
  { unfold u64 in *. generalize dependent x. intros x0 q HX Hx0 Hq Hlo. nra. }
  assert (Hy0 : (1 # 2) <= S * q) by (unfold u64 in *; lra).
  pose proof (rnd64_rel (S * q)) as Hr.
  assert (Hsmall : pow2 (-1000) <= S * q) by (pose proof pow2_m1000_small; lra).
  specialize (Hr Hsmall).
  apply rne_near. fold T. apply Qabs_lt_intro.
  set (y := S * q) in *. unfold u64 in *. lra.
Qed.

End ScaleBack.

Lemma size_Q (n : Z) : size_ok n -> 1 <= inject_Z n <= 2147483648.
Proof.
  intros [H1 H2]. split.
  - change 1 with (inject_Z 1). rewrite <- Zle_Qle. lia.
  - change 2147483648 with (inject_Z (2 ^ 31)). rewrite <- Zle_Qle. lia.
Qed.

Lemma quot_bounds (t s : Z) :
  size_ok s -> size_ok t ->
  let x := inject_Z t / inject_Z s in
  - (x * u64) <= quot t s - x <= x * u64 /\ inject_Z s * x == inject_Z t /\
  (1 # 4294967296) <= x.
Proof.
  intros Hs Ht x. pose proof (ratio_facts s t Hs Ht) as (_ & _ & _ & _ & HX & _).
  split; [exact (quotient_error s t Hs Ht)|]. split; [exact HX|].
  exact (ratio_lower s t Hs Ht).
Qed.

Lemma quot_pos (t s : Z) : size_ok s -> size_ok t -> 0 < quot t s.
Proof.
  intros Hs Ht. destruct (quot_bounds t s Hs Ht) as (Hq & _ & Hlo).
  cbv zeta in *. unfold u64 in *. lra.
Qed.

Lemma quot_le (t s : Z) : size_ok s -> size_ok t -> quot t s <= pow2 31.
Proof.
  intros Hs Ht. unfold quot.
  eapply Qle_trans; [apply Qle_Qabs|].
  apply (rnd_abs_le binary64 ltac:(b64)); [b64|].
  eapply Qle_trans; [apply Qabs_div_int; destruct Hs; lia|].
  apply inject_Z_abs_le; [lia|]. destruct Ht. lia.
Qed.

Lemma truediv_sizes (t s : Z) :
  size_ok s -> size_ok t -> truediv t s = Ok (Fin (quot t s)).
Proof.
  intros Hs Ht.
  destruct (truediv_bounded t s 31) as [E _]; [destruct Hs; lia|lia|destruct Ht; lia|].
  exact E.
Qed.

Lemma round_scaled (n : Z) (q : Q) :
  size_ok n -> 0 < q -> q <= pow2 31 ->
  bind (mul_int_float n (Fin q)) Py.round = Ok (scaled n q).
Proof.
  intros Hn Hq0 Hq.
  destruct (mul_int_float_bounded n q 31 31) as [E _];
    try lia; try (destruct Hn; lia).
  - apply Qabs_le_intro. pose proof (pow2_pos 31). lra.
  - rewrite E. reflexivity.
Qed.

Lemma scaled_quot (t s : Z) : size_ok s -> size_ok t -> scaled s (quot t s) = t.
Proof. intros Hs Ht. exact (scale_back s t Hs Ht). Qed.

Lemma scaled_mono (n : Z) (a b : Q) :
  size_ok n -> 0 < a -> a <= b -> (scaled n a <= scaled n b)%Z.
Proof.
  intros Hn Ha Hab. unfold scaled. apply rne_mono.
  pose proof (size_Q n Hn) as [HN _].
  apply (rnd_mono_pos binary64 ltac:(b64)); nra.
Qed.

Lemma within_unit (d c : Q) : 0 < c -> - 1 < d < 1 -> - c < d * c < c.
Proof. intros Hc [Hlo Hhi]. split; nra. Qed.

(** A side scaled by the quotient of the other axis stays within a pixel
    of the exact proportional size, as long as it does not outgrow its own
    target. *)
Lemma scaled_near (n t' s t : Z) :
  size_ok n -> size_ok t' -> size_ok s -> size_ok t ->
  quot t s <= quot t' n ->
  (Z.abs (Z.max 1 (scaled n (quot t s)) * s - n * t) < s)%Z.
Proof.
  intros Hn Ht' Hs Ht Hle.
  destruct (quot_bounds t s Hs Ht) as (Hq & HX & Hlo).
  destruct (quot_bounds t' n Hn Ht') as (Hq' & HX' & _).
  cbv zeta in *.
  pose proof (size_Q n Hn) as [HN1 HN2]. pose proof (size_Q s Hs) as [HS1 HS2].
  pose proof (size_Q t Ht) as [HT1 HT2]. pose proof (size_Q t' Ht') as [HT'1 HT'2].
  set (N := inject_Z n) in *. set (S := inject_Z s) in *.
  set (T := inject_Z t) in *. set (T' := inject_Z t') in *.
  set (x := T / S) in *. set (x' := T' / N) in *.
  set (q := quot t s) in *. set (q' := quot t' n) in *.
  assert (Hx0 : 0 < x) by lra.
  (* the exact proportional size *)
  set (E := N * x).
  assert (HE : E * S == N * T) by (unfold E; nra).
  assert (HE0 : 0 < E) by (unfold E; nra).
  assert (Hy : - (E * u64) <= N * q - E <= E * u64) by (unfold E, u64 in *; nra).
  assert (Hyup : N * q <= 2147483648 * (1 + u64)).
  { assert (N * q <= N * q') by nra.
    assert (N * q' <= T' * (1 + u64)) by (unfold u64 in *; nra).
    unfold u64 in *. nra. }
  assert (HElo : (1 # 4294967296) <= E) by (unfold E; nra).
  assert (HEup : E <= 4294967296 * (1 + u64)) by (unfold u64 in *; lra).
  assert (Hylo : (1 # 8589934592) <= N * q) by (unfold u64 in *; lra).
  pose proof (rnd64_rel (N * q)) as Hr.
  assert (Hsmall : pow2 (-1000) <= N * q) by (pose proof pow2_m1000_small; lra).
  specialize (Hr Hsmall).
  assert (Hb : rnd binary64 (N * q) - (1 # 2) <= inject_Z (scaled n q)
               <= rnd binary64 (N * q) + (1 # 2)) by apply rne_bounds.
  set (h' := scaled n q) in *.
  set (r := rnd binary64 (N * q)) in *. set (y := N * q) in *.
  assert (Hh' : - (3 # 4) < inject_Z h' - E < 3 # 4) by (unfold u64 in *; lra).
  assert (Hh : - 1 < inject_Z (Z.max 1 h') - E < 1).
  { destruct (Z.max_spec 1 h') as [[Hc Em] | [Hc Em]]; rewrite Em.
    - lra.
    - assert (inject_Z h' <= 1) by (change 1 with (inject_Z 1); rewrite <- Zle_Qle; lia).
      change (inject_Z 1) with 1.
      assert (inject_Z h' <= 0 \/ inject_Z h' == 1) as [C | C].
      { assert (h' <= 0 \/ h' = 1)%Z as [C | C] by lia.
        - left. change 0 with (inject_Z 0). rewrite <- Zle_Qle. assumption.
        - right. rewrite C. reflexivity. }
      + lra.
      + lra. }
  set (h := Z.max 1 h') in *.
  assert (Hfin : - S < inject_Z h * S - N * T < S).
  { assert (Hd : inject_Z h * S - N * T == (inject_Z h - E) * S)
      by (rewrite <- HE; ring).
    rewrite Hd. apply within_unit; [lra|exact Hh]. }
  assert (Ez : inject_Z (h * s - n * t) == inject_Z h * S - N * T).
  { unfold Z.sub, S, N, T. rewrite inject_Z_plus, inject_Z_opp, !inject_Z_mult.
    reflexivity. }
  rewrite <- Ez in Hfin. unfold S in Hfin. rewrite <- inject_Z_opp in Hfin.
  rewrite <- !Zlt_Qlt in Hfin. lia.
Qed.

Section ResizeDims.
Context `{Extern}.

Lemma resize_dims_scaled (sw sh tw th : Z) (mode : string) :
  size_ok sw -> size_ok sh -> size_ok tw -> size_ok th ->
  String.eqb mode "stretch" = false ->
  resize_dims sw sh tw th mode =
  Ok (Z.max 1 (scaled sw (fit_scale mode (quot tw sw) (quot th sh))),
      Z.max 1 (scaled sh (fit_scale mode (quot tw sw) (quot th sh)))).
Proof.
  intros Hsw Hsh Htw Hth Hm. unfold resize_dims. rewrite Hm.
  rewrite (truediv_sizes tw sw Hsw Htw), (truediv_sizes th sh Hsh Hth).
  cbn [bind].
  pose proof (quot_pos tw sw Hsw Htw) as Pa. pose proof (quot_pos th sh Hsh Hth) as Pb.
  pose proof (quot_le tw sw Hsw Htw) as La. pose proof (quot_le th sh Hsh Hth) as Lb.
  set (a := quot tw sw) in *. set (b := quot th sh) in *.
  assert (E : (if String.eqb mode "cover" then Py.max (Fin a) (Fin b)
               else Py.min (Fin a) (Fin b)) = Fin (fit_scale mode a b)).
  { unfold fit_scale, Py.max, Py.min, flt.
    destruct (String.eqb mode "cover").
    - destruct (Qle_bool b a); reflexivity.
    - destruct (Qle_bool a b); reflexivity. }
  rewrite E.
  assert (Ps : 0 < fit_scale mode a b /\ fit_scale mode a b <= pow2 31).
  { unfold fit_scale. destruct (String.eqb mode "cover");
      [destruct (Qle_bool b a)|destruct (Qle_bool a b)]; split; assumption. }
  destruct Ps as [Ps Ls].
  change (v <- mul_int_float sw (Fin (fit_scale mode a b)) ;; Py.round v)
    with (bind (mul_int_float sw (Fin (fit_scale mode a b))) Py.round).
  rewrite (round_scaled sw _ Hsw Ps Ls). cbn [bind].
  change (v <- mul_int_float sh (Fin (fit_scale mode a b)) ;; Py.round v)
    with (bind (mul_int_float sh (Fin (fit_scale mode a b))) Py.round).
  rewrite (round_scaled sh _ Hsh Ps Ls). reflexivity.
Qed.

Lemma Qle_bool_false (a b : Q) : Qle_bool a b = false -> b <= a.
Proof.
  intros E. apply Qlt_le_weak. apply Qnot_le_lt. intro C.
  apply Qle_bool_iff in C. congruence.
Qed.

Lemma contain_dims (sw sh tw th : Z) :
  size_ok sw -> size_ok sh -> size_ok tw -> size_ok th ->
  let s := fit_scale "contain" (quot tw sw) (quot th sh) in
  let w := Z.max 1 (scaled sw s) in
  let h := Z.max 1 (scaled sh s) in
  (1 <= w <= tw /\ 1 <= h <= th /\ (w = tw \/ h = th) /\
   Z.abs (w * sh - h * sw) < Z.max sw sh)%Z.
Proof.
  intros Hsw Hsh Htw Hth. cbv zeta. unfold fit_scale. cbn [String.eqb Ascii.eqb Bool.eqb].
  pose proof (quot_pos tw sw Hsw Htw) as Pa. pose proof (quot_pos th sh Hsh Hth) as Pb.
  pose proof (scaled_quot tw sw Hsw Htw) as Ea. pose proof (scaled_quot th sh Hsh Hth) as Eb.
  destruct (Qle_bool (quot tw sw) (quot th sh)) eqn:C.
  - apply Qle_bool_iff in C.
    pose proof (scaled_mono sh _ _ Hsh Pa C) as M. rewrite Eb in M.
    pose proof (scaled_near sh th sw tw Hsh Hth Hsw Htw C) as N.
    rewrite Ea. destruct Hsw, Hsh, Htw, Hth.
    replace (Z.max 1 tw) with tw by lia.
    set (h := Z.max 1 (scaled sh (quot tw sw))) in *.
    replace (tw * sh - h * sw)%Z with (- (h * sw - sh * tw))%Z by ring.
    rewrite Z.abs_opp. lia.
  - apply Qle_bool_false in C.
    pose proof (scaled_mono sw _ _ Hsw Pb C) as M. rewrite Ea in M.
    pose proof (scaled_near sw tw sh th Hsw Htw Hsh Hth C) as N.
    rewrite Eb. destruct Hsw, Hsh, Htw, Hth.
    replace (Z.max 1 th) with th by lia.
    set (w := Z.max 1 (scaled sw (quot th sh))) in *.
    replace (w * sh - th * sw)%Z with (w * sh - sw * th)%Z by ring.
    lia.
Qed.

Lemma cover_dims (sw sh tw th : Z) :
  size_ok sw -> size_ok sh -> size_ok tw -> size_ok th ->
  let s := fit_scale "cover" (quot tw sw) (quot th sh) in
  (tw <= Z.max 1 (scaled sw s) /\ th <= Z.max 1 (scaled sh s))%Z.
Proof.
  intros Hsw Hsh Htw Hth. cbv zeta. unfold fit_scale. cbn [String.eqb Ascii.eqb Bool.eqb].
  pose proof (quot_pos tw sw Hsw Htw) as Pa. pose proof (quot_pos th sh Hsh Hth) as Pb.
  pose proof (scaled_quot tw sw Hsw Htw) as Ea. pose proof (scaled_quot th sh Hsh Hth) as Eb.
  destruct (Qle_bool (quot th sh) (quot tw sw)) eqn:C.
  - apply Qle_bool_iff in C.
    pose proof (scaled_mono sh _ _ Hsh Pb C) as M. rewrite Eb in M.
    rewrite Ea. lia.
  - apply Qle_bool_false in C.
    pose proof (scaled_mono sw _ _ Hsw Pa C) as M. rewrite Ea in M.
    rewrite Eb. lia.
Qed.

End ResizeDims.

Close Scope Q_scope.

(* ================================================================== *)
(** * Bytes and ranges *)
(* ================================================================== *)

(** ** Bytes and finite ranges *)

Lemma b2z_range (b : byte) : 0 <= b2z b < 256.
Proof.
  unfold b2z. pose proof (Byte.to_N_bounded b) as Hb. lia.
Qed.

Lemma z2b_b2z (b : byte) : z2b (b2z b) = b.
Proof.
  unfold z2b. rewrite Z.mod_small by apply b2z_range.
  unfold b2z. rewrite N2Z.id. rewrite Byte.of_to_N. reflexivity.
Qed.

Lemma b2z_z2b (z : Z) : 0 <= z < 256 -> b2z (z2b z) = z.
Proof.
  intros Hz. unfold z2b. rewrite Z.mod_small by assumption.
  destruct (Byte.of_N (Z.to_N z)) as [b|] eqn:E.
  - apply Byte.to_of_N in E. unfold b2z. rewrite E. lia.
  - apply Byte.of_N_None_iff in E. lia.
Qed.

Lemma b2z_inj (a b : byte) : b2z a = b2z b -> a = b.
Proof. intros E. rewrite <- (z2b_b2z a), <- (z2b_b2z b), E. reflexivity. Qed.

Lemma zrange_In (n : nat) : forall start z,
  start <= z < start + Z.of_nat n -> In z (zrange start n).
Proof.
  induction n as [|k IH]; intros start z Hz.
  - simpl in Hz. lia.
  - cbn [zrange]. destruct (Z.eq_dec z start) as [->|Hne].
    + left. reflexivity.
    + right. apply IH. lia.
Qed.

(** A property checked on the whole range holds on each of its members. *)
Lemma forall_zrange (P : Z -> bool) (n : Z) :
  forallb P (zrange 0 (Z.to_nat n)) = true ->
  forall z, 0 <= z < n -> P z = true.
Proof.
  intros Hall z Hz. rewrite forallb_forall in Hall. apply Hall.
  apply zrange_In. lia.
Qed.

Lemma forall_bytes (P : Z -> bool) :
  forallb P (zrange 0 256) = true -> forall b : byte, P (b2z b) = true.
Proof.
  intros Hall b. apply (forall_zrange P 256 Hall). apply b2z_range.
Qed.

(* ================================================================== *)
(** * Float32 arithmetic on unit values *)
(* ================================================================== *)

(** ** Finite floats *)

Section FiniteArith.
Variable fmt : format.
Hypothesis prec_pos : 1 <= prec fmt.

Lemma finite_le_mono (i j : Z) (a : float) :
  i <= j -> finite_le i a -> finite_le j a.
Proof.
  intros Hij (q & E & B). exists q. split; [assumption|].
  eapply Qle_trans; [exact B|]. apply pow2_le. assumption.
Qed.

Lemma round_q_finite_le (x : Q) (j : Z) :
  emin fmt <= j < emax fmt -> (Qabs x <= pow2 j)%Q -> finite_le j (round_q fmt x).
Proof.
  intros Hj Hx. destruct (round_q_bounded fmt prec_pos x j Hj Hx) as [E B].
  exists (rnd fmt x). split; assumption.
Qed.

Lemma fmul_finite (i j : Z) (a b : float) :
  emin fmt <= i + j < emax fmt ->
  finite_le i a -> finite_le j b -> finite_le (i + j) (fmul fmt a b).
Proof.
  intros Hij (x & -> & Bx) (y & -> & By). cbn [fmul].
  apply round_q_finite_le; [assumption|].
  rewrite Qabs_Qmult, pow2_add.
  apply Qmult_le_compat_nonneg; split; try apply Qabs_nonneg; assumption.
Qed.

Lemma fadd_finite (j : Z) (a b : float) :
  emin fmt <= j + 1 < emax fmt ->
  finite_le j a -> finite_le j b -> finite_le (j + 1) (fadd fmt a b).
Proof.
  intros Hj (x & -> & Bx) (y & -> & By). cbn [fadd].
  apply round_q_finite_le; [assumption|].
  eapply Qle_trans; [apply Qabs_triangle|]. rewrite pow2_succ.
  generalize dependent (pow2 j). intros p Bx By.
  generalize dependent (Qabs x). generalize dependent (Qabs y). intros. lra.
Qed.

Lemma fopp_finite (j : Z) (a : float) : finite_le j a -> finite_le j (fopp a).
Proof.
  intros (x & -> & Bx). exists (- x)%Q. split; [reflexivity|].
  rewrite Qabs_opp. assumption.
Qed.

Lemma fsub_finite (j : Z) (a b : float) :
  emin fmt <= j + 1 < emax fmt ->
  finite_le j a -> finite_le j b -> finite_le (j + 1) (fsub fmt a b).
Proof.
  intros Hj Ha Hb. unfold fsub. apply fadd_finite; [assumption..|].
  apply fopp_finite. assumption.
Qed.

Lemma round_q_zero (x : Q) : (x == 0)%Q -> round_q fmt x = Fin 0.
Proof.
  intros E. unfold round_q. rewrite (rnd_zero fmt x E). cbv zeta.
  destruct (Qle_bool (pow2 (emax fmt)) (Qabs 0)) eqn:C; [|reflexivity].
  apply Qle_bool_iff in C. pose proof (pow2_pos (emax fmt)) as P.
  change (Qabs 0) with 0%Q in C. lra.
Qed.

Lemma fmul_zero_r (j : Z) (a : float) :
  finite_le j a -> fmul fmt a (Fin 0) = Fin 0.
Proof.
  intros (x & -> & _). cbn [fmul]. apply round_q_zero. ring.
Qed.

End FiniteArith.

(** ** NumPy channels *)

Ltac b32 := unfold emin; cbn [prec emax binary32]; lia.

Lemma scalar_0 : Np.scalar 0 = Fin 0.
Proof. vm_compute. reflexivity. Qed.

Lemma scalar_1 : Np.scalar 1 = Fin 1.
Proof. vm_compute. reflexivity. Qed.

Lemma scalar_2 : Np.scalar 2 = Fin 2.
Proof. vm_compute. reflexivity. Qed.

Lemma scalar_255 : Np.scalar 255 = Fin 255.
Proof. vm_compute. reflexivity. Qed.

Lemma finite_le_const (q : Q) (j : Z) : (Qabs q <= pow2 j)%Q -> finite_le j (Fin q).
Proof. intros B. exists q. split; [reflexivity|assumption]. Qed.

Lemma unit_of_u8_finite (b : byte) : finite_le 0 (Np.unit_of_u8 b).
Proof.
  unfold Np.unit_of_u8, Np.of_u8. rewrite scalar_255. cbn [fdiv].
  change (Qeq_bool 255 0) with false. cbv iota.
  apply (round_q_finite_le binary32); [b32|b32|].
  pose proof (b2z_range b) as Hb.
  assert (H0 : (0 <= inject_Z (b2z b))%Q) by (rewrite <- (Zle_Qle 0); lia).
  assert (H1 : (inject_Z (b2z b) <= 255)%Q)
    by (change 255%Q with (inject_Z 255); rewrite <- Zle_Qle; lia).
  change (pow2 0) with 1%Q. apply Qabs_le_intro.
  generalize dependent (inject_Z (b2z b)). intros v H0 H1.
  split.
  - apply Qle_trans with 0%Q; [lra|]. apply Qle_shift_div_l; lra.
  - apply Qle_shift_div_r; lra.
Qed.

Lemma maximum_finite (j : Z) (a b : float) :
  finite_le j a -> finite_le j b -> finite_le j (Np.maximum a b).
Proof.
  intros (x & -> & Bx) (y & -> & By). unfold Np.maximum.
  destruct (flt (Fin x) (Fin y)); [exists y|exists x]; split; auto.
Qed.

Lemma minimum_finite (j : Z) (a b : float) :
  finite_le j a -> finite_le j b -> finite_le j (Np.minimum a b).
Proof.
  intros (x & -> & Bx) (y & -> & By). unfold Np.minimum.
  destruct (flt (Fin y) (Fin x)); [exists y|exists x]; split; auto.
Qed.

(** Whatever the mode, [f_rgb] of two channels is a finite number. *)
Lemma f_rgb_finite (mode : string) (b o : byte) :
  finite_le 4 (f_rgb mode (Np.unit_of_u8 b) (Np.unit_of_u8 o)).
Proof.
  pose proof (unit_of_u8_finite b) as Hb. pose proof (unit_of_u8_finite o) as Ho.
  set (B := Np.unit_of_u8 b) in *. set (O := Np.unit_of_u8 o) in *.
  assert (H1 : finite_le 0 (Np.scalar 1))
    by (rewrite scalar_1; apply finite_le_const; apply Qle_lteq; right; reflexivity).
  assert (H2 : finite_le 1 (Np.scalar 2))
    by (rewrite scalar_2; apply finite_le_const; apply Qle_lteq; right; reflexivity).
  assert (HB' : finite_le 1 (fsub binary32 (Np.scalar 1) B))
    by (apply (fsub_finite binary32 ltac:(b32) 0); [b32|assumption..]).
  assert (HO' : finite_le 1 (fsub binary32 (Np.scalar 1) O))
    by (apply (fsub_finite binary32 ltac:(b32) 0); [b32|assumption..]).
  unfold f_rgb.
  destruct (String.eqb mode "multiply").
  { apply (finite_le_mono 0); [lia|].
    apply (fmul_finite binary32 ltac:(b32) 0 0); [b32|assumption..]. }
  destruct (String.eqb mode "screen").
  { apply (finite_le_mono 3); [lia|].
    apply (fsub_finite binary32 ltac:(b32) 2); [b32| |].
    - apply (finite_le_mono 0); [lia|assumption].
    - apply (fmul_finite binary32 ltac:(b32) 1 1); [b32|assumption..]. }
  destruct (String.eqb mode "overlay").
  { destruct (fle B (Np.scalar (1 # 2))).
    - apply (finite_le_mono 1); [lia|].
      apply (fmul_finite binary32 ltac:(b32) 1 0); [b32| |assumption].
      apply (fmul_finite binary32 ltac:(b32) 1 0); [b32|assumption..].
    - apply (fsub_finite binary32 ltac:(b32) 3); [b32| |].
      + apply (finite_le_mono 0); [lia|assumption].
      + apply (fmul_finite binary32 ltac:(b32) 2 1); [b32| |assumption].
        apply (fmul_finite binary32 ltac:(b32) 1 1); [b32|assumption..]. }
  destruct (String.eqb mode "lighten").
  { apply (finite_le_mono 0); [lia|]. apply maximum_finite; assumption. }
  destruct (String.eqb mode "darken").
  { apply (finite_le_mono 0); [lia|]. apply minimum_finite; assumption. }
  apply (finite_le_mono 0); [lia|assumption].
Qed.

Lemma unit_round_trip_all : forallb unit_round_trip (zrange 0 256) = true.
Proof. vm_compute. reflexivity. Qed.

Lemma to_u8_unit (b : byte) :
  Np.to_u8 (fadd binary32 (Fin 0) (fmul binary32 (Np.unit_of_u8 b) (Fin 1))) = b.
Proof.
  pose proof (forall_bytes unit_round_trip unit_round_trip_all b) as E.
  unfold unit_round_trip in E. apply Z.eqb_eq in E. apply b2z_inj. exact E.
Qed.

Lemma unit_of_u8_zero : Np.unit_of_u8 Byte.x00 = Fin 0.
Proof. vm_compute. reflexivity. Qed.

Lemma one_minus_zero : fsub binary32 (Np.scalar 1) (Fin 0) = Fin 1.
Proof. vm_compute. reflexivity. Qed.

(** Under a fully transparent overlay pixel [blend_numpy] keeps the base
    pixel, in every mode. *)
Lemma blend_numpy_px_transparent (mode : string) (base over : pixel) :
  alpha over = Byte.x00 -> blend_numpy_px mode base over = base.
Proof.
  intros Ha. unfold blend_numpy_px. rewrite Ha, unit_of_u8_zero, one_minus_zero.
  assert (Hc : forall b o : byte,
    Np.to_u8 (fadd binary32
      (fmul binary32 (f_rgb mode (Np.unit_of_u8 b) (Np.unit_of_u8 o)) (Fin 0))
      (fmul binary32 (Np.unit_of_u8 b) (Fin 1))) = b).
  { intros b o.
    rewrite (fmul_zero_r binary32 4 _ (f_rgb_finite mode b o)).
    apply to_u8_unit. }
  rewrite !Hc.
  assert (Hal : Np.to_u8 (fadd binary32 (Fin 0)
                 (fmul binary32 (Np.unit_of_u8 (alpha base)) (Fin 1))) = alpha base)
    by apply to_u8_unit.
  rewrite Hal. destruct base. reflexivity.
Qed.

(* ================================================================== *)
(** * Opacity zero *)
(* ================================================================== *)

Lemma bind_Ok {A B : Type} (m : result A) (k : A -> result B) (b : B) :
  bind m k = Ok b -> exists a, m = Ok a /\ k a = Ok b.
Proof.
  destruct m as [a|e]; cbn [bind]; intros E; [|discriminate].
  exists a. split; [reflexivity|assumption].
Qed.

Lemma same_raster_refl (r : Raster) : same_raster r r.
Proof. repeat split. Qed.

Lemma bidx_in_range (n i : Z) : 0 <= i < n -> Np.bidx n i = i.
Proof.
  intros Hi. unfold Np.bidx. destruct (Z.eqb_spec n 1); lia.
Qed.

Lemma apply_opacity_zero (img : Raster) :
  width (apply_opacity img (Fin 0)) = width img /\
  height (apply_opacity img (Fin 0)) = height img /\
  clear_raster (apply_opacity img (Fin 0)).
Proof.
  unfold apply_opacity.
  change (fle (lit binary64 (999 # 1000)) (clamp_opacity (Fin 0))) with false.
  cbv iota. cbn [width height]. repeat split.
  intros x y. cbn [px alpha].
  change (cast binary32 (clamp_opacity (Fin 0))) with (Fin 0).
  unfold Np.of_u8. cbn [fmul].
  rewrite (round_q_zero binary32) by ring.
  reflexivity.
Qed.

Lemma alpha_composite_px_clear (dst src : pixel) :
  alpha src = Byte.x00 -> Pillow.alpha_composite_px dst src = dst.
Proof. intros E. unfold Pillow.alpha_composite_px. rewrite E. reflexivity. Qed.

Lemma canvas_clear (w h : Z) (im : Raster) (x0 y0 : Z) :
  clear_raster im ->
  forall x y, px (Pillow.alpha_composite_at (new_transparent w h) im x0 y0) x y
              = transparent.
Proof.
  intros Him x y. cbn [Pillow.alpha_composite_at px new_transparent].
  destruct ((x0 <=? x) && (x <? x0 + width im) && (y0 <=? y) && (y <? y0 + height im));
    [|reflexivity].
  apply alpha_composite_px_clear. apply Him.
Qed.

Lemma blend_normal_clear (base over out : Raster) :
  clear_raster over -> blend_normal base over = Ok out -> same_raster out base.
Proof.
  intros Hc. unfold blend_normal, Pillow.alpha_composite.
  destruct ((width base =? width over) && (height base =? height over));
    [|discriminate].
  intros E. injection E as <-. cbn [width height px]. repeat split.
  intros x y _ _. apply alpha_composite_px_clear. apply Hc.
Qed.

Lemma blend_numpy_clear (base over out : Raster) (mode : string) :
  width over = width base -> height over = height base ->
  clear_raster over -> blend_numpy base over mode = Ok out -> same_raster out base.
Proof.
  intros Hw Hh Hc. unfold blend_numpy, ensure_rgba, Np.broadcast_dim.
  rewrite Hw, Hh, !Z.eqb_refl. cbn [andb bind].
  destruct (String.eqb mode "overlay"); cbn [bind fst snd];
    intros E; injection E as <-; unfold same_raster; cbn [width height px];
    (split; [reflexivity|split; [reflexivity|]]);
    intros x y Hx Hy;
    rewrite blend_numpy_px_transparent by apply Hc;
    rewrite !bidx_in_range by assumption; reflexivity.
Qed.

Ltac bind_ok :=
  match goal with
  | |- context [bind ?m _] =>
      let a := fresh "a" in
      destruct m as [a|]; cbn [bind]; [|discriminate]
  end.

(** The three-way choice of blend function, on a transparent overlay. *)
Lemma blend_choice_clear (mockup canvas out : Raster) (bm : string) :
  width canvas = width mockup -> height canvas = height mockup ->
  clear_raster canvas ->
  (if String.eqb bm "normal" then blend_normal mockup canvas
   else if mem bm numpy_modes then blend_numpy mockup canvas bm
   else blend_normal mockup canvas) = Ok out ->
  same_raster out mockup.
Proof.
  intros Hw Hh Hc.
  destruct (String.eqb bm "normal"); [exact (blend_normal_clear _ _ _ Hc)|].
  destruct (mem bm numpy_modes); [|exact (blend_normal_clear _ _ _ Hc)].
  exact (blend_numpy_clear _ _ _ _ Hw Hh Hc).
Qed.

Lemma paste_overlay_clear (mockup overlay out : Raster) (c : Z * Z) (bm : string) :
  clear_raster overlay ->
  paste_overlay mockup overlay c bm = Ok out -> same_raster out mockup.
Proof.
  intros Hc. unfold paste_overlay. destruct c as [cx cy]. cbv zeta.
  bind_ok. bind_ok.
  apply blend_choice_clear; [reflexivity|reflexivity|].
  intros x y. rewrite canvas_clear by assumption. reflexivity.
Qed.

Section OpacityZero.
Context `{Extern}.

Lemma render_loaded_opacity_zero (mockup design out : Raster) (config : RenderConfig) :
  render_loaded mockup design (with_opacity config (Fin 0)) = Ok out ->
  same_raster out mockup.
Proof.
  unfold render_loaded. cbn [with_opacity mode placement blend_mode opacity maintain_aspect].
  destruct (String.eqb (mode config) "rect").
  - destruct (placement config) as [rp|pp]; [|discriminate].
    do 5 bind_ok.
    apply paste_overlay_clear. apply apply_opacity_zero.
  - destruct (String.eqb (mode config) "perspective"); [|discriminate].
    destruct (placement config) as [rp|pp]; [discriminate|].
    do 4 bind_ok. cbv zeta.
    match goal with
    | |- context [apply_opacity ?w (Fin 0)] =>
        destruct (apply_opacity_zero w) as (Hw & Hh & Hc)
    end.
    apply blend_choice_clear; assumption.
Qed.

End OpacityZero.

(* ================================================================== *)
(** * Entry points *)
(* ================================================================== *)

(** ** Sample data *)

Section EntryPoints.
Context `{Extern}.

(** ** Rotation *)

Lemma tolerance_at_zero : flt (fabs (Fin 0)) (lit binary64 (1 # 1000000)) = true.
Proof. vm_compute. reflexivity. Qed.

(** C6. Rotating by 0 degrees, and more generally by any angle whose
    absolute value is below the tolerance [1e-6], returns the input raster
    itself: the rotation kernel is not called. *)
Theorem rotate_below_tolerance_is_identity (img : Raster) :
  rotate_image_rgba img (Fin 0) = img /\
  forall rotation_deg : float,
    flt (fabs rotation_deg) (lit binary64 (1 # 1000000)) = true ->
    rotate_image_rgba img rotation_deg = img.
Proof.
  split.
  - unfold rotate_image_rgba. rewrite tolerance_at_zero. reflexivity.
  - intros deg Hdeg. unfold rotate_image_rgba. rewrite Hdeg. reflexivity.
Qed.

(** ** Opacity *)

Lemma clamp_opacity_range (opacity : float) :
  exists q, clamp_opacity opacity = Fin q /\ (0 <= q <= 1)%Q.
Proof.
  unfold clamp_opacity, Py.max, Py.min.
  destruct opacity as [|s|q]; cbn [flt].
  - exists 1%Q. split; [reflexivity|lra].
  - destruct s; cbn [flt negb Qle_bool].
    + exists 0%Q. split; [reflexivity|lra].
    + exists 1%Q. split; [reflexivity|lra].
  - destruct (Qle_bool 1 q) eqn:E1; cbn [negb flt].
    + exists 1%Q. split; [reflexivity|lra].
    + destruct (Qle_bool q 0) eqn:E0; cbn [negb].
      * exists 0%Q. split; [reflexivity|lra].
      * exists q. split; [reflexivity|].
        assert (~ (1 <= q)%Q) by (intro C; apply Qle_bool_iff in C; congruence).
        assert (~ (q <= 0)%Q) by (intro C; apply Qle_bool_iff in C; congruence).
        lra.
Qed.

Lemma apply_opacity_clamp (img : Raster) (a b : float) :
  clamp_opacity a = clamp_opacity b -> apply_opacity img a = apply_opacity img b.
Proof. intros E. unfold apply_opacity. rewrite E. reflexivity. Qed.

Lemma bind_ext {A B : Type} (m : result A) (k1 k2 : A -> result B) :
  (forall a, k1 a = k2 a) -> bind m k1 = bind m k2.
Proof. intros E. destruct m; cbn [bind]; [apply E|reflexivity]. Qed.

Lemma render_loaded_clamp (mockup design : Raster) (config : RenderConfig) (a b : float) :
  clamp_opacity a = clamp_opacity b ->
  render_loaded mockup design (with_opacity config a)
  = render_loaded mockup design (with_opacity config b).
Proof.
  intros E. unfold render_loaded.
  cbn [with_opacity mode placement blend_mode opacity maintain_aspect].
  destruct (String.eqb (mode config) "rect").
  - destruct (placement config); [|reflexivity].
    do 5 (apply bind_ext; intros ?).
    cbv zeta. rewrite (apply_opacity_clamp _ a b E). reflexivity.
  - destruct (String.eqb (mode config) "perspective"); [|reflexivity].
    destruct (placement config); [reflexivity|].
    do 4 (apply bind_ext; intros ?).
    cbv zeta. rewrite (apply_opacity_clamp _ a b E). reflexivity.
Qed.

Lemma render_one_clamp (fs : FileSystem) (m d : string) (config : RenderConfig)
  (a b : float) (t : list event) :
  clamp_opacity a = clamp_opacity b ->
  render_one fs m d (with_opacity config a) t = render_one fs m d (with_opacity config b) t.
Proof.
  intros E. unfold render_one, io_bind, open_rgba, lift.
  destruct (fs m); [|reflexivity]. destruct (fs d); [|reflexivity].
  rewrite (render_loaded_clamp _ _ config a b E). reflexivity.
Qed.

Lemma render_one_rect_pixels_clamp (fs : FileSystem) (m d : string)
  (cx cy tw th : Z) (rot : float) (aspect : string) (a b : float) (bm : string)
  (t : list event) :
  clamp_opacity a = clamp_opacity b ->
  render_one_rect_pixels fs m d cx cy tw th rot aspect a bm t
  = render_one_rect_pixels fs m d cx cy tw th rot aspect b bm t.
Proof.
  intros E. unfold render_one_rect_pixels, io_bind, open_rgba, lift.
  destruct (fs m); [|reflexivity]. destruct (fs d); [|reflexivity].
  f_equal. apply bind_ext. intros resized. cbv zeta.
  rewrite (apply_opacity_clamp _ a b E). reflexivity.
Qed.

Lemma clamp_minus_03 : clamp_opacity (lit binary64 (-3 # 10)) = clamp_opacity (Fin 0).
Proof. vm_compute. reflexivity. Qed.

Lemma clamp_17 : clamp_opacity (lit binary64 (17 # 10)) = clamp_opacity (Fin 1).
Proof. vm_compute. reflexivity. Qed.

(** C5. The opacity is clamped to [0, 1] before it is used: whatever is
    passed (also a NaN or an infinity), the value applied lies in [0, 1] and
    no error is raised for it; a call with opacity -0.3 is the same call as
    with 0.0, and a call with 1.7 the same as with 1.0, through both entry
    points (same result or exception, same files opened). *)
Theorem opacity_is_clamped :
  (forall opacity, exists q, clamp_opacity opacity = Fin q /\ (0 <= q <= 1)%Q) /\
  (forall fs m d config t,
     render_one fs m d (with_opacity config (lit binary64 (-3 # 10))) t
     = render_one fs m d (with_opacity config (Fin 0)) t /\
     render_one fs m d (with_opacity config (lit binary64 (17 # 10))) t
     = render_one fs m d (with_opacity config (Fin 1)) t) /\
  (forall fs m d cx cy tw th rot aspect bm t,
     render_one_rect_pixels fs m d cx cy tw th rot aspect (lit binary64 (-3 # 10)) bm t
     = render_one_rect_pixels fs m d cx cy tw th rot aspect (Fin 0) bm t /\
     render_one_rect_pixels fs m d cx cy tw th rot aspect (lit binary64 (17 # 10)) bm t
     = render_one_rect_pixels fs m d cx cy tw th rot aspect (Fin 1) bm t).
Proof.
  split; [exact clamp_opacity_range|]. split.
  - intros. split; apply render_one_clamp; [exact clamp_minus_03|exact clamp_17].
  - intros. split; apply render_one_rect_pixels_clamp;
      [exact clamp_minus_03|exact clamp_17].
Qed.

(** ** The two entry points *)

(** In rect mode [render_one] resolves the placement and then runs the
    steps of the pixel-driven entry. *)
Lemma render_loaded_rect (mockup design : Raster) (config : RenderConfig)
  (rp : RectPlacement) (cx cy tw th : Z) :
  mode config = "rect" ->
  placement config = Rect rp ->
  resolve_rect rp (width mockup) (height mockup) = Ok (cx, cy, tw, th) ->
  render_loaded mockup design config =
  (resized <- resize_with_aspect design tw th (maintain_aspect config) ;;
   let rotated := rotate_image_rgba resized (rotation_deg rp) in
   let overlay := apply_opacity rotated (opacity config) in
   paste_overlay mockup overlay (cx, cy) (blend_mode config)).
Proof.
  intros Hmode Hplace Hres.
  unfold render_loaded. rewrite Hmode, Hplace.
  change (String.eqb "rect" "rect") with true. cbv iota.
  unfold resolve_rect in Hres.
  destruct (v <- mul_float_int (center_x_norm rp) (width mockup) ;; Py.round v)
    as [cx'|] eqn:Ecx; cbn [bind] in Hres; [|discriminate].
  destruct (v <- mul_float_int (center_y_norm rp) (height mockup) ;; Py.round v)
    as [cy'|] eqn:Ecy; cbn [bind] in Hres; [|discriminate].
  destruct (v <- mul_float_int (width_norm rp) (width mockup) ;;
            r <- Py.round v ;; Ok (Z.max 1 r))
    as [tw'|] eqn:Etw; cbn [bind] in Hres; [|discriminate].
  destruct (v <- mul_float_int (height_norm rp) (height mockup) ;;
            r <- Py.round v ;; Ok (Z.max 1 r))
    as [th'|] eqn:Eth; cbn [bind] in Hres; [|discriminate].
  injection Hres as -> -> -> ->. cbn [bind]. reflexivity.
Qed.

(** C1. For a rect-mode configuration, [render_one] and
    [render_one_rect_pixels] called with the resolved geometry of the
    placement (and the same rotation, aspect policy, opacity and blend mode)
    are the same call: same raster or same exception, same files opened. *)
Theorem config_and_pixel_entries_agree
  (fs : FileSystem) (mockup_path design_path : string) (config : RenderConfig)
  (rp : RectPlacement) (background : Raster) (cx cy tw th : Z) (t : list event) :
  mode config = "rect" ->
  placement config = Rect rp ->
  fs mockup_path = Some background ->
  resolve_rect rp (width background) (height background) = Ok (cx, cy, tw, th) ->
  render_one fs mockup_path design_path config t
  = render_one_rect_pixels fs mockup_path design_path cx cy tw th
      (rotation_deg rp) (maintain_aspect config) (opacity config) (blend_mode config) t.
Proof.
  intros Hmode Hplace Hbg Hres.
  unfold render_one, render_one_rect_pixels, io_bind, open_rgba, lift.
  rewrite Hbg. destruct (fs design_path) as [design|]; [|reflexivity].
  f_equal. exact (render_loaded_rect background design config rp cx cy tw th
                    Hmode Hplace Hres).
Qed.

End EntryPoints.

Lemma is_ok_Ok {A : Type} (r : result A) : is_ok r = true -> exists a, r = Ok a.
Proof. destruct r as [a|e]; [exists a; reflexivity|discriminate]. Qed.

Lemma rotate_below_tolerance_is_identity_witness :
  flt (fabs (lit binary64 (1 # 10000000))) (lit binary64 (1 # 1000000)) = true /\
  @rotate_image_rgba sample_extern (solid 100 100 red_px) (lit binary64 (1 # 10000000))
  = solid 100 100 red_px.
Proof.
  assert (E : flt (fabs (lit binary64 (1 # 10000000))) (lit binary64 (1 # 1000000)) = true)
    by (vm_compute; reflexivity).
  split; [exact E|].
  exact (proj2 (@rotate_below_tolerance_is_identity sample_extern _) _ E).
Defined.

Lemma config_and_pixel_entries_agree_witness :
  @render_one sample_extern sample_fs "mockup.png" "design.png" sample_config []
  = @render_one_rect_pixels sample_extern sample_fs "mockup.png" "design.png"
      500 400 100 80 (Fin 0) "contain" (Fin 1) "normal" [].
Proof.
  apply (@config_and_pixel_entries_agree sample_extern sample_fs "mockup.png"
           "design.png" sample_config sample_rect (solid 1000 800 gray)
           500 400 100 80 []).
  - reflexivity.
  - reflexivity.
  - reflexivity.
  - vm_compute. reflexivity.
Defined.

(* ================================================================== *)
(** * Normal blending *)
(* ================================================================== *)

(** ** Normal blending *)

Lemma opaque_channel_rounds_all :
  forallb opaque_channel_rounds (zrange 0 (Z.to_nat 65026)) = true.
Proof. vm_compute. reflexivity. Qed.

Lemma opaque_channel_spec (t : Z) :
  0 <= t <= 65025 -> opaque_channel t = (t + 127) / 255.
Proof.
  intros Ht. apply Z.eqb_eq.
  apply (forall_zrange opaque_channel_rounds 65026 opaque_channel_rounds_all). lia.
Qed.

Lemma mix_range (s d sa : Z) :
  0 <= s < 256 -> 0 <= d < 256 -> 0 <= sa < 256 ->
  0 <= s * sa + d * (255 - sa) <= 65025.
Proof. intros Hs Hd Ha. nia. Qed.

Lemma over_formula_eq (o a b : byte) :
  (over_formula o a b ==
   inject_Z (b2z o * b2z a + b2z b * (255 - b2z a)) / 255)%Q.
Proof.
  unfold over_formula. cbv zeta.
  rewrite inject_Z_plus, !inject_Z_mult. unfold Z.sub.
  rewrite inject_Z_plus, inject_Z_opp. change (inject_Z 255) with 255%Q.
  field.
Qed.

Lemma nearest_of_div (t : Z) :
  0 <= t <= 65025 ->
  (Qabs (inject_Z ((t + 127) / 255) - inject_Z t / 255) <= 1 # 2)%Q.
Proof.
  intros Ht.
  pose proof (Z.div_mod (t + 127) 255 ltac:(lia)) as E.
  pose proof (Z.mod_pos_bound (t + 127) 255 ltac:(lia)) as M.
  set (c := (t + 127) / 255) in *.
  assert (H1 : (255 * c - 127 <= t)%Z) by lia.
  assert (H2 : (t <= 255 * c + 127)%Z) by lia.
  rewrite Zle_Qle in H1, H2.
  unfold Z.sub in H1. rewrite inject_Z_plus, inject_Z_mult, inject_Z_opp in H1.
  rewrite inject_Z_plus, inject_Z_mult in H2.
  change (inject_Z 255) with 255%Q in *. change (inject_Z 127) with 127%Q in *.
  generalize dependent (inject_Z c). generalize dependent (inject_Z t).
  intros T C H1 H2. apply Qabs_le_intro.
  assert (E2 : (T / 255 == T * (1 # 255))%Q) by field.
  rewrite E2. split; lra.
Qed.

(** Over an opaque destination each colour channel of [alpha_composite_px]
    is the nearest level to the over formula, and the result is opaque. *)
Lemma alpha_composite_px_opaque (dst src : pixel) :
  alpha dst = Byte.xff ->
  let out := Pillow.alpha_composite_px dst src in
  nearest_level (red out) (over_formula (red src) (alpha src) (red dst)) /\
  nearest_level (green out) (over_formula (green src) (alpha src) (green dst)) /\
  nearest_level (blue out) (over_formula (blue src) (alpha src) (blue dst)) /\
  alpha out = Byte.xff.
Proof.
  intros Hd. cbv zeta. unfold Pillow.alpha_composite_px.
  pose proof (b2z_range (alpha src)) as Ha.
  destruct (Z.eqb_spec (b2z (alpha src)) 0) as [E0 | Hne].
  - (* a transparent source pixel leaves the destination *)
    assert (Hn : forall o b : byte, nearest_level b (over_formula o (alpha src) b)).
    { intros o b. unfold nearest_level. rewrite over_formula_eq, E0.
      replace (b2z o * 0 + b2z b * (255 - 0))%Z with (b2z b * 255)%Z by ring.
      rewrite inject_Z_mult. change (inject_Z 255) with 255%Q.
      apply Qabs_le_intro.
      assert (E : (inject_Z (b2z b) * 255 / 255 == inject_Z (b2z b))%Q) by field.
      rewrite E. split; lra. }
    split; [apply Hn|split; [apply Hn|split; [apply Hn|assumption]]].
  - rewrite Hd. change (b2z Byte.xff) with 255.
    set (sa := b2z (alpha src)) in *.
    replace (sa * 255 + 255 * (255 - sa)) with 65025 by ring.
    replace (sa * 255 * 255 * Z.shiftl 1 Pillow.PRECISION_BITS / 65025) with (sa * 128).
    2: { change (Z.shiftl 1 Pillow.PRECISION_BITS) with 128.
         replace (sa * 255 * 255 * 128) with (sa * 128 * 65025) by ring.
         rewrite Z.div_mul by lia. reflexivity. }
    change (Z.shiftl 1 Pillow.PRECISION_BITS) with 128.
    assert (Hc : forall s d : byte,
      nearest_level
        (z2b (Z.shiftr (Pillow.shift_for_div255
                 (b2z s * (sa * 128) + b2z d * (255 * 128 - sa * 128)
                  + Z.shiftl 128 Pillow.PRECISION_BITS)) Pillow.PRECISION_BITS))
        (over_formula s (alpha src) d)).
    { intros s d. pose proof (b2z_range s) as Hs. pose proof (b2z_range d) as Hdd.
      pose proof (mix_range (b2z s) (b2z d) sa Hs Hdd Ha) as Ht.
      set (t := b2z s * sa + b2z d * (255 - sa)) in *.
      replace (b2z s * (sa * 128) + b2z d * (255 * 128 - sa * 128)) with (128 * t)
        by (unfold t; ring).
      fold (opaque_channel t). rewrite (opaque_channel_spec t Ht).
      unfold nearest_level. rewrite over_formula_eq. fold sa. fold t.
      rewrite b2z_z2b.
      - apply nearest_of_div. assumption.
      - split; [apply Z.div_pos; lia|]. apply Z.div_lt_upper_bound; lia. }
    cbn [red green blue alpha].
    split; [apply Hc|split; [apply Hc|split; [apply Hc|reflexivity]]].
Qed.

(** C3, as amended. Normal blending of two rasters of one size returns a
    raster, and wherever the base pixel is opaque it gives per colour
    channel the nearest 8-bit level to
    [over_rgb * over_a + base_rgb * (1 - over_a)] and leaves the pixel
    opaque. *)
Theorem normal_blend_over_opaque_base (base overlay : Raster) :
  width overlay = width base -> height overlay = height base ->
  exists out,
    blend_normal base overlay = Ok out /\
    forall x y, alpha (px base x y) = Byte.xff ->
      let b := px base x y in
      let o := px overlay x y in
      nearest_level (red (px out x y)) (over_formula (red o) (alpha o) (red b)) /\
      nearest_level (green (px out x y)) (over_formula (green o) (alpha o) (green b)) /\
      nearest_level (blue (px out x y)) (over_formula (blue o) (alpha o) (blue b)) /\
      alpha (px out x y) = Byte.xff.
Proof.
  intros Hw Hh. unfold blend_normal, Pillow.alpha_composite.
  rewrite Hw, Hh, !Z.eqb_refl. cbn [andb].
  eexists. split; [reflexivity|].
  intros x y Hb. cbn [px]. apply alpha_composite_px_opaque. assumption.
Qed.

(** C3 fails as stated: over a fully transparent base pixel, a half
    transparent red overlay comes out with red 255 (alpha_composite divides
    the colour by the resulting alpha), where the formula gives 128. *)
Lemma normal_blend_over_transparent_base :
  ~ (forall (base overlay out : Raster) (x y : Z),
       blend_normal base overlay = Ok out ->
       within_a_level (red (px out x y))
         (over_formula (red (px overlay x y)) (alpha (px overlay x y))
            (red (px base x y)))).
Proof.
  intros C.
  assert (Hok : is_ok (blend_normal (solid 1 1 transparent) (solid 1 1 half_red)) = true)
    by (vm_compute; reflexivity).
  destruct (is_ok_Ok _ Hok) as [out E].
  specialize (C _ _ out 0 0 E).
  assert (Hr : b2z (red (px out 0 0)) = 255).
  { assert (Hp : px_at (blend_normal (solid 1 1 transparent) (solid 1 1 half_red)) 0 0
                 = Some (255, 0, 0, 128)) by (vm_compute; reflexivity).
    rewrite E in Hp. unfold px_at, show_px in Hp. injection Hp as Hp _ _ _. exact Hp. }
  unfold within_a_level in C. rewrite Hr in C.
  cbn [solid px] in C.
  assert (Hv : (over_formula (red half_red) (alpha half_red) (red transparent)
                == 128)%Q) by (vm_compute; reflexivity).
  rewrite Hv in C. vm_compute in C. discriminate.
Qed.

Lemma normal_blend_over_opaque_base_witness :
  exists out,
    blend_normal (solid 1 1 gray) (solid 1 1 half_red) = Ok out /\
    nearest_level (red (px out 0 0))
      (over_formula (red half_red) (alpha half_red) (red gray)).
Proof.
  destruct (normal_blend_over_opaque_base (solid 1 1 gray) (solid 1 1 half_red)
              eq_refl eq_refl) as (out & E & Hpx).
  exists out. split; [exact E|].
  exact (proj1 (Hpx 0 0 eq_refl)).
Defined.

(* ================================================================== *)
(** * Blend formulas *)
(* ================================================================== *)

(** ** The five arithmetic blend modes *)

Lemma f_rgb_mode_formula (m : BlendFn) (b o : float) :
  f_rgb (blend_name m) b o = mode_formula m b o.
Proof. destruct m; reflexivity. Qed.

Lemma blend_numpy_px_formula (m : BlendFn) (base over : pixel) :
  blend_numpy_px (blend_name m) base over = formula_px m base over.
Proof.
  unfold blend_numpy_px, formula_px, out_rgb_formula, out_a_formula. cbv zeta.
  rewrite !f_rgb_mode_formula. reflexivity.
Qed.

(** C4. For each of multiply, screen, overlay, lighten and darken,
    [blend_numpy] on two rasters of one size returns the raster of that
    size whose pixels are given by the mode formula [f], then
    [out_rgb = f * over_a + base_rgb * (1 - over_a)] and
    [out_a = over_a + base_a * (1 - over_a)], computed in [float32] on
    channels divided by 255 and cast back to 8 bits. *)
Theorem blend_numpy_computes_formulas (m : BlendFn) (base overlay : Raster) :
  width overlay = width base -> height overlay = height base ->
  exists out,
    blend_numpy base overlay (blend_name m) = Ok out /\
    width out = width base /\ height out = height base /\
    forall x y, 0 <= x < width base -> 0 <= y < height base ->
      px out x y = formula_px m (px base x y) (px overlay x y).
Proof.
  intros Hw Hh. unfold blend_numpy, ensure_rgba, Np.broadcast_dim.
  rewrite Hw, Hh, !Z.eqb_refl. cbn [andb bind].
  eexists. split.
  - destruct (String.eqb (blend_name m) "overlay"); cbn [bind fst snd]; reflexivity.
  - cbn [width height px]. split; [reflexivity|]. split; [reflexivity|].
    intros x y Hx Hy. rewrite !bidx_in_range by assumption.
    apply blend_numpy_px_formula.
Qed.

Lemma blend_numpy_computes_formulas_witness :
  exists out,
    blend_numpy (solid 2 2 gray) (solid 2 2 half_red) (blend_name Multiply) = Ok out /\
    px out 1 1 = formula_px Multiply gray half_red.
Proof.
  destruct (blend_numpy_computes_formulas Multiply (solid 2 2 gray) (solid 2 2 half_red)
              eq_refl eq_refl) as (out & E & _ & _ & Hpx).
  exists out. split; [exact E|].
  apply (Hpx 1 1); cbn [solid width height]; lia.
Defined.

(** ** Unrecognized blend modes *)

Lemma recognized_false (bm : string) :
  recognized bm = false ->
  String.eqb bm "normal" = false /\ mem bm numpy_modes = false.
Proof. unfold recognized. apply orb_false_elim. Qed.

Lemma f_rgb_unrecognized (bm : string) (b o : float) :
  mem bm numpy_modes = false -> f_rgb bm b o = o.
Proof.
  unfold mem, numpy_modes. cbn [existsb]. intros E.
  repeat (apply orb_false_elim in E; destruct E as [? E]).
  unfold f_rgb.
  repeat match goal with
  | Hm : String.eqb bm _ = false |- _ => rewrite Hm; clear Hm
  end.
  reflexivity.
Qed.

Section Fallbacks.
Context `{Extern}.

(** C9. An unrecognized blend mode is handled in two different ways.
    The dispatcher of [paste_overlay] and the one of the perspective branch
    of [render_one] fall back to normal compositing, so both give the
    result of mode normal.  [blend_numpy]'s own fallback passes the overlay
    colour through the mix
    [out_rgb = over_rgb * over_a + base_rgb * (1 - over_a)], without the
    division by the resulting alpha that [alpha_composite] performs.  On a
    half transparent base the two give different pixels. *)
Theorem unrecognized_mode_fallbacks_disagree :
  (forall bm mockup overlay c,
     recognized (lower bm) = false ->
     paste_overlay mockup overlay c bm = paste_overlay mockup overlay c "normal") /\
  (forall bm mockup design config,
     mode config = "perspective" -> recognized bm = false ->
     render_loaded mockup design (with_blend_mode config bm)
     = render_loaded mockup design (with_blend_mode config "normal")) /\
  (forall bm base over,
     recognized bm = false ->
     blend_numpy_px bm base over = passthrough_px base over) /\
  (recognized (lower "foo") = false /\
   px_at (paste_overlay (solid 1 1 blue_half) (solid 1 1 half_red) (0, 0) "foo") 0 0
     = Some (170, 0, 85, 192) /\
   px_at (blend_numpy (solid 1 1 blue_half) (solid 1 1 half_red) "foo") 0 0
     = Some (128, 0, 126, 191)).
Proof.
  split; [|split; [|split]].
  - intros bm mockup overlay [cx cy] Hr. apply recognized_false in Hr.
    destruct Hr as [Hn Hm]. unfold paste_overlay.
    apply bind_ext. intros x0. apply bind_ext. intros y0. cbv zeta.
    rewrite Hn, Hm. reflexivity.
  - intros bm mockup design config Hmode Hr. apply recognized_false in Hr.
    destruct Hr as [Hn Hm]. unfold render_loaded.
    cbn [with_blend_mode mode placement blend_mode opacity maintain_aspect].
    rewrite Hmode. cbn [String.eqb Ascii.eqb Bool.eqb].
    destruct (placement config) as [rp|pp]; [reflexivity|].
    do 4 (apply bind_ext; intros ?). cbv zeta.
    rewrite Hn, Hm. reflexivity.
  - intros bm base over Hr. apply recognized_false in Hr. destruct Hr as [_ Hm].
    unfold blend_numpy_px, passthrough_px, out_rgb_formula, out_a_formula. cbv zeta.
    rewrite !(f_rgb_unrecognized bm _ _ Hm). reflexivity.
  - split; [reflexivity|]. split; vm_compute; reflexivity.
Qed.

End Fallbacks.

Lemma unrecognized_mode_fallbacks_disagree_witness :
  recognized (lower "Foo") = false /\
  paste_overlay (solid 1 1 blue_half) (solid 1 1 half_red) (0, 0) "Foo"
  = paste_overlay (solid 1 1 blue_half) (solid 1 1 half_red) (0, 0) "normal".
Proof.
  split; [reflexivity|].
  exact (proj1 (@unrecognized_mode_fallbacks_disagree sample_extern)
           "Foo" _ _ (0, 0) eq_refl).
Defined.

(* ================================================================== *)
(** * Resizing *)
(* ================================================================== *)

(** ** Aspect-fit sizes *)

Section Resize.
Context `{Extern}.

(** C7. For a source and a target of positive sizes: under contain the
    resized width and height stay within the target and one of them equals
    it, and they keep the source's proportions to within one pixel
    ([|w * sh - h * sw| < max sw sh]); under cover both reach the target;
    under both policies the two sides are the source sides times one common
    positive factor, each rounded to the nearest integer and raised to 1
    when below. *)
Theorem resize_with_aspect_fits (img : Raster) (tw th : Z) :
  size_ok (width img) -> size_ok (height img) -> size_ok tw -> size_ok th ->
  let sw := width img in
  let sh := height img in
  (exists out, resize_with_aspect img tw th "contain" = Ok out /\
     1 <= width out <= tw /\ 1 <= height out <= th /\
     (width out = tw \/ height out = th) /\
     Z.abs (width out * sh - height out * sw) < Z.max sw sh) /\
  (exists out, resize_with_aspect img tw th "cover" = Ok out /\
     tw <= width out /\ th <= height out) /\
  (forall mode, mode = "contain" \/ mode = "cover" ->
     exists out scale, resize_with_aspect img tw th mode = Ok out /\
       (0 < scale)%Q /\
       width out = Z.max 1 (rne (rnd binary64 (inject_Z sw * scale))) /\
       height out = Z.max 1 (rne (rnd binary64 (inject_Z sh * scale)))).
Proof.
  intros Hsw Hsh Htw Hth. cbv zeta.
  assert (Hnz : (width img =? 0) || (height img =? 0) = false).
  { destruct Hsw, Hsh. apply orb_false_intro; apply Z.eqb_neq; lia. }
  unfold resize_with_aspect. cbv zeta. rewrite Hnz.
  split; [|split].
  - rewrite (resize_dims_scaled _ _ _ _ "contain" Hsw Hsh Htw Hth eq_refl).
    cbn [bind fst snd]. eexists. split; [reflexivity|]. cbn [resize width height].
    exact (contain_dims _ _ _ _ Hsw Hsh Htw Hth).
  - rewrite (resize_dims_scaled _ _ _ _ "cover" Hsw Hsh Htw Hth eq_refl).
    cbn [bind fst snd]. eexists. split; [reflexivity|]. cbn [resize width height].
    exact (cover_dims _ _ _ _ Hsw Hsh Htw Hth).
  - intros mode Hmode.
    assert (Hst : String.eqb mode "stretch" = false)
      by (destruct Hmode as [-> | ->]; reflexivity).
    rewrite (resize_dims_scaled _ _ _ _ mode Hsw Hsh Htw Hth Hst).
    cbn [bind fst snd]. eexists. exists (fit_scale mode (quot tw (width img)) (quot th (height img))).
    split; [reflexivity|]. split; [|split; reflexivity].
    pose proof (quot_pos tw _ Hsw Htw). pose proof (quot_pos th _ Hsh Hth).
    unfold fit_scale. destruct (String.eqb mode "cover");
      match goal with |- context [Qle_bool ?a ?b] => destruct (Qle_bool a b) end;
      assumption.
Qed.

End Resize.

Lemma resize_with_aspect_fits_witness :
  exists out,
    @resize_with_aspect sample_extern (solid 100 50 red_px) 30 30 "contain" = Ok out /\
    1 <= width out <= 30 /\ 1 <= height out <= 30 /\
    (width out = 30 \/ height out = 30) /\
    Z.abs (width out * 50 - height out * 100) < Z.max 100 50.
Proof.
  exact (proj1 (@resize_with_aspect_fits sample_extern (solid 100 50 red_px) 30 30
                  ltac:(cbv; split; [discriminate|reflexivity])
                  ltac:(cbv; split; [discriminate|reflexivity])
                  ltac:(cbv; split; [discriminate|reflexivity])
                  ltac:(cbv; split; [discriminate|reflexivity]))).
Defined.

(* ================================================================== *)
(** * Calls that return *)
(* ================================================================== *)

Lemma rne_abs_le (x : Q) (j : Z) :
  0 <= j -> (Qabs x <= pow2 j)%Q -> Z.abs (rne x) <= 2 ^ j.
Proof.
  intros Hj Hx. apply Qabs_le_elim in Hx. rewrite pow2_Z in Hx by assumption.
  assert (H1 : rne x <= 2 ^ j).
  { rewrite <- (rne_inject_Z (2 ^ j)). apply rne_mono. apply Hx. }
  assert (H2 : - 2 ^ j <= rne x).
  { rewrite <- (rne_inject_Z (- 2 ^ j)). apply rne_mono.
    rewrite inject_Z_opp. apply Hx. }
  lia.
Qed.

Lemma scale_choice (cover : bool) (a b : Q) (P : float -> Prop) :
  P (Fin a) -> P (Fin b) ->
  P (if cover then Py.max (Fin a) (Fin b) else Py.min (Fin a) (Fin b)).
Proof.
  intros Ha Hb. unfold Py.max, Py.min.
  destruct cover; match goal with |- context [flt ?u ?v] => destruct (flt u v) end;
    assumption.
Qed.

(** Within the range of C integers [resize_dims] never raises, and it
    never asks for a side below 1. *)
Lemma resize_dims_total (sw sh tw th : Z) (mode : string) :
  size_ok sw -> size_ok sh -> pixel_int tw -> pixel_int th ->
  exists w h, resize_dims sw sh tw th mode = Ok (w, h) /\
    1 <= w <= 2 ^ 62 /\ 1 <= h <= 2 ^ 62 /\
    (mode = "stretch" -> w = Z.max 1 tw /\ h = Z.max 1 th).
Proof.
  intros Hsw Hsh Htw Hth. unfold resize_dims. unfold pixel_int in *.
  destruct (String.eqb_spec mode "stretch") as [->|Hne].
  - exists (Z.max 1 tw), (Z.max 1 th). repeat split; try lia.
  - destruct (truediv_bounded tw sw 31) as [Ea Ba]; [destruct Hsw; lia|lia|lia|].
    destruct (truediv_bounded th sh 31) as [Eb Bb]; [destruct Hsh; lia|lia|lia|].
    rewrite Ea, Eb. cbn [bind].
    set (a := rnd binary64 (inject_Z tw / inject_Z sw)) in *.
    set (b := rnd binary64 (inject_Z th / inject_Z sh)) in *.
    apply (scale_choice (String.eqb mode "cover") a b
      (fun scale => exists w h,
         (new_w <- (v <- mul_int_float sw scale ;; Py.round v) ;;
          new_h <- (v <- mul_int_float sh scale ;; Py.round v) ;;
          Ok (Z.max 1 new_w, Z.max 1 new_h)) = Ok (w, h) /\
         1 <= w <= 2 ^ 62 /\ 1 <= h <= 2 ^ 62 /\
         (mode = "stretch" -> w = Z.max 1 tw /\ h = Z.max 1 th)));
      [generalize a Ba|generalize b Bb]; intros s Bs;
      (destruct (mul_int_float_bounded sw s 31 31) as [Ew Bw];
         [destruct Hsw; lia|lia|destruct Hsw; lia|lia|lia|exact Bs|];
       destruct (mul_int_float_bounded sh s 31 31) as [Eh Bh];
         [destruct Hsh; lia|lia|destruct Hsh; lia|lia|lia|exact Bs|];
       rewrite Ew, Eh; cbn [bind Py.round];
       pose proof (rne_abs_le _ 62 ltac:(lia) Bw);
       pose proof (rne_abs_le _ 62 ltac:(lia) Bh);
       eexists; eexists; split; [reflexivity|];
       repeat split; try lia; intros; contradiction).
Qed.

(** [int(round(c - n / 2))] is defined on C integers. *)
Lemma centered_origin_total (c n : Z) :
  pixel_int c -> Z.abs n <= 2 ^ 63 -> exists z, centered_origin c n = Ok z.
Proof.
  unfold pixel_int. intros Hc Hn. unfold centered_origin.
  destruct (truediv_bounded n 2 63) as [Eh Bh]; [lia|lia|lia|].
  rewrite Eh. cbn [bind]. unfold sub_int_float.
  rewrite float_of_int_small by lia. cbn [bind fsub fopp fadd].
  set (h := rnd binary64 (inject_Z n / inject_Z 2)) in *.
  destruct (round_q_bounded binary64 ltac:(b64) (inject_Z c + - h) 64) as [E _].
  - b64.
  - eapply Qle_trans; [apply Qabs_triangle|]. rewrite Qabs_opp.
    assert (Bc : (Qabs (inject_Z c) <= pow2 63)%Q)
      by (apply inject_Z_abs_le; lia).
    change 64 with (63 + 1). rewrite pow2_succ.
    generalize dependent (Qabs h). generalize dependent (Qabs (inject_Z c)).
    generalize (pow2 63). intros. lra.
  - rewrite E. cbn [Py.round]. eexists. reflexivity.
Qed.

Lemma blend_normal_same_size (base overlay : Raster) :
  width overlay = width base -> height overlay = height base ->
  exists out, blend_normal base overlay = Ok out /\
    width out = width base /\ height out = height base.
Proof.
  intros Hw Hh. unfold blend_normal, Pillow.alpha_composite.
  rewrite Hw, Hh, !Z.eqb_refl. cbn [andb]. eexists. split; [reflexivity|].
  split; reflexivity.
Qed.

Lemma blend_numpy_same_size (base overlay : Raster) (mode : string) :
  width overlay = width base -> height overlay = height base ->
  exists out, blend_numpy base overlay mode = Ok out /\
    width out = width base /\ height out = height base.
Proof.
  intros Hw Hh. unfold blend_numpy, ensure_rgba, Np.broadcast_dim.
  rewrite Hw, Hh, !Z.eqb_refl. cbn [andb bind].
  destruct (String.eqb mode "overlay"); cbn [bind fst snd];
    eexists; (split; [reflexivity|split; reflexivity]).
Qed.

Lemma paste_overlay_total (mockup overlay : Raster) (cx cy : Z) (bm : string) :
  pixel_int cx -> pixel_int cy ->
  Z.abs (width overlay) <= 2 ^ 63 -> Z.abs (height overlay) <= 2 ^ 63 ->
  exists out, paste_overlay mockup overlay (cx, cy) bm = Ok out /\
    width out = width mockup /\ height out = height mockup.
Proof.
  intros Hcx Hcy Hw Hh. unfold paste_overlay.
  destruct (centered_origin_total cx _ Hcx Hw) as [x0 Ex].
  destruct (centered_origin_total cy _ Hcy Hh) as [y0 Ey].
  rewrite Ex, Ey. cbn [bind]. cbv zeta.
  destruct (String.eqb (lower bm) "normal");
    [apply blend_normal_same_size; reflexivity|].
  destruct (mem (lower bm) numpy_modes);
    [apply blend_numpy_same_size; reflexivity|apply blend_normal_same_size; reflexivity].
Qed.

Section PixelEntry.
Context `{Extern}.

Lemma apply_opacity_size (img : Raster) (opacity : float) :
  width (apply_opacity img opacity) = width img /\
  height (apply_opacity img opacity) = height img.
Proof.
  unfold apply_opacity. cbv zeta.
  destruct (fle (lit binary64 (999 # 1000)) (clamp_opacity opacity));
    split; reflexivity.
Qed.

(** The steps of the rect pipeline after the files are open: within the
    range of C integers none of them raises. *)
Lemma rect_pipeline_total (mockup design : Raster) (cx cy tw th : Z) (rot : float)
  (aspect : string) (opacity : float) (bm : string) :
  size_ok (width design) -> size_ok (height design) ->
  pixel_int cx -> pixel_int cy -> pixel_int tw -> pixel_int th ->
  rotation_keeps_sizes ->
  exists resized out,
    resize_with_aspect design tw th aspect = Ok resized /\
    1 <= width resized /\ 1 <= height resized /\
    (aspect = "stretch" ->
       width resized = Z.max 1 tw /\ height resized = Z.max 1 th) /\
    paste_overlay mockup (apply_opacity (rotate_image_rgba resized rot) opacity)
      (cx, cy) bm = Ok out /\
    width out = width mockup /\ height out = height mockup.
Proof.
  intros Hsw Hsh Hcx Hcy Htw Hth Hrot.
  destruct (resize_dims_total _ _ tw th aspect Hsw Hsh Htw Hth)
    as (w & h & Edims & Hw & Hh & Hstretch).
  assert (Eres : resize_with_aspect design tw th aspect = Ok (resize design w h)).
  { unfold resize_with_aspect. cbv zeta.
    replace ((width design =? 0) || (height design =? 0)) with false
      by (symmetry; destruct Hsw, Hsh; apply orb_false_intro; apply Z.eqb_neq; lia).
    rewrite Edims. reflexivity. }
  set (resized := resize design w h) in *.
  set (overlay := apply_opacity (rotate_image_rgba resized rot) opacity).
  assert (Hov : Z.abs (width overlay) <= 2 ^ 63 /\ Z.abs (height overlay) <= 2 ^ 63).
  { unfold overlay.
    destruct (apply_opacity_size (rotate_image_rgba resized rot) opacity) as [-> ->].
    unfold rotate_image_rgba.
    destruct (flt (fabs rot) (lit binary64 (1 # 1000000))).
    - cbn [resized resize width height]. lia.
    - apply Hrot; cbn [resized resize width height]; lia. }
  destruct Hov as [Hovw Hovh].
  destruct (paste_overlay_total mockup overlay cx cy bm Hcx Hcy Hovw Hovh)
    as (out & Eout & Wout & Hout).
  exists resized, out. split; [exact Eres|].
  split; [cbn [resized resize width]; lia|].
  split; [cbn [resized resize height]; lia|].
  split; [exact Hstretch|].
  split; [exact Eout|]. split; assumption.
Qed.

Lemma quad_px_row_total (pp : PerspectivePlacement) (i : nat) (mw mh : Z) :
  (i < List.length (quad_norm pp))%nat -> pixel_int mw -> pixel_int mh ->
  exists r, quad_px_row pp i mw mh = Ok r.
Proof.
  unfold pixel_int. intros Hi Hw Hh. unfold quad_px_row, quad_point.
  destruct (nth_error (quad_norm pp) i) as [p|] eqn:E.
  - cbn [bind]. unfold mul_float_int.
    rewrite !float_of_int_small by lia. cbn [bind]. eexists. reflexivity.
  - apply nth_error_None in E. lia.
Qed.

(** The perspective branch raises nothing on a quad of at least four
    points. *)
Lemma render_loaded_perspective_total (mockup design : Raster) (config : RenderConfig)
  (pp : PerspectivePlacement) :
  mode config = "perspective" -> placement config = Perspective pp ->
  (4 <= List.length (quad_norm pp))%nat ->
  pixel_int (width mockup) -> pixel_int (height mockup) ->
  exists out, render_loaded mockup design config = Ok out /\
    width out = width mockup /\ height out = height mockup.
Proof.
  intros Hmode Hplace Hlen Hw Hh. unfold render_loaded. cbv zeta.
  rewrite Hmode, Hplace. cbn [String.eqb Ascii.eqb Bool.eqb].
  destruct (quad_px_row_total pp 0 _ _ ltac:(lia) Hw Hh) as [r0 ->].
  destruct (quad_px_row_total pp 1 _ _ ltac:(lia) Hw Hh) as [r1 ->].
  destruct (quad_px_row_total pp 2 _ _ ltac:(lia) Hw Hh) as [r2 ->].
  destruct (quad_px_row_total pp 3 _ _ ltac:(lia) Hw Hh) as [r3 ->].
  cbn [bind].
  match goal with
  | |- context [apply_opacity ?w ?o] =>
      destruct (apply_opacity_size w o) as [Ew Eh]; cbn [width height] in Ew, Eh;
      generalize dependent (apply_opacity w o)
  end.
  intros overlay Ew Eh.
  destruct (String.eqb (blend_mode config) "normal");
    [apply blend_normal_same_size; assumption|].
  destruct (mem (blend_mode config) numpy_modes);
    [apply blend_numpy_same_size; assumption|apply blend_normal_same_size; assumption].
Qed.

(** C10. The pixel-driven entry accepts any target size that is a C
    integer, non-positive ones included: no exception is raised, the overlay
    is resized to at least 1x1 (for stretch, to [max(1, target)] on each
    side), and the composition returns a raster of the mockup's size after
    opening each of the two files once. *)
Theorem non_positive_target_is_clamped
  (fs : FileSystem) (mockup_path design_path : string) (mockup design : Raster)
  (cx cy tw th : Z) (rot : float) (aspect : string) (opacity : float) (bm : string) :
  fs mockup_path = Some mockup -> fs design_path = Some design ->
  size_ok (width design) -> size_ok (height design) ->
  pixel_int cx -> pixel_int cy -> pixel_int tw -> pixel_int th ->
  rotation_keeps_sizes ->
  exists resized out,
    resize_with_aspect design tw th aspect = Ok resized /\
    1 <= width resized /\ 1 <= height resized /\
    (aspect = "stretch" ->
       width resized = Z.max 1 tw /\ height resized = Z.max 1 th) /\
    run (render_one_rect_pixels fs mockup_path design_path cx cy tw th rot aspect
           opacity bm)
    = (Ok out, [Opened mockup_path; Opened design_path]) /\
    width out = width mockup /\ height out = height mockup.
Proof.
  intros Hm Hd Hsw Hsh Hcx Hcy Htw Hth Hrot.
  destruct (rect_pipeline_total mockup design cx cy tw th rot aspect opacity bm
              Hsw Hsh Hcx Hcy Htw Hth Hrot)
    as (resized & out & Eres & Hw & Hh & Hstretch & Eout & Wout & Hout).
  exists resized, out.
  split; [exact Eres|]. split; [exact Hw|]. split; [exact Hh|].
  split; [exact Hstretch|]. split; [|split; assumption].
  unfold run, render_one_rect_pixels, io_bind, open_rgba, lift.
  rewrite Hm, Hd. rewrite Eres. cbn [bind]. cbv zeta.
  rewrite Eout. reflexivity.
Qed.

End PixelEntry.

Lemma sample_rotation_keeps_sizes : @rotation_keeps_sizes sample_extern.
Proof. intros img deg Hw Hh. cbn [rotate_expand sample_extern]. lia. Qed.

Lemma non_positive_target_is_clamped_witness :
  exists resized out,
    @resize_with_aspect sample_extern (solid 100 100 red_px) 0 (-5) "cover"
    = Ok resized /\
    1 <= width resized /\ 1 <= height resized /\
    fst (run (@render_one_rect_pixels sample_extern sample_fs "mockup.png"
                "design.png" 500 400 0 (-5) (Fin 0) "cover" (Fin 1) "normal"))
    = Ok out.
Proof.
  destruct (@non_positive_target_is_clamped sample_extern sample_fs "mockup.png"
              "design.png" (solid 1000 800 gray) (solid 100 100 red_px)
              500 400 0 (-5) (Fin 0) "cover" (Fin 1) "normal"
              eq_refl eq_refl
              ltac:(cbv; split; [discriminate|reflexivity])
              ltac:(cbv; split; [discriminate|reflexivity])
              ltac:(cbv; discriminate) ltac:(cbv; discriminate)
              ltac:(cbv; discriminate) ltac:(cbv; discriminate)
              sample_rotation_keeps_sizes)
    as (resized & out & E1 & Hw & Hh & _ & E2 & _).
  exists resized, out. split; [exact E1|]. split; [exact Hw|]. split; [exact Hh|].
  rewrite E2. reflexivity.
Defined.

(* ================================================================== *)
(** * Validation and file access *)
(* ================================================================== *)

Section Validation.
Context `{Extern}.

Lemma eqb_false (a b : string) : a <> b -> String.eqb a b = false.
Proof. intros Hne. apply String.eqb_neq. exact Hne. Qed.

Lemma from_dict_unsupported_mode (data : list (string * json)) (m : string) :
  dict_get data "mode" (JStr "rect") = JStr m -> unsupported (lower m) ->
  from_dict data = Raise ValueError.
Proof.
  intros Hm [Hr Hp]. unfold from_dict. rewrite Hm. cbn [py_lower bind].
  rewrite (eqb_false _ _ Hr), (eqb_false _ _ Hp). reflexivity.
Qed.

Lemma from_dict_quad_length (data p : list (string * json)) (m : string)
  (quad : list json) :
  dict_get data "mode" (JStr "rect") = JStr m -> lower m = "perspective" ->
  dict_get data "placement" (JDict []) = JDict p ->
  dict_get p "quad_norm" JNull = JList quad ->
  List.length quad <> 4%nat ->
  from_dict data = Raise ValueError.
Proof.
  intros Hm Hl Hp Hq Hn. unfold from_dict. rewrite Hm. cbn [py_lower bind].
  rewrite Hl. cbn [String.eqb Ascii.eqb Bool.eqb]. rewrite Hp. cbv zeta.
  cbn [get bind]. rewrite Hq.
  destruct quad as [|q0 quad]; [reflexivity|].
  cbn [truthy negb py_len bind orb].
  replace (Z.of_nat (List.length (q0 :: quad)) =? 4) with false
    by (symmetry; apply Z.eqb_neq; lia).
  reflexivity.
Qed.

Lemma from_dict_quad_missing (data p : list (string * json)) (m : string) :
  dict_get data "mode" (JStr "rect") = JStr m -> lower m = "perspective" ->
  dict_get data "placement" (JDict []) = JDict p ->
  dict_get p "quad_norm" JNull = JNull ->
  from_dict data = Raise ValueError.
Proof.
  intros Hm Hl Hp Hq. unfold from_dict. rewrite Hm. cbn [py_lower bind].
  rewrite Hl. cbn [String.eqb Ascii.eqb Bool.eqb]. rewrite Hp. cbv zeta.
  cbn [get bind]. rewrite Hq. reflexivity.
Qed.

Lemma cmd_preview_rejected (fs : FileSystem) (data : list (string * json))
  (mockup_path design_path : string) (e : exn) :
  from_dict data = Raise e ->
  run (cmd_preview fs data mockup_path design_path) = (Raise e, []).
Proof.
  intros E. unfold run, cmd_preview, io_bind, lift. rewrite E. reflexivity.
Qed.

Lemma render_one_trace (fs : FileSystem) (mockup_path design_path : string)
  (config : RenderConfig) :
  run (render_one fs mockup_path design_path config) =
  match fs mockup_path, fs design_path with
  | None, _ => (Raise OSError, [Opened mockup_path])
  | Some _, None => (Raise OSError, [Opened mockup_path; Opened design_path])
  | Some mockup, Some design =>
      (render_loaded mockup design config, [Opened mockup_path; Opened design_path])
  end.
Proof.
  unfold run, render_one, io_bind, open_rgba, lift.
  destruct (fs mockup_path); [|reflexivity].
  destruct (fs design_path); reflexivity.
Qed.

Lemma render_loaded_unsupported (mockup design : Raster) (config : RenderConfig) :
  unsupported (mode config) -> render_loaded mockup design config = Raise ValueError.
Proof.
  intros [Hr Hp]. unfold render_loaded. cbv zeta.
  rewrite (eqb_false _ _ Hr), (eqb_false _ _ Hp). reflexivity.
Qed.

(** C8, as the code has it.  The validation is the configuration parser's:
    [from_dict] raises [ValueError] for a mode other than rect and
    perspective, and for a perspective placement whose [quad_norm] is
    missing or is a list of a length other than 4, and the config-driven
    command then opens no file.  [render_one] opens the mockup and then the
    design before it looks at the mode: a file that cannot be read raises
    [OSError] at its open, whatever the configuration, an unsupported mode
    raises [ValueError] once both files are open, and no path is opened
    twice. *)
Theorem validation_precedes_decoding_in_from_dict
  (fs : FileSystem) (mockup_path design_path : string) :
  (forall data m,
     dict_get data "mode" (JStr "rect") = JStr m -> unsupported (lower m) ->
     from_dict data = Raise ValueError /\
     fails_fast (run (cmd_preview fs data mockup_path design_path))) /\
  (forall data p m quad,
     dict_get data "mode" (JStr "rect") = JStr m -> lower m = "perspective" ->
     dict_get data "placement" (JDict []) = JDict p ->
     dict_get p "quad_norm" JNull = quad ->
     quad = JNull \/ (exists l, quad = JList l /\ List.length l <> 4%nat) ->
     from_dict data = Raise ValueError /\
     fails_fast (run (cmd_preview fs data mockup_path design_path))) /\
  (forall config,
     fs mockup_path = None ->
     run (render_one fs mockup_path design_path config)
     = (Raise OSError, [Opened mockup_path])) /\
  (forall config mockup,
     fs mockup_path = Some mockup -> fs design_path = None ->
     run (render_one fs mockup_path design_path config)
     = (Raise OSError, [Opened mockup_path; Opened design_path])) /\
  (forall config mockup design,
     fs mockup_path = Some mockup -> fs design_path = Some design ->
     unsupported (mode config) ->
     run (render_one fs mockup_path design_path config)
     = (Raise ValueError, [Opened mockup_path; Opened design_path])) /\
  (forall config,
     let trace := snd (run (render_one fs mockup_path design_path config)) in
     trace = [Opened mockup_path] \/ trace = [Opened mockup_path; Opened design_path]).
Proof.
  split; [|split; [|split; [|split; [|split]]]].
  - intros data m Hm Hu.
    pose proof (from_dict_unsupported_mode data m Hm Hu) as E.
    split; [exact E|]. apply cmd_preview_rejected. exact E.
  - intros data p m quad Hm Hl Hp Hq Hbad.
    assert (E : from_dict data = Raise ValueError).
    { destruct Hbad as [->|(l & -> & Hn)].
      - exact (from_dict_quad_missing data p m Hm Hl Hp Hq).
      - exact (from_dict_quad_length data p m l Hm Hl Hp Hq Hn). }
    split; [exact E|]. apply cmd_preview_rejected. exact E.
  - intros config Hm. rewrite render_one_trace, Hm. reflexivity.
  - intros config mockup Hm Hd. rewrite render_one_trace, Hm, Hd. reflexivity.
  - intros config mockup design Hm Hd Hu.
    rewrite render_one_trace, Hm, Hd, render_loaded_unsupported by exact Hu.
    reflexivity.
  - intros config. cbv zeta. rewrite render_one_trace.
    destruct (fs mockup_path); [|left; reflexivity].
    destruct (fs design_path); right; reflexivity.
Qed.

End Validation.

(** C8 as stated fails on [render_one]: with an unsupported mode it opens
    both files before it raises, with an unreadable mockup it raises
    [OSError] and never reaches the validation, and it takes a quad of five
    points (the fifth is ignored) or of three (an [IndexError], with both
    files open). *)
Lemma render_one_validates_after_opening :
  run (@render_one sample_extern sample_fs "mockup.png" "design.png" foo_config)
    = (Raise ValueError, [Opened "mockup.png"; Opened "design.png"]) /\
  run (@render_one sample_extern sample_fs "missing.png" "design.png" foo_config)
    = (Raise OSError, [Opened "missing.png"]) /\
  (exists out,
     run (@render_one sample_extern sample_fs "mockup.png" "design.png" five_points)
     = (Ok out, [Opened "mockup.png"; Opened "design.png"])) /\
  run (@render_one sample_extern sample_fs "mockup.png" "design.png" three_points)
    = (Raise IndexError, [Opened "mockup.png"; Opened "design.png"]) /\
  ~ (forall fs mockup_path design_path config,
       unsupported (mode config) \/
       (exists pp, placement config = Perspective pp /\
                   List.length (quad_norm pp) <> 4%nat) ->
       fails_fast (run (@render_one sample_extern fs mockup_path design_path config))).
Proof.
  split; [vm_compute; reflexivity|].
  split; [vm_compute; reflexivity|].
  split.
  { rewrite render_one_trace. cbn [sample_fs String.eqb Ascii.eqb Bool.eqb].
    assert (Hok : is_ok (@render_loaded sample_extern (solid 1000 800 gray)
                           (solid 100 100 red_px) five_points) = true)
      by (vm_compute; reflexivity).
    destruct (is_ok_Ok _ Hok) as [out E]. exists out. rewrite E. reflexivity. }
  split; [vm_compute; reflexivity|].
  intros Hall.
  specialize (Hall sample_fs "mockup.png" "design.png" foo_config).
  assert (Hu : unsupported (mode foo_config)) by (split; discriminate).
  specialize (Hall (or_introl Hu)). unfold fails_fast in Hall.
  rewrite render_one_trace in Hall. vm_compute in Hall. discriminate Hall.
Qed.

Lemma validation_precedes_decoding_in_from_dict_witness :
  @from_dict sample_extern [("mode", JStr "Foo")] = Raise ValueError /\
  fails_fast (run (@cmd_preview sample_extern sample_fs [("mode", JStr "Foo")]
                     "mockup.png" "design.png")) /\
  fails_fast (run (@cmd_preview sample_extern sample_fs
                     [("mode", JStr "perspective");
                      ("placement", JDict [("quad_norm", JList [JNull; JNull; JNull])])]
                     "mockup.png" "design.png")) /\
  run (@render_one sample_extern sample_fs "mockup.png" "design.png" foo_config)
    = (Raise ValueError, [Opened "mockup.png"; Opened "design.png"]).
Proof.
  destruct (@validation_precedes_decoding_in_from_dict sample_extern sample_fs
              "mockup.png" "design.png") as (Hmode & Hquad & _ & _ & Hrender & _).
  destruct (Hmode [("mode", JStr "Foo")] "Foo" eq_refl
              ltac:(split; vm_compute; discriminate)) as [E1 E2].
  destruct (Hquad [("mode", JStr "perspective");
                   ("placement", JDict [("quad_norm", JList [JNull; JNull; JNull])])]
              [("quad_norm", JList [JNull; JNull; JNull])] "perspective"
              (JList [JNull; JNull; JNull]) eq_refl eq_refl eq_refl eq_refl
              ltac:(right; exists [JNull; JNull; JNull]; split;
                    [reflexivity|cbn; discriminate])) as [_ E3].
  split; [exact E1|]. split; [exact E2|]. split; [exact E3|].
  exact (Hrender foo_config (solid 1000 800 gray) (solid 100 100 red_px)
           eq_refl eq_refl ltac:(split; discriminate)).
Defined.

(* ================================================================== *)
(** * Opacity zero through the entry points *)
(* ================================================================== *)

Section OpacityZeroEntry.
Context `{Extern}.

(** C2. With opacity 0 the engine returns the background.  Whenever the
    call returns a raster, in either mode and under any blend mode, that
    raster has the size of the mockup and each of its pixels is the
    mockup's pixel, all four channels.  And the call does return one: in
    rect mode when the resolved geometry and the design's size are C
    integers, in perspective mode on a quad of four points. *)
Theorem opacity_zero_returns_background
  (fs : FileSystem) (mockup_path design_path : string) (config : RenderConfig) :
  (forall out,
     fst (run (render_one fs mockup_path design_path (with_opacity config (Fin 0))))
     = Ok out ->
     exists background, fs mockup_path = Some background /\ same_raster out background) /\
  (forall background design rp cx cy tw th,
     fs mockup_path = Some background -> fs design_path = Some design ->
     mode config = "rect" -> placement config = Rect rp ->
     resolve_rect rp (width background) (height background) = Ok (cx, cy, tw, th) ->
     pixel_int cx -> pixel_int cy -> pixel_int tw -> pixel_int th ->
     size_ok (width design) -> size_ok (height design) -> rotation_keeps_sizes ->
     exists out,
       run (render_one fs mockup_path design_path (with_opacity config (Fin 0)))
       = (Ok out, [Opened mockup_path; Opened design_path]) /\
       same_raster out background) /\
  (forall background design pp,
     fs mockup_path = Some background -> fs design_path = Some design ->
     mode config = "perspective" -> placement config = Perspective pp ->
     List.length (quad_norm pp) = 4%nat ->
     pixel_int (width background) -> pixel_int (height background) ->
     exists out,
       run (render_one fs mockup_path design_path (with_opacity config (Fin 0)))
       = (Ok out, [Opened mockup_path; Opened design_path]) /\
       same_raster out background).
Proof.
  split; [|split].
  - intros out. rewrite render_one_trace.
    destruct (fs mockup_path) as [mockup|]; [|discriminate].
    destruct (fs design_path) as [design|]; [|discriminate].
    cbn [fst]. intros E. exists mockup. split; [reflexivity|].
    exact (render_loaded_opacity_zero mockup design out config E).
  - intros background design rp cx cy tw th Hm Hd Hmode Hplace Hres
           Hcx Hcy Htw Hth Hsw Hsh Hrot.
    rewrite render_one_trace, Hm, Hd.
    destruct (rect_pipeline_total background design cx cy tw th (rotation_deg rp)
                (maintain_aspect config) (Fin 0) (blend_mode config)
                Hsw Hsh Hcx Hcy Htw Hth Hrot)
      as (resized & out & Eres & _ & _ & _ & Eout & _).
    assert (E : render_loaded background design (with_opacity config (Fin 0)) = Ok out).
    { rewrite (render_loaded_rect background design (with_opacity config (Fin 0))
                 rp cx cy tw th Hmode Hplace Hres).
      cbn [with_opacity maintain_aspect opacity blend_mode].
      rewrite Eres. cbn [bind]. cbv zeta. exact Eout. }
    exists out. rewrite E. split; [reflexivity|].
    exact (render_loaded_opacity_zero background design out config E).
  - intros background design pp Hm Hd Hmode Hplace Hlen Hw Hh.
    rewrite render_one_trace, Hm, Hd.
    destruct (render_loaded_perspective_total background design
                (with_opacity config (Fin 0)) pp Hmode Hplace ltac:(lia) Hw Hh)
      as (out & E & _).
    exists out. rewrite E. split; [reflexivity|].
    exact (render_loaded_opacity_zero background design out config E).
Qed.

End OpacityZeroEntry.

Lemma sample_geometry :
  resolve_rect sample_rect 1000 800 = Ok (500, 400, 100, 80).
Proof. vm_compute. reflexivity. Qed.

Lemma size_ok_100 : size_ok 100.
Proof. unfold size_ok. lia. Qed.

Lemma opacity_zero_returns_background_witness :
  (exists out,
     run (@render_one sample_extern sample_fs "mockup.png" "design.png"
            (with_opacity sample_config (Fin 0)))
     = (Ok out, [Opened "mockup.png"; Opened "design.png"]) /\
     same_raster out (solid 1000 800 gray)) /\
  (exists out,
     run (@render_one sample_extern sample_fs "mockup.png" "design.png"
            (with_opacity four_points (Fin 0)))
     = (Ok out, [Opened "mockup.png"; Opened "design.png"]) /\
     same_raster out (solid 1000 800 gray)).
Proof.
  split.
  - exact (proj1 (proj2 (@opacity_zero_returns_background sample_extern sample_fs
                           "mockup.png" "design.png" sample_config))
             (solid 1000 800 gray) (solid 100 100 red_px) sample_rect 500 400 100 80
             eq_refl eq_refl eq_refl eq_refl sample_geometry
             ltac:(unfold pixel_int; lia) ltac:(unfold pixel_int; lia)
             ltac:(unfold pixel_int; lia) ltac:(unfold pixel_int; lia)
             size_ok_100 size_ok_100 sample_rotation_keeps_sizes).
  - exact (proj2 (proj2 (@opacity_zero_returns_background sample_extern sample_fs
                           "mockup.png" "design.png" four_points))
             (solid 1000 800 gray) (solid 100 100 red_px)
             {| quad_norm := [corner (1 # 10) (1 # 10); corner (9 # 10) (1 # 10);
                              corner (9 # 10) (9 # 10); corner (1 # 10) (9 # 10)] |}
             eq_refl eq_refl eq_refl eq_refl eq_refl
             ltac:(unfold pixel_int; cbn [solid width]; lia)
             ltac:(unfold pixel_int; cbn [solid height]; lia)).
Defined.

(* ================================================================== *)
(** * Parsed configurations *)
(* ================================================================== *)

Lemma lower_ascii_idempotent (c : ascii) : lower_ascii (lower_ascii c) = lower_ascii c.
Proof.
  assert (Hall : forallb (fun n => Ascii.eqb (lower_ascii (lower_ascii (ascii_of_nat n)))
                                             (lower_ascii (ascii_of_nat n)))
                         (seq 0 256) = true) by (vm_compute; reflexivity).
  rewrite forallb_forall in Hall.
  specialize (Hall (nat_of_ascii c)).
  rewrite ascii_nat_embedding in Hall. apply Ascii.eqb_eq. apply Hall.
  apply in_seq. pose proof (nat_ascii_bounded c). lia.
Qed.

Lemma lower_idempotent (s : string) : lower (lower s) = lower s.
Proof.
  induction s as [|c s IH]; [reflexivity|].
  cbn [lower]. rewrite lower_ascii_idempotent, IH. reflexivity.
Qed.

(** Take the value of the first call that is not itself a sequence. *)
Ltac bind_leaf :=
  match goal with
  | |- context [bind ?m _] =>
      lazymatch m with
      | bind _ _ => fail
      | _ => destruct m as [?|]; cbn [bind]; [|discriminate]
      end
  end.

Section Parsing.
Context `{Extern}.

Lemma quad_typed_length (items : list json) (q : list (float * float)) :
  quad_typed items = Ok q -> List.length q = List.length items.
Proof.
  revert q. induction items as [|item rest IH]; intros q E.
  - injection E as <-. reflexivity.
  - cbn [quad_typed] in E.
    destruct (unpack2 item) as [xy|]; [|discriminate].
    cbn [bind] in E.
    destruct (py_float (fst xy)) as [x|]; [|discriminate]. cbn [bind] in E.
    destruct (py_float (snd xy)) as [y|]; [|discriminate]. cbn [bind] in E.
    destruct (quad_typed rest) as [tl|]; [|discriminate]. cbn [bind] in E.
    injection E as <-. cbn [List.length]. rewrite (IH tl eq_refl). reflexivity.
Qed.

(** [len(v)] counts what iterating over [v] yields. *)
Lemma py_len_iter (v : json) (n : Z) (items : list json) :
  py_len v = Ok n -> py_iter v = Ok items -> n = Z.of_nat (List.length items).
Proof.
  destruct v; cbn [py_len py_iter]; try discriminate;
    intros En Ei; injection En as <-; injection Ei as <-.
  - rewrite length_map. f_equal. clear. induction s as [|c s IH]; [reflexivity|].
    cbn [String.length list_ascii_of_string List.length]. rewrite IH. reflexivity.
  - reflexivity.
  - rewrite length_map. reflexivity.
Qed.

Lemma dict_get_absent (data : list (string * json)) (key : string) (default : json) :
  absent data key -> dict_get data key default = default.
Proof. unfold absent, dict_get. intros ->. reflexivity. Qed.

Lemma parsed_config_well_formed (data : list (string * json)) (config : RenderConfig) :
  from_dict data = Ok config -> well_formed config.
Proof.
  unfold from_dict, well_formed.
  destruct (py_lower (dict_get data "mode" (JStr "rect"))) as [m|]; [|discriminate].
  cbn [bind].
  destruct (String.eqb_spec m "rect") as [->|Hr].
  - cbv zeta. repeat bind_leaf.
    intros E. injection E as <-. cbn [mode placement blend_mode maintain_aspect].
    split; [left; split; [reflexivity|eexists; reflexivity]|].
    split; apply lower_idempotent.
  - destruct (String.eqb_spec m "perspective") as [->|Hp]; [|discriminate].
    cbv zeta.
    destruct (get (dict_get data "placement" (JDict [])) "quad_norm" JNull)
      as [quad|]; [|discriminate].
    cbn [bind].
    destruct (truthy quad); cbn [negb orb]; [|discriminate].
    destruct (py_len quad) as [n|] eqn:En; [|discriminate]. cbn [bind].
    destruct (Z.eqb_spec n 4) as [->|Hn]; cbn [negb]; [|discriminate].
    destruct (py_iter quad) as [items|] eqn:Ei; [|discriminate]. cbn [bind].
    destruct (quad_typed items) as [q|] eqn:Eq; [|discriminate]. cbn [bind].
    bind_leaf.
    intros E. injection E as <-. cbn [mode placement blend_mode maintain_aspect].
    split; [|split; apply lower_idempotent].
    right. split; [reflexivity|]. eexists. split; [reflexivity|].
    cbn [quad_norm]. rewrite (quad_typed_length _ _ Eq).
    pose proof (py_len_iter _ _ _ En Ei). lia.
Qed.

(** X1. A configuration that [from_dict] returns is well formed: its mode
    is rect with a rect placement or perspective with a quad of exactly
    four points, and its blend mode and aspect policy are in lower case. *)
Theorem from_dict_well_formed (data : list (string * json)) (config : RenderConfig) :
  from_dict data = Ok config -> well_formed config.
Proof. exact (parsed_config_well_formed data config). Qed.

(** X2. A document without the keys mode, placement, blend_mode, opacity
    and maintain_aspect parses to the default configuration: a centered
    rect placement of half the mockup's size, unrotated, blended normally
    at full opacity under the contain policy. *)
Theorem from_dict_defaults (data : list (string * json)) :
  absent data "mode" -> absent data "placement" -> absent data "blend_mode" ->
  absent data "opacity" -> absent data "maintain_aspect" ->
  from_dict data = Ok default_config.
Proof.
  intros Hm Hp Hb Ho Ha. unfold from_dict.
  rewrite !(dict_get_absent data _ _ Hm), !(dict_get_absent data _ _ Hp),
    !(dict_get_absent data _ _ Hb), !(dict_get_absent data _ _ Ho),
    !(dict_get_absent data _ _ Ha).
  reflexivity.
Qed.

End Parsing.

Lemma from_dict_well_formed_witness :
  well_formed default_config.
Proof.
  exact (@from_dict_well_formed sample_extern [] default_config eq_refl).
Defined.

Lemma from_dict_defaults_witness :
  @from_dict sample_extern [("note", JStr "draft")] = Ok default_config.
Proof.
  exact (@from_dict_defaults sample_extern [("note", JStr "draft")]
           eq_refl eq_refl eq_refl eq_refl eq_refl).
Defined.

(* ================================================================== *)
(** * Sizes of the results *)
(* ================================================================== *)

Lemma blend_normal_size (base overlay out : Raster) :
  blend_normal base overlay = Ok out ->
  width out = width base /\ height out = height base.
Proof.
  unfold blend_normal, Pillow.alpha_composite.
  destruct ((width base =? width overlay) && (height base =? height overlay));
    [|discriminate].
  intros E. injection E as <-. split; reflexivity.
Qed.

Lemma blend_choice_size (mockup overlay out : Raster) (bm : string) :
  width overlay = width mockup -> height overlay = height mockup ->
  (if String.eqb bm "normal" then blend_normal mockup overlay
   else if mem bm numpy_modes then blend_numpy mockup overlay bm
   else blend_normal mockup overlay) = Ok out ->
  width out = width mockup /\ height out = height mockup.
Proof.
  intros Hw Hh.
  destruct (String.eqb bm "normal"); [apply blend_normal_size|].
  destruct (mem bm numpy_modes); [|apply blend_normal_size].
  destruct (blend_numpy_same_size mockup overlay bm Hw Hh) as (o & -> & Ew & Eh).
  intros E. injection E as <-. split; assumption.
Qed.

Lemma paste_overlay_size (mockup overlay out : Raster) (c : Z * Z) (bm : string) :
  paste_overlay mockup overlay c bm = Ok out ->
  width out = width mockup /\ height out = height mockup.
Proof.
  unfold paste_overlay. destruct c as [cx cy]. cbv zeta.
  bind_ok. bind_ok. apply blend_choice_size; reflexivity.
Qed.

Section Sizes.
Context `{Extern}.

Lemma render_loaded_size (mockup design out : Raster) (config : RenderConfig) :
  render_loaded mockup design config = Ok out ->
  width out = width mockup /\ height out = height mockup.
Proof.
  unfold render_loaded. cbv zeta.
  destruct (String.eqb (mode config) "rect").
  - destruct (placement config) as [rp|pp]; [|discriminate].
    repeat bind_leaf. apply paste_overlay_size.
  - destruct (String.eqb (mode config) "perspective"); [|discriminate].
    destruct (placement config) as [rp|pp]; [discriminate|].
    repeat bind_leaf.
    match goal with
    | |- context [apply_opacity ?w ?o] =>
        destruct (apply_opacity_size w o) as [Ew Eh]; cbn [width height] in Ew, Eh;
        generalize dependent (apply_opacity w o)
    end.
    intros overlay Ew Eh. apply blend_choice_size; assumption.
Qed.

(** X3. Whatever the configuration, a render that returns gives a raster
    of exactly the mockup's size: through [render_one] in both modes and
    through [render_one_rect_pixels], under every blend mode. *)
Theorem render_keeps_mockup_size (fs : FileSystem) (mockup_path design_path : string) :
  (forall config out,
     fst (run (render_one fs mockup_path design_path config)) = Ok out ->
     exists mockup, fs mockup_path = Some mockup /\
       width out = width mockup /\ height out = height mockup) /\
  (forall cx cy tw th rot aspect opacity bm out,
     fst (run (render_one_rect_pixels fs mockup_path design_path cx cy tw th rot
                 aspect opacity bm)) = Ok out ->
     exists mockup, fs mockup_path = Some mockup /\
       width out = width mockup /\ height out = height mockup).
Proof.
  split.
  - intros config out. rewrite render_one_trace.
    destruct (fs mockup_path) as [mockup|]; [|discriminate].
    destruct (fs design_path) as [design|]; [|discriminate].
    cbn [fst]. intros E. exists mockup. split; [reflexivity|].
    exact (render_loaded_size mockup design out config E).
  - intros cx cy tw th rot aspect opacity bm out.
    unfold run, render_one_rect_pixels, io_bind, open_rgba, lift.
    destruct (fs mockup_path) as [mockup|]; [|discriminate].
    destruct (fs design_path) as [design|]; [|discriminate].
    cbn [fst]. bind_leaf. cbv zeta. intros E. exists mockup. split; [reflexivity|].
    exact (paste_overlay_size _ _ _ _ _ E).
Qed.

(** X4. A perspective document that [from_dict] accepts renders: with
    both files readable and a mockup whose sides are C integers,
    [cmd_preview] returns a raster of the mockup's size after opening the
    mockup and the design once each.  No index error can arise, since the
    parsed quad has four points. *)
Theorem parsed_perspective_renders
  (fs : FileSystem) (data : list (string * json)) (config : RenderConfig)
  (mockup_path design_path : string) (mockup design : Raster) :
  from_dict data = Ok config -> mode config = "perspective" ->
  fs mockup_path = Some mockup -> fs design_path = Some design ->
  pixel_int (width mockup) -> pixel_int (height mockup) ->
  exists out,
    run (cmd_preview fs data mockup_path design_path)
    = (Ok out, [Opened mockup_path; Opened design_path]) /\
    width out = width mockup /\ height out = height mockup.
Proof.
  intros Eparse Hmode Hm Hd Hw Hh.
  destruct (parsed_config_well_formed data config Eparse) as [[[Hr _]|[_ Hp]] _].
  - rewrite Hmode in Hr. discriminate.
  - destruct Hp as (pp & Hplace & Hlen).
    destruct (render_loaded_perspective_total mockup design config pp Hmode Hplace
                ltac:(lia) Hw Hh) as (out & E & Hsize).
    exists out. split; [|exact Hsize].
    unfold cmd_preview, run, io_bind, lift. rewrite Eparse.
    change (render_one fs mockup_path design_path config [])
      with (run (render_one fs mockup_path design_path config)).
    rewrite render_one_trace, Hm, Hd, E. reflexivity.
Qed.

End Sizes.

Lemma render_keeps_mockup_size_witness :
  exists out,
    fst (run (@render_one sample_extern sample_fs "mockup.png" "design.png"
                sample_config)) = Ok out /\
    width out = 1000 /\ height out = 800.
Proof.
  assert (Hok : is_ok (fst (run (@render_one sample_extern sample_fs "mockup.png"
                  "design.png" sample_config))) = true) by (vm_compute; reflexivity).
  destruct (is_ok_Ok _ Hok) as [out E]. exists out. split; [exact E|].
  destruct (proj1 (@render_keeps_mockup_size sample_extern sample_fs "mockup.png"
                     "design.png") sample_config out E) as (mockup & Em & Hw & Hh).
  injection Em as <-. split; assumption.
Defined.

Lemma perspective_doc_parses : is_ok (@from_dict sample_extern perspective_doc) = true.
Proof. vm_compute. reflexivity. Qed.

Lemma parsed_perspective_renders_witness :
  exists out,
    run (@cmd_preview sample_extern sample_fs perspective_doc "mockup.png" "design.png")
    = (Ok out, [Opened "mockup.png"; Opened "design.png"]) /\
    width out = 1000 /\ height out = 800.
Proof.
  destruct (is_ok_Ok _ perspective_doc_parses) as [config E].
  assert (Hmode : mode config = "perspective").
  { assert (Hm : match @from_dict sample_extern perspective_doc with
                 | Ok c => mode c | Raise _ => "" end = "perspective")
      by (vm_compute; reflexivity).
    rewrite E in Hm. exact Hm. }
  exact (@parsed_perspective_renders sample_extern sample_fs perspective_doc config
           "mockup.png" "design.png" (solid 1000 800 gray) (solid 100 100 red_px)
           E Hmode eq_refl eq_refl
           ltac:(unfold pixel_int; cbn [solid width]; lia)
           ltac:(unfold pixel_int; cbn [solid height]; lia)).
Defined.

(* ================================================================== *)
(** * Opacity and resizing at the edges *)
(* ================================================================== *)

(** ** Rounding between bounds *)

Lemma rnd_nonneg (fmt : format) (x : Q) :
  1 <= prec fmt -> (0 <= x)%Q -> (0 <= rnd fmt x)%Q.
Proof.
  intros Hp Hx. destruct (Qeq_dec x 0) as [E|Hne].
  - rewrite (rnd_zero fmt x E). apply Qle_refl.
  - assert (Hpos : (0 < x)%Q).
    { destruct (Qlt_le_dec 0 x) as [|Hle]; [assumption|].
      exfalso. apply Hne. apply Qle_antisym; assumption. }
    rewrite (rnd_pos_form fmt x Hpos).
    apply Qmult_le_0_compat; [|apply Qlt_le_weak, pow2_pos].
    change 0%Q with (inject_Z 0). rewrite <- Zle_Qle.
    rewrite <- (rne_inject_Z 0). apply rne_mono.
    apply Qle_shift_div_l; [apply pow2_pos|].
    change (inject_Z 0) with 0%Q. rewrite Qmult_0_l. assumption.
Qed.

(** Rounding does not step over a number of the format. *)
Lemma rnd_le_exact (fmt : format) (x y : Q) :
  1 <= prec fmt -> (0 <= x)%Q -> (x <= y)%Q -> (rnd fmt y == y)%Q ->
  (rnd fmt x <= y)%Q.
Proof.
  intros Hp H0 Hxy Hy. destruct (Qeq_dec x 0) as [E|Hne].
  - rewrite (rnd_zero fmt x E). eapply Qle_trans; eassumption.
  - assert (Hpos : (0 < x)%Q).
    { destruct (Qlt_le_dec 0 x) as [|Hle]; [assumption|].
      exfalso. apply Hne. apply Qle_antisym; assumption. }
    rewrite <- Hy. apply (rnd_mono_pos fmt Hp); assumption.
Qed.

Lemma rnd32_byte (b : byte) :
  (rnd binary32 (inject_Z (b2z b)) == inject_Z (b2z b))%Q.
Proof.
  apply Qeq_bool_eq.
  apply (forall_bytes (fun z => Qeq_bool (rnd binary32 (inject_Z z)) (inject_Z z))).
  vm_compute. reflexivity.
Qed.

Lemma rnd32_one : (rnd binary32 1 == 1)%Q.
Proof. vm_compute. reflexivity. Qed.

Lemma Qfloor_between (v : Q) (n : Z) :
  (0 <= v)%Q -> (v <= inject_Z n)%Q -> 0 <= Qfloor v <= n.
Proof.
  intros H0 Hn. split.
  - rewrite <- (Qfloor_Z 0). apply Qfloor_resp_le. assumption.
  - rewrite <- (Qfloor_Z n). apply Qfloor_resp_le. assumption.
Qed.

(** The alpha channel after scaling by an opacity in [0, 1]. *)
Lemma scaled_alpha_le (a : byte) (q : Q) :
  (0 <= q)%Q -> (q <= 1)%Q ->
  b2z (Np.astype_uint8
         (Np.clip (fmul binary32 (Np.of_u8 a) (cast binary32 (Fin q)))
                  (Np.scalar 0) (Np.scalar 255))) <= b2z a.
Proof.
  intros H0 H1. pose proof (b2z_range a) as Ha.
  assert (Hq0 : (0 <= rnd binary32 q)%Q) by (apply rnd_nonneg; [b32|assumption]).
  assert (Hq1 : (rnd binary32 q <= 1)%Q)
    by (apply rnd_le_exact; [b32|assumption|assumption|exact rnd32_one]).
  assert (Ecast : cast binary32 (Fin q) = Fin (rnd binary32 q)).
  { cbn [cast]. apply round_q_finite.
    apply Qle_lt_trans with 1%Q; [|reflexivity].
    apply Qabs_le_intro. split; [|assumption].
    apply Qle_trans with 0%Q; [discriminate|assumption]. }
  rewrite Ecast. unfold Np.of_u8. cbn [fmul].
  set (A := inject_Z (b2z a)).
  assert (HA0 : (0 <= A)%Q) by (unfold A; rewrite <- (Zle_Qle 0); lia).
  assert (HA255 : (A <= 255)%Q)
    by (unfold A; change 255%Q with (inject_Z 255); rewrite <- Zle_Qle; lia).
  set (p := (A * rnd binary32 q)%Q).
  assert (Hp0 : (0 <= p)%Q) by (apply Qmult_le_0_compat; assumption).
  assert (HpA : (p <= A)%Q).
  { unfold p. rewrite (Qmult_comm A). rewrite <- (Qmult_1_l A) at 2.
    apply Qmult_le_compat_r; assumption. }
  assert (Hv0 : (0 <= rnd binary32 p)%Q) by (apply rnd_nonneg; [b32|assumption]).
  assert (HvA : (rnd binary32 p <= A)%Q)
    by (apply rnd_le_exact; [b32|assumption|assumption|apply rnd32_byte]).
  assert (Emul : round_q binary32 p = Fin (rnd binary32 p)).
  { apply round_q_finite.
    apply Qle_lt_trans with 255%Q; [|reflexivity].
    apply Qabs_le_intro. split; [|eapply Qle_trans; eassumption].
    apply Qle_trans with 0%Q; [discriminate|assumption]. }
  rewrite Emul. set (v := rnd binary32 p) in *.
  unfold Np.clip. rewrite scalar_0, scalar_255.
  assert (Emax : Np.maximum (Fin v) (Fin 0) = Fin v).
  { unfold Np.maximum, flt. rewrite (proj2 (Qle_bool_iff 0 v) Hv0). reflexivity. }
  rewrite Emax.
  assert (Emin : Np.minimum (Fin v) (Fin 255) = Fin v).
  { unfold Np.minimum, flt.
    rewrite (proj2 (Qle_bool_iff v 255) (Qle_trans _ _ _ HvA HA255)). reflexivity. }
  rewrite Emin. cbn [Np.astype_uint8]. unfold Np.Qtrunc.
  rewrite (proj2 (Qle_bool_iff 0 v) Hv0).
  pose proof (Qfloor_between v (b2z a) Hv0 HvA) as Hf.
  rewrite b2z_z2b by lia. lia.
Qed.

(** Clamping keeps an opacity at or above the threshold there. *)
Lemma opacity_threshold (opacity : float) :
  fle (lit binary64 (999 # 1000)) opacity = true ->
  fle (lit binary64 (999 # 1000)) (clamp_opacity opacity) = true.
Proof.
  assert (Et : exists c, lit binary64 (999 # 1000) = Fin c /\ (0 < c)%Q /\ (c <= 1)%Q).
  { exists (rnd binary64 (999 # 1000)).
    split; [vm_compute; reflexivity|].
    split; vm_compute; [reflexivity|discriminate]. }
  destruct Et as (c & -> & Hc0 & Hc1).
  unfold clamp_opacity, Py.max, Py.min.
  destruct opacity as [|s|q]; cbn [fle flt].
  - discriminate.
  - destruct s; [discriminate|]. intros _. cbn [negb Qle_bool].
    change (Qle_bool 1 0) with false. cbn [negb fle].
    apply Qle_bool_iff. assumption.
  - intros Hq. apply Qle_bool_iff in Hq.
    destruct (Qle_bool 1 q) eqn:E1; cbn [negb flt].
    + change (Qle_bool 1 0) with false. cbn [negb fle].
      apply Qle_bool_iff. assumption.
    + destruct (Qle_bool q 0) eqn:E0; cbn [negb fle].
      * apply Qle_bool_iff in E0. exfalso. lra.
      * apply Qle_bool_iff. assumption.
Qed.

Section EdgeCases.
Context `{Extern}.

(** X5. [apply_opacity] keeps the size and the colour channels of every
    pixel and never raises its alpha; at an opacity of 0.999 or more it
    returns the image itself. *)
Theorem apply_opacity_only_lowers_alpha (img : Raster) (opacity : float) :
  width (apply_opacity img opacity) = width img /\
  height (apply_opacity img opacity) = height img /\
  (forall x y,
     let p := px img x y in
     let p' := px (apply_opacity img opacity) x y in
     red p' = red p /\ green p' = green p /\ blue p' = blue p /\
     b2z (alpha p') <= b2z (alpha p)) /\
  (fle (lit binary64 (999 # 1000)) opacity = true -> apply_opacity img opacity = img).
Proof.
  split; [apply apply_opacity_size|]. split; [apply apply_opacity_size|]. split.
  - intros x y. cbv zeta. unfold apply_opacity. cbv zeta.
    destruct (fle (lit binary64 (999 # 1000)) (clamp_opacity opacity)).
    + split; [reflexivity|]. split; [reflexivity|]. split; [reflexivity|lia].
    + cbn [px red green blue alpha].
      split; [reflexivity|]. split; [reflexivity|]. split; [reflexivity|].
      destruct (clamp_opacity_range opacity) as (q & -> & Hq0 & Hq1).
      apply scaled_alpha_le; assumption.
  - intros Hop. unfold apply_opacity. cbv zeta.
    rewrite (opacity_threshold opacity Hop). reflexivity.
Qed.

(** X6. [resize_with_aspect] compares the policy as it is given: every
    name other than stretch and cover (a misspelt or capitalised one too)
    is treated as contain, and an image with an empty side is returned as
    it is, whatever the target. *)
Theorem resize_policy_fallback (img : Raster) (tw th : Z) (mode : string) :
  (mode <> "stretch" -> mode <> "cover" ->
   resize_with_aspect img tw th mode = resize_with_aspect img tw th "contain") /\
  (width img = 0 \/ height img = 0 -> resize_with_aspect img tw th mode = Ok img).
Proof.
  split.
  - intros Hs Hc. unfold resize_with_aspect, resize_dims. cbv zeta.
    rewrite (eqb_false _ _ Hs), (eqb_false _ _ Hc). reflexivity.
  - intros Hz. unfold resize_with_aspect. cbv zeta.
    replace ((width img =? 0) || (height img =? 0)) with true; [reflexivity|].
    symmetry. apply orb_true_iff. destruct Hz as [-> | ->]; [left|right]; reflexivity.
Qed.

Lemma quot_self (n : Z) : size_ok n -> quot n n = 1%Q.
Proof.
  intros [Hn _]. unfold quot.
  rewrite (rnd_comp binary64 (inject_Z n / inject_Z n) 1).
  - vm_compute. reflexivity.
  - unfold Qdiv. apply Qmult_inv_r. intros E.
    unfold Qeq in E. cbn [inject_Z Qnum Qden] in E. lia.
Qed.

Lemma scaled_one (n : Z) : size_ok n -> scaled n 1 = n.
Proof.
  intros [H1 Hn]. unfold scaled.
  rewrite (rnd_comp binary64 (inject_Z n * 1) (inject_Z n)) by apply Qmult_1_r.
  rewrite rnd_int by lia. apply rne_inject_Z.
Qed.

(** X7. Asked for the size an image already has, [resize_with_aspect]
    asks the resampler for exactly that size under every policy: the scale
    factor is exactly 1 and no side drifts by rounding. *)
Theorem resize_to_own_size (img : Raster) (mode : string) :
  size_ok (width img) -> size_ok (height img) ->
  resize_with_aspect img (width img) (height img) mode
  = Ok (resize img (width img) (height img)).
Proof.
  intros Hw Hh. unfold resize_with_aspect. cbv zeta.
  replace ((width img =? 0) || (height img =? 0)) with false
    by (symmetry; destruct Hw, Hh; apply orb_false_intro; apply Z.eqb_neq; lia).
  destruct (String.eqb mode "stretch") eqn:Es.
  - unfold resize_dims. rewrite Es. cbn [bind fst snd].
    destruct Hw, Hh. rewrite !Z.max_r by lia. reflexivity.
  - rewrite (resize_dims_scaled _ _ _ _ mode Hw Hh Hw Hh Es).
    rewrite !quot_self by assumption.
    assert (Ef : fit_scale mode 1 1 = 1%Q) by (unfold fit_scale; destruct (String.eqb mode "cover"); reflexivity).
    rewrite Ef, !scaled_one by assumption. cbn [bind fst snd].
    destruct Hw, Hh. rewrite !Z.max_r by lia. reflexivity.
Qed.

End EdgeCases.

Lemma apply_opacity_only_lowers_alpha_witness :
  fle (lit binary64 (999 # 1000)) (Fin 1) = true /\
  apply_opacity (solid 2 2 red_px) (Fin 1) = solid 2 2 red_px.
Proof.
  assert (E : fle (lit binary64 (999 # 1000)) (Fin 1) = true) by (vm_compute; reflexivity).
  split; [exact E|].
  exact (proj2 (proj2 (proj2 (apply_opacity_only_lowers_alpha (solid 2 2 red_px) (Fin 1)))) E).
Defined.

Lemma resize_policy_fallback_witness :
  @resize_with_aspect sample_extern (solid 100 50 red_px) 30 30 "Cover"
  = @resize_with_aspect sample_extern (solid 100 50 red_px) 30 30 "contain".
Proof.
  apply (proj1 (@resize_policy_fallback sample_extern (solid 100 50 red_px) 30 30 "Cover"));
    discriminate.
Defined.

Lemma resize_to_own_size_witness :
  @resize_with_aspect sample_extern (solid 100 50 red_px) 100 50 "cover"
  = Ok (@resize sample_extern (solid 100 50 red_px) 100 50).
Proof.
  apply (@resize_to_own_size sample_extern (solid 100 50 red_px) "cover");
    unfold size_ok; cbn [solid width height]; lia.
Defined.

(* ================================================================== *)
(** * What pasting changes *)
(* ================================================================== *)

Lemma opaque_src_channel_id (b : byte) : opaque_src_channel (b2z b) = b2z b.
Proof.
  apply Z.eqb_eq.
  apply (forall_bytes (fun z => opaque_src_channel z =? z)).
  vm_compute. reflexivity.
Qed.

(** An opaque source pixel replaces the destination pixel. *)
Lemma alpha_composite_px_opaque_src (dst src : pixel) :
  alpha src = Byte.xff -> Pillow.alpha_composite_px dst src = src.
Proof.
  intros Ha. unfold Pillow.alpha_composite_px. rewrite Ha.
  change (b2z Byte.xff) with 255. change (255 =? 0) with false. cbv iota zeta.
  replace (b2z (alpha dst) * (255 - 255)) with 0 by ring.
  rewrite Z.add_0_r.
  assert (Hc : forall s d : byte,
    z2b (Z.shiftr (Pillow.shift_for_div255
           (b2z s * (255 * 255 * 255 * Z.shiftl 1 Pillow.PRECISION_BITS / (255 * 255))
            + b2z d * (255 * Z.shiftl 1 Pillow.PRECISION_BITS
                       - 255 * 255 * 255 * Z.shiftl 1 Pillow.PRECISION_BITS / (255 * 255))
            + Z.shiftl 128 Pillow.PRECISION_BITS)) Pillow.PRECISION_BITS) = s).
  { intros s d.
    replace (255 * Z.shiftl 1 Pillow.PRECISION_BITS
             - 255 * 255 * 255 * Z.shiftl 1 Pillow.PRECISION_BITS / (255 * 255))
      with 0 by reflexivity.
    rewrite Z.mul_0_r, Z.add_0_r. fold (opaque_src_channel (b2z s)).
    rewrite opaque_src_channel_id. apply z2b_b2z. }
  rewrite !Hc. destruct src as [r g b a]. cbn [alpha] in Ha. subst a. reflexivity.
Qed.

(** The pixels of what the three-way choice of blend function returns. *)
Lemma blend_choice_px (mockup canvas out : Raster) (bm : string) :
  width canvas = width mockup -> height canvas = height mockup ->
  (if String.eqb bm "normal" then blend_normal mockup canvas
   else if mem bm numpy_modes then blend_numpy mockup canvas bm
   else blend_normal mockup canvas) = Ok out ->
  forall x y, 0 <= x < width mockup -> 0 <= y < height mockup ->
    px out x y =
    if negb (String.eqb bm "normal") && mem bm numpy_modes
    then blend_numpy_px bm (px mockup x y) (px canvas x y)
    else Pillow.alpha_composite_px (px mockup x y) (px canvas x y).
Proof.
  intros Hw Hh.
  assert (Hn : forall o, blend_normal mockup canvas = Ok o ->
            forall x y, px o x y
                        = Pillow.alpha_composite_px (px mockup x y) (px canvas x y)).
  { unfold blend_normal, Pillow.alpha_composite. rewrite Hw, Hh, !Z.eqb_refl.
    cbn [andb]. intros o E. injection E as <-. reflexivity. }
  destruct (String.eqb bm "normal"); cbn [negb andb];
    [intros E x y _ _; apply (Hn out E)|].
  destruct (mem bm numpy_modes); [|intros E x y _ _; apply (Hn out E)].
  unfold blend_numpy, ensure_rgba, Np.broadcast_dim.
  rewrite Hw, Hh, !Z.eqb_refl. cbn [andb bind].
  destruct (String.eqb bm "overlay"); cbn [bind fst snd];
    intros E x y Hx Hy; injection E as <-; cbn [px];
    rewrite !bidx_in_range by assumption; reflexivity.
Qed.

(** X8. [paste_overlay] changes the mockup only inside the box the
    overlay is pasted on: under every blend mode, each pixel of the result
    outside that box is the mockup's pixel. *)
Theorem paste_overlay_frame (mockup overlay out : Raster) (cx cy x0 y0 : Z)
  (bm : string) :
  centered_origin cx (width overlay) = Ok x0 ->
  centered_origin cy (height overlay) = Ok y0 ->
  paste_overlay mockup overlay (cx, cy) bm = Ok out ->
  forall x y, 0 <= x < width mockup -> 0 <= y < height mockup ->
    in_box x0 y0 overlay x y = false -> px out x y = px mockup x y.
Proof.
  intros Ex Ey. unfold paste_overlay. cbv zeta. rewrite Ex, Ey. cbn [bind].
  intros E x y Hx Hy Hbox.
  eapply blend_choice_px in E; [|reflexivity|reflexivity|exact Hx|exact Hy].
  rewrite E. clear E.
  assert (Hc : px (Pillow.alpha_composite_at
                     (new_transparent (width mockup) (height mockup)) overlay x0 y0) x y
               = transparent).
  { cbn [Pillow.alpha_composite_at px new_transparent].
    unfold in_box in Hbox. rewrite Hbox. reflexivity. }
  rewrite Hc.
  destruct (negb (String.eqb (lower bm) "normal") && mem (lower bm) numpy_modes).
  - apply blend_numpy_px_transparent. reflexivity.
  - apply alpha_composite_px_clear. reflexivity.
Qed.

(** X9. Under normal blending (and under a name [paste_overlay] does not
    know) an opaque pixel of the overlay lands unchanged: inside the pasted
    box the result shows the overlay's pixel wherever that pixel is
    opaque. *)
Theorem normal_paste_shows_opaque_pixels (mockup overlay out : Raster)
  (cx cy x0 y0 : Z) (bm : string) :
  mem (lower bm) numpy_modes = false ->
  centered_origin cx (width overlay) = Ok x0 ->
  centered_origin cy (height overlay) = Ok y0 ->
  paste_overlay mockup overlay (cx, cy) bm = Ok out ->
  forall x y, 0 <= x < width mockup -> 0 <= y < height mockup ->
    in_box x0 y0 overlay x y = true ->
    alpha (px overlay (x - x0) (y - y0)) = Byte.xff ->
    px out x y = px overlay (x - x0) (y - y0).
Proof.
  intros Hbm Ex Ey. unfold paste_overlay. cbv zeta. rewrite Ex, Ey. cbn [bind].
  intros E x y Hx Hy Hbox Ha.
  eapply blend_choice_px in E; [|reflexivity|reflexivity|exact Hx|exact Hy].
  rewrite E. clear E.
  rewrite Hbm, andb_false_r.
  cbn [Pillow.alpha_composite_at px new_transparent].
  unfold in_box in Hbox. rewrite Hbox.
  rewrite (alpha_composite_px_opaque_src transparent _ Ha).
  apply alpha_composite_px_opaque_src. assumption.
Qed.

Lemma origin_of_patch : centered_origin 1 2 = Ok 0.
Proof. vm_compute. reflexivity. Qed.

Lemma paste_overlay_frame_witness :
  exists out,
    paste_overlay (solid 4 4 gray) patch (1, 1) "multiply" = Ok out /\
    px out 3 3 = gray.
Proof.
  assert (Hok : is_ok (paste_overlay (solid 4 4 gray) patch (1, 1) "multiply") = true)
    by (vm_compute; reflexivity).
  destruct (is_ok_Ok _ Hok) as [out E]. exists out. split; [exact E|].
  exact (paste_overlay_frame (solid 4 4 gray) patch out 1 1 0 0 "multiply"
           origin_of_patch origin_of_patch E 3 3
           ltac:(cbn [solid width]; lia) ltac:(cbn [solid height]; lia) eq_refl).
Defined.

Lemma normal_paste_shows_opaque_pixels_witness :
  exists out,
    paste_overlay (solid 4 4 gray) patch (1, 1) "normal" = Ok out /\
    px out 0 0 = red_px.
Proof.
  assert (Hok : is_ok (paste_overlay (solid 4 4 gray) patch (1, 1) "normal") = true)
    by (vm_compute; reflexivity).
  destruct (is_ok_Ok _ Hok) as [out E]. exists out. split; [exact E|].
  exact (normal_paste_shows_opaque_pixels (solid 4 4 gray) patch out 1 1 0 0 "normal"
           eq_refl origin_of_patch origin_of_patch E 0 0
           ltac:(cbn [solid width]; lia) ltac:(cbn [solid height]; lia)
           eq_refl eq_refl).
Defined.

(* ================================================================== *)
(** * Float32 blending on all levels *)
(* ================================================================== *)

Lemma blend_numpy_px_channels (mode : string) (base over : pixel) :
  blend_numpy_px mode base over =
  RGBA (channel_of mode (red base) (red over) (alpha over))
       (channel_of mode (green base) (green over) (alpha over))
       (channel_of mode (blue base) (blue over) (alpha over))
       (alpha_of (alpha base) (alpha over)).
Proof.
  unfold channel_of, alpha_of, blend_numpy_px. cbn [red green blue alpha]. reflexivity.
Qed.

(** A check on all 256 levels, read back on bytes. *)
Lemma check_levels (f : byte -> byte) (g : Z -> Z) :
  forallb (fun z => b2z (f (z2b z)) =? g z) (zrange 0 256) = true ->
  forall b : byte, b2z (f b) = g (b2z b).
Proof.
  intros Hall b.
  pose proof (forall_bytes (fun z => b2z (f (z2b z)) =? g z) Hall b) as Hb.
  cbv beta in Hb. rewrite z2b_b2z in Hb. apply Z.eqb_eq. exact Hb.
Qed.

Lemma check_levels_id (f : byte -> byte) :
  forallb (fun z => b2z (f (z2b z)) =? z) (zrange 0 256) = true ->
  forall b : byte, f b = b.
Proof.
  intros Hall b. apply b2z_inj. exact (check_levels f (fun z => z) Hall b).
Qed.

Lemma multiply_white_channel (b : byte) : channel_of "multiply" b Byte.xff Byte.xff = b.
Proof.
  apply (check_levels_id (fun b => channel_of "multiply" b Byte.xff Byte.xff)).
  vm_compute. reflexivity.
Qed.

Lemma lighten_same_channel (b : byte) : channel_of "lighten" b b Byte.xff = b.
Proof.
  apply (check_levels_id (fun b => channel_of "lighten" b b Byte.xff)).
  vm_compute. reflexivity.
Qed.

Lemma darken_same_channel (b : byte) : channel_of "darken" b b Byte.xff = b.
Proof.
  apply (check_levels_id (fun b => channel_of "darken" b b Byte.xff)).
  vm_compute. reflexivity.
Qed.

Lemma alpha_under_opaque_overlay (ba : byte) : alpha_of ba Byte.xff = Byte.xff.
Proof.
  apply b2z_inj.
  exact (check_levels (fun ba => alpha_of ba Byte.xff) (fun _ => 255)
           ltac:(vm_compute; reflexivity) ba).
Qed.

Lemma alpha_over_opaque_base (oa : byte) : alpha_of Byte.xff oa = Byte.xff.
Proof.
  apply b2z_inj.
  exact (check_levels (fun oa => alpha_of Byte.xff oa) (fun _ => 255)
           ltac:(vm_compute; reflexivity) oa).
Qed.

(** X10. The neutral overlays of [blend_numpy] that survive its
    [float32] arithmetic: multiplying by opaque white keeps the base colour,
    lightening or darkening an opaque pixel with itself keeps it, and an
    opaque base stays opaque under every mode and every overlay alpha. *)
Theorem blend_numpy_neutral_overlays :
  (forall base, blend_numpy_px "multiply" base white_px = opaque_of base) /\
  (forall p, alpha p = Byte.xff ->
     blend_numpy_px "lighten" p p = p /\ blend_numpy_px "darken" p p = p) /\
  (forall mode base over, alpha base = Byte.xff ->
     alpha (blend_numpy_px mode base over) = Byte.xff).
Proof.
  split; [|split].
  - intros base. rewrite blend_numpy_px_channels. cbn [white_px red green blue alpha].
    rewrite !multiply_white_channel, alpha_under_opaque_overlay. reflexivity.
  - intros [r g b a] Ha. cbn [alpha] in Ha. subst a.
    rewrite !blend_numpy_px_channels. cbn [red green blue alpha].
    rewrite !lighten_same_channel, !darken_same_channel, alpha_over_opaque_base.
    split; reflexivity.
  - intros mode base over Ha. rewrite blend_numpy_px_channels. cbn [alpha].
    rewrite Ha. apply alpha_over_opaque_base.
Qed.

Lemma screen_black_channel (b : byte) :
  b2z (channel_of "screen" b Byte.x00 Byte.xff) = screened_by_black (b2z b).
Proof.
  apply (check_levels (fun b => channel_of "screen" b Byte.x00 Byte.xff)
           screened_by_black).
  vm_compute. reflexivity.
Qed.

(** X11. Screen blending against opaque black, which leaves a colour
    unchanged in exact arithmetic, does not in [blend_numpy]: the
    [float32] result of [1 - (1 - b)] falls just below [b] and the cast to
    8 bits drops the fraction, so each colour level from 1 to 64, and each
    even level up to 126, comes out one lower; the other levels and the
    alpha are kept. *)
Theorem screen_with_black_lowers_levels (base : pixel) (channel : pixel -> byte) :
  In channel [red; green; blue] ->
  b2z (channel (blend_numpy_px "screen" base black_px))
    = screened_by_black (b2z (channel base)) /\
  (1 <= b2z (channel base) <= 64 ->
   b2z (channel (blend_numpy_px "screen" base black_px)) = b2z (channel base) - 1) /\
  (127 <= b2z (channel base) ->
   channel (blend_numpy_px "screen" base black_px) = channel base) /\
  alpha (blend_numpy_px "screen" base black_px) = Byte.xff.
Proof.
  intros Hch.
  assert (E : b2z (channel (blend_numpy_px "screen" base black_px))
              = screened_by_black (b2z (channel base))).
  { rewrite blend_numpy_px_channels. cbn [black_px red green blue alpha].
    destruct Hch as [<-|[<-|[<-|[]]]]; cbn [red green blue];
      apply screen_black_channel. }
  split; [exact E|]. split; [|split].
  - intros Hlow. rewrite E. unfold screened_by_black.
    replace (1 <=? b2z (channel base)) with true by (symmetry; apply Z.leb_le; lia).
    replace (b2z (channel base) <=? 64) with true by (symmetry; apply Z.leb_le; lia).
    reflexivity.
  - intros Hhigh. apply b2z_inj. rewrite E. unfold screened_by_black.
    replace (b2z (channel base) <=? 64) with false by (symmetry; apply Z.leb_gt; lia).
    replace (b2z (channel base) <=? 126) with false by (symmetry; apply Z.leb_gt; lia).
    cbn [orb andb]. rewrite andb_false_r. reflexivity.
  - rewrite blend_numpy_px_channels. cbn [alpha black_px].
    apply alpha_under_opaque_overlay.
Qed.

Lemma screen_with_black_lowers_levels_witness :
  b2z (red (blend_numpy_px "screen" (RGBA (z2b 1) (z2b 200) (z2b 64) Byte.xff)
              black_px)) = 0.
Proof.
  exact (proj1 (proj2 (screen_with_black_lowers_levels
                         (RGBA (z2b 1) (z2b 200) (z2b 64) Byte.xff) red
                         (or_introl eq_refl)))
           ltac:(cbn [red]; rewrite b2z_z2b; lia)).
Defined.

(** X12. Called on rasters of different sizes, [blend_numpy] does not
    reject them as [blend_normal] does ([ValueError]): a 1x1 overlay is
    broadcast over the whole base, except in overlay mode, whose boolean
    mask raises [IndexError] on any difference in size; sizes that differ
    and are not 1 raise [ValueError]. *)
Theorem blend_numpy_on_unequal_sizes (base overlay : Raster) (mode : string) :
  (width overlay = 1 -> height overlay = 1 -> mode <> "overlay" ->
   exists out, blend_numpy base overlay mode = Ok out /\
     width out = width base /\ height out = height base /\
     forall x y, px out x y
                 = blend_numpy_px mode
                     (px base (Np.bidx (width base) x) (Np.bidx (height base) y))
                     (px overlay 0 0)) /\
  (width base <> width overlay \/ height base <> height overlay ->
   blend_numpy base overlay "overlay" = Raise IndexError /\
   blend_normal base overlay = Raise ValueError) /\
  (width base <> width overlay -> width base <> 1 -> width overlay <> 1 ->
   mode <> "overlay" -> blend_numpy base overlay mode = Raise ValueError).
Proof.
  assert (Hne : forall a b : Z, a <> b -> (a =? b) = false)
    by (intros a b Hab; apply Z.eqb_neq; exact Hab).
  split; [|split].
  - intros Hw Hh Hmode. unfold blend_numpy, ensure_rgba. cbv zeta.
    rewrite (eqb_false _ _ Hmode), Hw, Hh.
    assert (Eb : forall n, Np.broadcast_dim n 1 = Ok n).
    { intros n. unfold Np.broadcast_dim.
      destruct (Z.eqb_spec n 1) as [->|_]; reflexivity. }
    rewrite !Eb. cbn [bind fst snd]. eexists. split; [reflexivity|].
    split; [reflexivity|]. split; [reflexivity|]. intros x y. reflexivity.
  - intros Hd. split.
    + unfold blend_numpy, ensure_rgba. cbv zeta. cbn [String.eqb Ascii.eqb Bool.eqb].
      replace ((width base =? width overlay) && (height base =? height overlay))
        with false; [reflexivity|].
      symmetry. apply andb_false_iff.
      destruct Hd as [Hd|Hd]; [left|right]; apply Hne; exact Hd.
    + unfold blend_normal, Pillow.alpha_composite.
      replace ((width base =? width overlay) && (height base =? height overlay))
        with false; [reflexivity|].
      symmetry. apply andb_false_iff.
      destruct Hd as [Hd|Hd]; [left|right]; apply Hne; exact Hd.
  - intros Hd Hb Ho Hmode. unfold blend_numpy, ensure_rgba. cbv zeta.
    rewrite (eqb_false _ _ Hmode). unfold Np.broadcast_dim at 1.
    rewrite (Hne _ _ Hd), (Hne _ _ Hb), (Hne _ _ Ho). reflexivity.
Qed.

Lemma blend_numpy_on_unequal_sizes_witness :
  blend_numpy (solid 4 4 gray) (solid 1 1 half_red) "overlay" = Raise IndexError /\
  blend_normal (solid 4 4 gray) (solid 1 1 half_red) = Raise ValueError.
Proof.
  apply (proj1 (proj2 (blend_numpy_on_unequal_sizes (solid 4 4 gray)
                         (solid 1 1 half_red) "overlay"))).
  left. cbn [solid width]. lia.
Defined.

(* ================================================================== *)
(** * Where an overlay lands *)
(* ================================================================== *)

(** ** Halves in binary64 *)

(** A multiple of a power of two with a 53-bit factor is a binary64
    number. *)
Lemma rnd_dyadic (x : Q) (m j : Z) :
  Z.abs m < 2 ^ 53 -> -1074 <= j -> (x == inject_Z m * pow2 j)%Q ->
  (rnd binary64 x == x)%Q.
Proof.
  intros Hm Hj E. destruct (Qeq_dec x 0) as [E0|Hx].
  - rewrite (rnd_zero _ _ E0). symmetry. assumption.
  - apply (rnd_exact_scaled binary64 x m j); [|assumption].
    unfold ulp_exp. change (emin binary64) with (-1074). change (prec binary64) with 53.
    pose proof (Qabs_pos_lt _ Hx) as Hp.
    assert (ilog2 (Qabs x) < 53 + j); [|lia].
    apply ilog2_le; [assumption|].
    rewrite pow2_add. rewrite (Qabs_wd _ _ E), Qabs_Qmult.
    rewrite (Qabs_pos (pow2 j)) by (apply Qlt_le_weak, pow2_pos).
    apply Qmult_lt_compat_r; [apply pow2_pos|].
    rewrite pow2_Z by lia.
    apply Qabs_lt_intro. rewrite <- inject_Z_opp. rewrite <- !Zlt_Qlt. lia.
Qed.

Lemma rne_half (k : Z) : rne (inject_Z k / 2) = round_half k.
Proof.
  unfold round_half.
  pose proof (Z.div_mod k 2 ltac:(lia)) as Hk.
  pose proof (Z.mod_pos_bound k 2 ltac:(lia)) as Hr.
  rewrite Zeven_mod. 
  destruct (Z.eqb_spec (k mod 2) 0) as [E0|E1].
  - transitivity (rne (inject_Z (k / 2))); [|apply rne_inject_Z].
    apply rne_comp.
    assert (Ek : k = 2 * (k / 2)) by lia.
    rewrite Ek at 1.
    rewrite inject_Z_mult. change (inject_Z 2) with 2%Q. field.
  - assert (Hodd : k mod 2 = 1) by lia.
    assert (Ex : (inject_Z k / 2 == inject_Z (k / 2) + (1 # 2))%Q).
    { assert (Ek : k = 2 * (k / 2) + 1) by lia.
      rewrite Ek at 1.
      rewrite inject_Z_plus, inject_Z_mult.
      change (inject_Z 2) with 2%Q. change (inject_Z 1) with 1%Q. field. }
    rewrite (rne_comp _ _ Ex). unfold rne.
    assert (Ef : Qfloor (inject_Z (k / 2) + (1 # 2)) = k / 2).
    { apply Z.le_antisymm.
      - apply Z.lt_succ_r. rewrite Zlt_Qlt.
        eapply Qle_lt_trans; [apply Qfloor_le|].
        unfold Z.succ. rewrite inject_Z_plus. change (inject_Z 1) with 1%Q. lra.
      - rewrite <- (Qfloor_Z (k / 2)) at 1. apply Qfloor_resp_le. lra. }
    rewrite Ef.
    replace (inject_Z (k / 2) + (1 # 2) - inject_Z (k / 2) ?= 1 # 2)%Q with Eq;
      [reflexivity|].
    symmetry. apply (proj1 (Qeq_alt _ _)). ring.
Qed.

(** The value of [int(round(c - n / 2))] on integers of moderate size. *)
Lemma centered_origin_value (c n : Z) :
  Z.abs c <= 2 ^ 40 -> Z.abs n <= 2 ^ 40 ->
  centered_origin c n = Ok (round_half (2 * c - n)).
Proof.
  intros Hc Hn. unfold centered_origin.
  destruct (truediv_bounded n 2 40) as [Eh _]; [lia|lia|lia|].
  rewrite Eh. cbn [bind]. unfold sub_int_float.
  rewrite float_of_int_small by lia. cbn [bind fsub fopp fadd].
  set (h := rnd binary64 (inject_Z n / inject_Z 2)).
  assert (Hh : (h == inject_Z n * pow2 (-1))%Q).
  { unfold h. rewrite (rnd_dyadic _ n (-1)); [| lia | lia |];
      change (inject_Z 2) with 2%Q; change (pow2 (-1)) with (1 # 2)%Q; field. }
  assert (Hd : (inject_Z c + - h == inject_Z (2 * c - n) * pow2 (-1))%Q).
  { rewrite Hh. unfold Z.sub. rewrite inject_Z_plus, inject_Z_opp, inject_Z_mult.
    change (inject_Z 2) with 2%Q. change (pow2 (-1)) with (1 # 2)%Q. ring. }
  assert (Er : (rnd binary64 (inject_Z c + - h) == inject_Z (2 * c - n) / 2)%Q).
  { rewrite (rnd_dyadic _ (2 * c - n) (-1)); [| lia | lia | exact Hd].
    rewrite Hd. change (pow2 (-1)) with (1 # 2)%Q. field. }
  destruct (round_q_bounded binary64 ltac:(b64) (inject_Z c + - h) 42) as [E _].
  - b64.
  - rewrite Hd. rewrite Qabs_Qmult.
    change (Qabs (pow2 (-1))) with (1 # 2)%Q.
    assert (Hb : (Qabs (inject_Z (2 * c - n)) <= pow2 42)%Q)
      by (apply inject_Z_abs_le; lia).
    generalize dependent (Qabs (inject_Z (2 * c - n))). intros v Hv.
    pose proof (pow2_pos 42). lra.
  - rewrite E. cbn [Py.round]. f_equal.
    rewrite (rne_comp _ _ Er). apply rne_half.
Qed.

(** X13. Where [paste_overlay] puts an overlay of width [n] centered on
    column [c]: at [c - n / 2] when [n] is even, and when [n] is odd at the
    even one of the two columns next to [c - n / 2], since Python rounds a
    half to the even integer.  An overlay of odd size therefore always
    starts on an even column (and row). *)
Theorem centered_origin_exact (c n : Z) :
  pixel_int c -> pixel_int n ->
  exists x0, centered_origin c n = Ok x0 /\
    (Z.even n = true -> x0 = c - n / 2) /\
    (Z.odd n = true ->
       Z.even x0 = true /\ (x0 = c - (n + 1) / 2 \/ x0 = c - (n - 1) / 2)).
Proof.
  intros Hc Hn. exists (round_half (2 * c - n)).
  split; [apply centered_origin_value; unfold pixel_int in *; lia|].
  unfold round_half.
  pose proof (Z.div_mod n 2 ltac:(lia)) as Hdiv.
  pose proof (Z.mod_pos_bound n 2 ltac:(lia)) as Hr.
  split.
  - intros He. rewrite Zeven_mod in He. apply Z.eqb_eq in He.
    replace (2 * c - n) with (2 * (c - n / 2)) by lia.
    rewrite Z.even_mul. cbn [Z.even orb].
    clear. Z.div_mod_to_equations. lia.
  - intros Ho. rewrite Zodd_mod in Ho. apply Z.eqb_eq in Ho.
    assert (E1 : (n + 1) / 2 = n / 2 + 1) by (clear - Ho; Z.div_mod_to_equations; lia).
    assert (E2 : (n - 1) / 2 = n / 2) by (clear - Ho; Z.div_mod_to_equations; lia).
    assert (Ek : (2 * c - n) / 2 = c - n / 2 - 1)
      by (clear - Ho; Z.div_mod_to_equations; lia).
    assert (Eo : Z.even (2 * c - n) = false).
    { replace (2 * c - n) with (1 + 2 * (c - n / 2 - 1)) by lia.
      rewrite Z.even_add_mul_2. reflexivity. }
    rewrite Eo, Ek, E1, E2.
    destruct (Z.even (c - n / 2 - 1)) eqn:Ev.
    + split; [exact Ev|]. left. lia.
    + split; [|right; lia].
      replace (c - n / 2 - 1 + 1) with (Z.succ (c - n / 2 - 1)) by lia.
      rewrite Z.even_succ. rewrite <- Z.negb_even. rewrite Ev. reflexivity.
Qed.

(** X14. The top-left anchor of the simple commands is turned into a
    center with a floor division and back into a corner by
    [paste_overlay]'s rounding.  For an overlay of the requested size the
    corner comes back exactly when the size is even; when it is odd the
    overlay lands on [x] only if [x] is even, and one column (row) before
    [x] otherwise.  The center anchor passes the coordinates through. *)
Theorem topleft_anchor_round_trip (x y w h : Z) :
  pixel_int x -> pixel_int y -> size_ok w -> size_ok h ->
  let c := _center_from_anchor "topleft" x y w h in
  centered_origin (fst c) w = Ok (if Z.odd w && Z.odd x then x - 1 else x) /\
  centered_origin (snd c) h = Ok (if Z.odd h && Z.odd y then y - 1 else y) /\
  forall anchor, anchor <> "topleft" -> _center_from_anchor anchor x y w h = (x, y).
Proof.
  assert (Hone : forall x w, pixel_int x -> size_ok w ->
            centered_origin (x + w / 2) w
            = Ok (if Z.odd w && Z.odd x then x - 1 else x)).
  { clear. intros x w Hx [Hw1 Hw2]. unfold pixel_int in Hx.
    pose proof (Z.div_mod w 2 ltac:(lia)) as Hdiv.
    pose proof (Z.mod_pos_bound w 2 ltac:(lia)) as Hr.
    rewrite centered_origin_value by lia.
    f_equal. unfold round_half. rewrite <- !Z.negb_even.
    destruct (Z.even w) eqn:Ew.
    - rewrite Zeven_mod in Ew. apply Z.eqb_eq in Ew.
      replace (2 * (x + w / 2) - w) with (2 * x) by lia.
      rewrite Z.even_mul. cbn [Z.even orb negb andb].
      clear. Z.div_mod_to_equations. lia.
    - assert (Hw : w mod 2 = 1).
      { rewrite Zeven_mod in Ew. apply Z.eqb_neq in Ew. lia. }
      replace (2 * (x + w / 2) - w) with (1 + 2 * (x - 1)) by lia.
      rewrite Z.even_add_mul_2. cbn [Z.even negb andb].
      replace ((1 + 2 * (x - 1)) / 2) with (x - 1)
        by (clear; Z.div_mod_to_equations; lia).
      replace (Z.even (x - 1)) with (negb (Z.even x)).
      + destruct (Z.even x); cbn [negb andb]; lia.
      + replace x with (Z.succ (x - 1)) at 1 by lia.
        rewrite Z.even_succ, <- Z.negb_even, negb_involutive. reflexivity. }
  intros Hx Hy Hw Hh. cbv zeta. unfold _center_from_anchor.
  cbn [String.eqb Ascii.eqb Bool.eqb fst snd].
  split; [apply Hone; assumption|]. split; [apply Hone; assumption|].
  intros anchor Ha. rewrite (eqb_false _ _ Ha). reflexivity.
Qed.

Lemma centered_origin_exact_witness :
  exists x0, centered_origin 10 5 = Ok x0 /\ Z.even x0 = true.
Proof.
  destruct (centered_origin_exact 10 5 ltac:(unfold pixel_int; lia)
              ltac:(unfold pixel_int; lia)) as (x0 & E & _ & Hodd).
  exists x0. split; [exact E|]. exact (proj1 (Hodd eq_refl)).
Defined.

Lemma topleft_anchor_round_trip_witness :
  centered_origin (fst (_center_from_anchor "topleft" 7 4 5 6)) 5 = Ok 6 /\
  centered_origin (snd (_center_from_anchor "topleft" 7 4 5 6)) 6 = Ok 4.
Proof.
  destruct (topleft_anchor_round_trip 7 4 5 6 ltac:(unfold pixel_int; lia)
              ltac:(unfold pixel_int; lia) ltac:(unfold size_ok; lia)
              ltac:(unfold size_ok; lia)) as (Ex & Ey & _).
  split; [exact Ex|exact Ey].
Defined.

(* ================================================================== *)
(** * Names of blend modes *)
(* ================================================================== *)

Section BlendNames.
Context `{Extern}.

(** The rect branch hands the blend mode to [paste_overlay], which
    lower-cases it. *)
Lemma rect_blend_mode_lowered (mockup design : Raster) (config : RenderConfig)
  (bm : string) :
  mode config = "rect" ->
  render_loaded mockup design (with_blend_mode config bm)
  = render_loaded mockup design (with_blend_mode config (lower bm)).
Proof.
  intros Hmode. unfold render_loaded.
  cbn [with_blend_mode mode placement blend_mode opacity maintain_aspect].
  rewrite Hmode. cbn [String.eqb Ascii.eqb Bool.eqb].
  destruct (placement config) as [rp|pp]; [|reflexivity].
  do 5 (apply bind_ext; intros ?). cbv zeta.
  unfold paste_overlay. rewrite lower_idempotent. reflexivity.
Qed.

(** The perspective branch compares the blend mode as it is given. *)
Lemma perspective_blend_fallback (mockup design : Raster) (config : RenderConfig)
  (bm : string) :
  mode config = "perspective" -> recognized bm = false ->
  render_loaded mockup design (with_blend_mode config bm)
  = render_loaded mockup design (with_blend_mode config "normal").
Proof.
  intros Hmode Hr. apply recognized_false in Hr. destruct Hr as [Hn Hm].
  unfold render_loaded.
  cbn [with_blend_mode mode placement blend_mode opacity maintain_aspect].
  rewrite Hmode. cbn [String.eqb Ascii.eqb Bool.eqb].
  destruct (placement config) as [rp|pp]; [reflexivity|].
  do 4 (apply bind_ext; intros ?). cbv zeta.
  rewrite Hn, Hm. reflexivity.
Qed.

(** X15. The two branches of [render_one] read the blend mode
    differently.  The rect branch lower-cases it, so MULTIPLY multiplies;
    the perspective branch compares it as given, so MULTIPLY is unknown
    there and renders as normal.  A configuration parsed by [from_dict]
    never shows the difference, since the parser lower-cases the blend
    mode. *)
Theorem blend_mode_case_differs_by_branch :
  (forall mockup design config bm,
     mode config = "rect" ->
     render_loaded mockup design (with_blend_mode config bm)
     = render_loaded mockup design (with_blend_mode config (lower bm))) /\
  (forall mockup design config,
     mode config = "perspective" ->
     render_loaded mockup design (with_blend_mode config "MULTIPLY")
     = render_loaded mockup design (with_blend_mode config "normal")) /\
  (forall data config,
     from_dict data = Ok config -> lower (blend_mode config) = blend_mode config).
Proof.
  split; [exact rect_blend_mode_lowered|]. split.
  - intros mockup design config Hmode.
    apply perspective_blend_fallback; [exact Hmode|reflexivity].
  - intros data config E.
    exact (proj1 (proj2 (parsed_config_well_formed data config E))).
Qed.

End BlendNames.

(** On a gray mockup and a red design the two readings give different
    pixels: MULTIPLY multiplies in rect mode and composites in perspective
    mode. *)
Lemma blend_mode_case_differs_by_branch_witness :
  px_at (@render_loaded sample_extern (solid 4 4 gray) (solid 2 2 red_px)
           (with_blend_mode four_points "MULTIPLY")) 2 2
  = px_at (@render_loaded sample_extern (solid 4 4 gray) (solid 2 2 red_px)
             (with_blend_mode four_points "normal")) 2 2 /\
  px_at (@render_loaded sample_extern (solid 4 4 gray) (solid 2 2 red_px)
           (with_blend_mode four_points "normal")) 2 2 = Some (255, 0, 0, 255) /\
  px_at (@render_loaded sample_extern (solid 4 4 gray) (solid 2 2 red_px)
           (with_blend_mode four_points "multiply")) 2 2 = Some (200, 0, 0, 255) /\
  px_at (@render_loaded sample_extern (solid 4 4 gray) (solid 2 2 red_px)
           (with_blend_mode sample_config "MULTIPLY")) 2 2 = Some (200, 0, 0, 255).
Proof.
  split.
  - rewrite (proj1 (proj2 (@blend_mode_case_differs_by_branch sample_extern))
               (solid 4 4 gray) (solid 2 2 red_px) four_points eq_refl).
    reflexivity.
  - split; [vm_compute; reflexivity|]. split; vm_compute; reflexivity.
Defined.

(* ================================================================== *)
(** * Collapsing underscores *)
(* ================================================================== *)

(** *** Lists of characters, two at a time *)

Lemma list_ind2 {A : Type} (P : list A -> Prop) :
  P [] -> (forall a, P [a]) ->
  (forall a b l, P l -> P (b :: l) -> P (a :: b :: l)) ->
  forall l, P l.
Proof.
  intros H0 H1 H2.
  assert (Hboth : forall l, P l /\ forall a, P (a :: l)).
  { induction l as [|b l [IHl IHbl]].
    - split; [exact H0|exact H1].
    - split; [apply IHbl|]. intros a. apply H2; [exact IHl|apply IHbl]. }
  intros l. apply Hboth.
Qed.

Lemma has_dunder_cons2 (a b : ascii) (l : list ascii) :
  has_dunder (a :: b :: l)
  = (Ascii.eqb a "_" && Ascii.eqb b "_") || has_dunder (b :: l).
Proof. reflexivity. Qed.

Lemma replace_dunder_cons2 (a b : ascii) (l : list ascii) :
  replace_dunder (a :: b :: l)
  = if Ascii.eqb a "_" && Ascii.eqb b "_" then "_"%char :: replace_dunder l
    else a :: replace_dunder (b :: l).
Proof. reflexivity. Qed.

Lemma squeeze_cons2 (a b : ascii) (l : list ascii) :
  squeeze (a :: b :: l)
  = if Ascii.eqb a "_" && Ascii.eqb b "_" then squeeze (b :: l)
    else a :: squeeze (b :: l).
Proof. reflexivity. Qed.

Lemma replace_dunder_head (a : ascii) (l : list ascii) :
  exists t, replace_dunder (a :: l) = a :: t.
Proof.
  destruct l as [|b l]; [exists []; reflexivity|].
  rewrite replace_dunder_cons2.
  destruct (Ascii.eqb a "_" && Ascii.eqb b "_") eqn:E.
  - apply andb_true_iff in E. destruct E as [Ea _]. apply Ascii.eqb_eq in Ea. subst a.
    eexists. reflexivity.
  - eexists. reflexivity.
Qed.

Lemma squeeze_head (a : ascii) (l : list ascii) :
  exists t, squeeze (a :: l) = a :: t.
Proof.
  revert a. induction l as [|b l IH]; intros a; [exists []; reflexivity|].
  rewrite squeeze_cons2.
  destruct (Ascii.eqb a "_" && Ascii.eqb b "_") eqn:E.
  - apply andb_true_iff in E. destruct E as [Ea Eb].
    apply Ascii.eqb_eq in Ea, Eb. subst a b. apply IH.
  - eexists. reflexivity.
Qed.

Lemma replace_dunder_length (s : list ascii) :
  (List.length (replace_dunder s) <= List.length s)%nat /\
  (has_dunder s = true -> List.length (replace_dunder s) < List.length s)%nat.
Proof.
  induction s as [| |a b l [IHl1 IHl2] [IHb1 IHb2]] using list_ind2.
  - split; [reflexivity|discriminate].
  - split; [reflexivity|discriminate].
  - rewrite replace_dunder_cons2, has_dunder_cons2.
    destruct (Ascii.eqb a "_" && Ascii.eqb b "_"); cbn [orb];
      change (List.length (a :: b :: l)) with (S (List.length (b :: l)));
      change (List.length (b :: l)) with (S (List.length l)) in *.
    + change (List.length ("_"%char :: replace_dunder l))
        with (S (List.length (replace_dunder l))).
      split; [lia|intros _; lia].
    + change (List.length (a :: replace_dunder (b :: l)))
        with (S (List.length (replace_dunder (b :: l)))).
      split; [lia|]. intros Hd. specialize (IHb2 Hd). lia.
Qed.

Lemma squeeze_cons_replace (c : ascii) (l : list ascii) :
  squeeze (replace_dunder l) = squeeze l ->
  squeeze (c :: replace_dunder l) = squeeze (c :: l).
Proof.
  intros E. destruct l as [|d l]; [reflexivity|].
  destruct (replace_dunder_head d l) as [t Et].
  rewrite Et in *. rewrite !squeeze_cons2, E. reflexivity.
Qed.

Lemma squeeze_replace (s : list ascii) : squeeze (replace_dunder s) = squeeze s.
Proof.
  induction s as [| |a b l IHl IHb] using list_ind2; [reflexivity|reflexivity|].
  rewrite replace_dunder_cons2.
  destruct (Ascii.eqb a "_" && Ascii.eqb b "_") eqn:E.
  - rewrite squeeze_cons2, E.
    apply andb_true_iff in E. destruct E as [Ea Eb].
    apply Ascii.eqb_eq in Ea, Eb. subst a b.
    apply (squeeze_cons_replace "_"%char l IHl).
  - apply (squeeze_cons_replace a (b :: l) IHb).
Qed.

Lemma squeeze_id (s : list ascii) : has_dunder s = false -> squeeze s = s.
Proof.
  induction s as [| |a b l IHl IHb] using list_ind2; [reflexivity|reflexivity|].
  rewrite has_dunder_cons2, squeeze_cons2. intros Hd. apply orb_false_iff in Hd.
  destruct Hd as [E Hd]. rewrite E. rewrite (IHb Hd). reflexivity.
Qed.

Lemma squeeze_no_dunder (s : list ascii) : has_dunder (squeeze s) = false.
Proof.
  induction s as [| |a b l IHl IHb] using list_ind2; [reflexivity|reflexivity|].
  rewrite squeeze_cons2.
  destruct (Ascii.eqb a "_" && Ascii.eqb b "_") eqn:E; [exact IHb|].
  destruct (squeeze_head b l) as [t Et]. rewrite Et in *.
  rewrite has_dunder_cons2, E, IHb. reflexivity.
Qed.

Lemma squeeze_Forall (P : ascii -> Prop) (s : list ascii) :
  Forall P s -> Forall P (squeeze s).
Proof.
  induction s as [| |a b l IHl IHb] using list_ind2; [auto|auto|].
  intros Hs. rewrite squeeze_cons2. inversion Hs as [|? ? Ha Htl]; subst.
  destruct (Ascii.eqb a "_" && Ascii.eqb b "_"); [apply IHb; assumption|].
  constructor; [assumption|apply IHb; assumption].
Qed.

(** The loop ends within one round per character, on the string with its
    runs of underscores reduced to one. *)
Lemma collapse_squeeze (fuel : nat) (s : list ascii) :
  (List.length s <= fuel)%nat -> collapse fuel s = Some (squeeze s).
Proof.
  revert s. induction fuel as [|f IH]; intros s Hlen.
  - destruct s; [reflexivity|cbn [List.length] in Hlen; lia].
  - cbn [collapse]. destruct (has_dunder s) eqn:Hd.
    + rewrite IH by (pose proof (proj2 (replace_dunder_length s) Hd); lia).
      rewrite squeeze_replace. reflexivity.
    + rewrite (squeeze_id s Hd). reflexivity.
Qed.

(* ================================================================== *)
(** * Slugs *)
(* ================================================================== *)

(** *** Stripping *)

Lemma lstrip_suffix (s : list ascii) : exists p, s = (p ++ lstrip s)%list.
Proof.
  induction s as [|c r [p IH]]; [exists []; reflexivity|].
  cbn [lstrip]. destruct (strip_set c).
  - exists (c :: p). cbn [app]. rewrite <- IH. reflexivity.
  - exists []. reflexivity.
Qed.

Lemma lstrip_head (s : list ascii) (c : ascii) (t : list ascii) :
  lstrip s = c :: t -> strip_set c = false.
Proof.
  induction s as [|a r IH]; [discriminate|].
  cbn [lstrip]. destruct (strip_set a) eqn:E; [exact IH|].
  intros Eq. injection Eq as <- _. exact E.
Qed.

Lemma lstrip_id (s : list ascii) :
  (forall c t, s = c :: t -> strip_set c = false) -> lstrip s = s.
Proof.
  destruct s as [|c r]; [reflexivity|]. intros Hh.
  cbn [lstrip]. rewrite (Hh c r eq_refl). reflexivity.
Qed.

Lemma rstrip_cons (c : ascii) (r : list ascii) :
  rstrip (c :: r)
  = match rstrip r with
    | [] => if strip_set c then [] else [c]
    | r' => c :: r'
    end.
Proof. reflexivity. Qed.

Lemma rstrip_prefix (s : list ascii) : exists q, s = (rstrip s ++ q)%list.
Proof.
  induction s as [|c r [q IH]]; [exists []; reflexivity|].
  rewrite rstrip_cons. destruct (rstrip r) as [|d r'] eqn:E.
  - destruct (strip_set c).
    + exists (c :: r). reflexivity.
    + exists r. reflexivity.
  - exists q. cbn [app]. cbn [app] in IH. rewrite <- IH. reflexivity.
Qed.

Lemma rstrip_last (s : list ascii) (c : ascii) (t : list ascii) :
  rstrip s = (t ++ [c])%list -> strip_set c = false.
Proof.
  revert t. induction s as [|a r IH]; intros t.
  - destruct t; discriminate.
  - rewrite rstrip_cons. destruct (rstrip r) as [|d r'] eqn:E.
    + destruct (strip_set a) eqn:Ea.
      * destruct t; discriminate.
      * destruct t as [|x t]; cbn [app]; intros Eq.
        -- injection Eq as <-. exact Ea.
        -- injection Eq as _ Eq. destruct t; discriminate.
    + destruct t as [|x t]; cbn [app]; intros Eq; [discriminate|].
      injection Eq as _ Eq. exact (IH t Eq).
Qed.

Lemma rstrip_head (s : list ascii) (c : ascii) (t : list ascii) :
  rstrip s = c :: t -> exists r, s = c :: r.
Proof.
  destruct s as [|a r]; [discriminate|].
  rewrite rstrip_cons. destruct (rstrip r).
  - destruct (strip_set a); [discriminate|].
    intros Eq. injection Eq as <- _. exists r. reflexivity.
  - intros Eq. injection Eq as <- _. exists r. reflexivity.
Qed.

Lemma rstrip_id (s : list ascii) :
  (forall c t, s = (t ++ [c])%list -> strip_set c = false) -> rstrip s = s.
Proof.
  induction s as [|a r IH]; [reflexivity|]. intros Hl.
  rewrite rstrip_cons. destruct r as [|b r].
  - cbn [rstrip]. rewrite (Hl a [] eq_refl). reflexivity.
  - rewrite IH.
    + reflexivity.
    + intros c t Eq. apply (Hl c (a :: t)). cbn [app]. rewrite <- Eq. reflexivity.
Qed.

(** *** Pieces of a string without a double underscore *)

Lemma has_dunder_tail (a : ascii) (s : list ascii) :
  has_dunder (a :: s) = false -> has_dunder s = false.
Proof.
  destruct s as [|b s]; [reflexivity|].
  rewrite has_dunder_cons2. intros E. apply orb_false_iff in E. apply E.
Qed.

Lemma has_dunder_suffix (p s : list ascii) :
  has_dunder (p ++ s) = false -> has_dunder s = false.
Proof.
  induction p as [|a p IH]; [auto|].
  cbn [app]. intros E. apply IH. exact (has_dunder_tail a _ E).
Qed.

Lemma has_dunder_prefix (s q : list ascii) :
  has_dunder (s ++ q) = false -> has_dunder s = false.
Proof.
  induction s as [| |a b l IHl IHb] using list_ind2; [reflexivity|reflexivity|].
  cbn [app]. rewrite !has_dunder_cons2. intros E.
  apply orb_false_iff in E. destruct E as [E1 E2].
  rewrite E1. cbn [orb]. apply IHb. exact E2.
Qed.

Lemma Forall_suffix {A : Type} (P : A -> Prop) (p s : list A) :
  Forall P (p ++ s) -> Forall P s.
Proof. intros F. apply Forall_app in F. apply F. Qed.

Lemma Forall_prefix {A : Type} (P : A -> Prop) (s q : list A) :
  Forall P (s ++ q) -> Forall P s.
Proof. intros F. apply Forall_app in F. apply F. Qed.

Section SlugFacts.
Context `{Unicode}.

Lemma safe_char_kept (c : ascii) : isalnum (safe_char c) || punct (safe_char c) = true.
Proof.
  unfold safe_char. destruct (isalnum c || punct c) eqn:E; [exact E|].
  apply orb_true_iff. right. reflexivity.
Qed.

Lemma safe_char_id (c : ascii) : isalnum c || punct c = true -> safe_char c = c.
Proof. unfold safe_char. intros ->. reflexivity. Qed.

Lemma map_safe_char_id (s : list ascii) :
  Forall (fun c => isalnum c || punct c = true) s -> map safe_char s = s.
Proof.
  induction 1 as [|c s Hc _ IH]; [reflexivity|].
  cbn [map]. rewrite (safe_char_id c Hc), IH. reflexivity.
Qed.

(** The value of [slug_chars] in closed form. *)
Lemma slug_chars_value (name : list ascii) :
  slug_chars name
  = Some (match strip (squeeze (map safe_char name)) with
          | [] => list_ascii_of_string "file"
          | stripped => stripped
          end).
Proof.
  unfold slug_chars. cbv zeta. rewrite collapse_squeeze by reflexivity.
  destruct (strip (squeeze (map safe_char name))); reflexivity.
Qed.

Lemma file_kept :
  Forall (fun c => isalnum c || punct c = true) (list_ascii_of_string "file").
Proof.
  repeat constructor;
    (rewrite isalnum_ascii by (vm_compute; repeat constructor); reflexivity).
Qed.

Lemma slug_chars_shaped (name out : list ascii) :
  slug_chars name = Some out -> slug_shaped out.
Proof.
  rewrite slug_chars_value. intros E. injection E as <-.
  set (q := squeeze (map safe_char name)).
  assert (Hq1 : has_dunder q = false) by apply squeeze_no_dunder.
  assert (Hq2 : Forall (fun c => isalnum c || punct c = true) q).
  { apply squeeze_Forall. apply Forall_forall. intros c Hin.
    apply in_map_iff in Hin. destruct Hin as (d & <- & _). apply safe_char_kept. }
  destruct (lstrip_suffix q) as [p Hp].
  destruct (rstrip_prefix (lstrip q)) as [r Hr].
  fold (strip q) in Hr.
  assert (Hs1 : has_dunder (strip q) = false).
  { apply (has_dunder_prefix _ r). rewrite <- Hr.
    apply (has_dunder_suffix p). rewrite <- Hp. exact Hq1. }
  assert (Hs2 : Forall (fun c => isalnum c || punct c = true) (strip q)).
  { apply (Forall_prefix _ _ r). rewrite <- Hr.
    apply (Forall_suffix _ p). rewrite <- Hp. exact Hq2. }
  destruct (strip q) as [|c t] eqn:Es.
  - split; [discriminate|]. split; [reflexivity|].
    split; [intros c t Eq; injection Eq as <- _; reflexivity|].
    split; [|exact file_kept].
    intros c t Eq.
    destruct t as [|t0 [|t1 [|t2 [|t3 t]]]]; try discriminate.
    + injection Eq as _ _ _ <-. reflexivity.
    + injection Eq as _ _ _ _ Eq. destruct t; discriminate.
  - split; [discriminate|]. split; [exact Hs1|].
    split; [|split; [|exact Hs2]].
    + intros c' t' Eq. injection Eq as <- _.
      unfold strip in Es. destruct (rstrip_head _ _ _ Es) as [r' Er'].
      exact (lstrip_head q c r' Er').
    + intros c' t' Eq. unfold strip in Es. rewrite Eq in Es.
      exact (rstrip_last _ _ _ Es).
Qed.

(** A name of the shape is returned as it is. *)
Lemma slug_chars_fixed (s : list ascii) :
  s <> [] -> has_dunder s = false ->
  (forall c t, s = c :: t -> strip_set c = false) ->
  (forall c t, s = (t ++ [c])%list -> strip_set c = false) ->
  Forall (fun c => isalnum c || punct c = true) s ->
  slug_chars s = Some s.
Proof.
  intros Hne Hd Hh Hl Hk. rewrite slug_chars_value.
  rewrite (map_safe_char_id s Hk), (squeeze_id s Hd).
  unfold strip. rewrite (lstrip_id s Hh), (rstrip_id s Hl).
  destruct s; [contradiction|reflexivity].
Qed.

(** X16. [slugify_filename] always returns: its loop ends within one
    round per character.  The name it returns is the input with every
    character other than a letter, a digit, [-], [_] and [.] turned into
    [_], every run of underscores reduced to one, and the dots and
    underscores at both ends removed; when nothing is left it is [file]. *)
Theorem slugify_filename_value (name : string) :
  slugify_filename name
  = Some (string_of_list_ascii
            (match strip (squeeze (map safe_char (list_ascii_of_string name))) with
             | [] => list_ascii_of_string "file"
             | stripped => stripped
             end)).
Proof.
  unfold slugify_filename. rewrite slug_chars_value. reflexivity.
Qed.

(** X17. The name [slugify_filename] returns is never empty, has no two
    underscores in a row, neither starts nor ends with a dot or an
    underscore, and holds only letters, digits, [-], [_] and [.]. *)
Theorem slugify_filename_shape (name out : string) :
  slugify_filename name = Some out -> slug_shaped (list_ascii_of_string out).
Proof.
  unfold slugify_filename.
  destruct (slug_chars (list_ascii_of_string name)) as [chars|] eqn:E; [|discriminate].
  cbn [option_map]. intros Eq. injection Eq as <-.
  rewrite list_ascii_of_string_of_list_ascii.
  exact (slug_chars_shaped _ _ E).
Qed.

(** X18. [slugify_filename] is idempotent: applied to a name it
    returned, it returns that name unchanged. *)
Theorem slugify_filename_idempotent (name out : string) :
  slugify_filename name = Some out -> slugify_filename out = Some out.
Proof.
  unfold slugify_filename.
  destruct (slug_chars (list_ascii_of_string name)) as [chars|] eqn:E; [|discriminate].
  cbn [option_map]. intros Eq. injection Eq as <-.
  rewrite list_ascii_of_string_of_list_ascii.
  destruct (slug_chars_shaped _ _ E) as (Hne & Hd & Hh & Hl & Hk).
  rewrite (slug_chars_fixed chars Hne Hd Hh Hl Hk). reflexivity.
Qed.

End SlugFacts.

Lemma slugify_filename_shape_witness :
  @slugify_filename ascii_only "__my design (v2)__.png" = Some "my_design_v2_.png" /\
  @slug_shaped ascii_only (list_ascii_of_string "my_design_v2_.png").
Proof.
  assert (E : @slugify_filename ascii_only "__my design (v2)__.png"
              = Some "my_design_v2_.png") by (vm_compute; reflexivity).
  split; [exact E|].
  exact (@slugify_filename_shape ascii_only _ _ E).
Defined.

Lemma slugify_filename_idempotent_witness :
  @slugify_filename ascii_only "my_design_v2_.png" = Some "my_design_v2_.png".
Proof.
  apply (@slugify_filename_idempotent ascii_only "__my design (v2)__.png").
  vm_compute. reflexivity.
Defined.

(* ================================================================== *)
(** * Filling patterns *)
(* ================================================================== *)

(** *** Replacing *)

Lemma prefix_head (c d : ascii) (old s : string) :
  String.prefix (String c old) (String d s) = true -> d = c.
Proof.
  cbn [String.prefix]. destruct (ascii_dec c d) as [->|]; [reflexivity|discriminate].
Qed.

Lemma append_assoc (a b c : string) : (a ++ b) ++ c = a ++ (b ++ c).
Proof. induction a as [|x a IH]; [reflexivity|]. cbn [append]. rewrite IH. reflexivity. Qed.

Lemma append_nil_r (a : string) : a ++ "" = a.
Proof. induction a as [|x a IH]; [reflexivity|]. cbn [append]. rewrite IH. reflexivity. Qed.

Lemma prefix_append (old t : string) : String.prefix old (old ++ t) = true.
Proof.
  induction old as [|c old IH]; [destruct t; reflexivity|].
  cbn [append String.prefix]. destruct (ascii_dec c c); [exact IH|contradiction].
Qed.

(** A placeholder is not found in a string without a brace. *)
Lemma replace_from_brace_free (old new s t : string) :
  brace_free s = true ->
  replace_from (String "{" old) new 0 (s ++ t)
  = s ++ replace_from (String "{" old) new 0 t.
Proof.
  intros Hs. induction s as [|c s IH]; [reflexivity|].
  cbn [brace_free] in Hs. apply andb_true_iff in Hs. destruct Hs as [Hc Hs].
  cbn [append replace_from].
  destruct (String.prefix (String "{" old) (String c (s ++ t))) eqn:E.
  - apply prefix_head in E. subst c. discriminate.
  - rewrite (IH Hs). reflexivity.
Qed.

Lemma replace_from_skip (old new u t : string) :
  replace_from old new (String.length u) (u ++ t) = replace_from old new 0 t.
Proof.
  induction u as [|c u IH]; [reflexivity|].
  cbn [String.length append replace_from]. exact IH.
Qed.

(** A match at the front is replaced and the scan goes on after it. *)
Lemma replace_from_match (c : ascii) (old new t : string) :
  replace_from (String c old) new 0 (String c old ++ t)
  = new ++ replace_from (String c old) new 0 t.
Proof.
  cbn [append]. cbn [replace_from].
  change (String c (old ++ t)) with (String c old ++ t). rewrite prefix_append.
  replace (String.length (String c old) - 1)%nat with (String.length old)
    by (cbn [String.length]; lia).
  rewrite replace_from_skip. reflexivity.
Qed.

Lemma replace_brace_free (s old new : string) :
  brace_free s = true -> replace s (String "{" old) new = s.
Proof.
  intros Hs. unfold replace. cbn [String.eqb].
  rewrite <- (append_nil_r s) at 1.
  rewrite (replace_from_brace_free old new s "" Hs). apply append_nil_r.
Qed.

(** X19. [build_output_name] fills the pattern in three passes, name,
    index, extension, each over the result of the pass before.  So a
    pattern without a brace is returned as it is, and the default pattern
    [{name}_mockup.png] gives the stem followed by [_mockup.png] when the
    stem has no brace; but the stem is itself scanned by the later passes:
    the pattern [{name}] yields the stem with its own [{index}] and [{ext}]
    filled in. *)
Theorem build_output_name_passes (design_path : Path) (index : Z) :
  (forall pattern, brace_free pattern = true ->
     build_output_name pattern design_path index = pattern) /\
  (brace_free (path_stem design_path) = true ->
   build_output_name "{name}_mockup.png" design_path index
   = path_stem design_path ++ "_mockup.png") /\
  build_output_name "{name}" design_path index
  = replace (replace (path_stem design_path) "{index}" (str_of_int index))
      "{ext}" (lstrip_dots (path_suffix design_path)).
Proof.
  split; [|split].
  - intros pattern Hp. unfold build_output_name. cbv zeta.
    rewrite (replace_brace_free pattern "name}" _ Hp).
    rewrite (replace_brace_free pattern "index}" _ Hp).
    exact (replace_brace_free pattern "ext}" _ Hp).
  - intros Hs. unfold build_output_name. cbv zeta.
    assert (E1 : replace "{name}_mockup.png" "{name}" (path_stem design_path)
                 = path_stem design_path ++ "_mockup.png").
    { unfold replace. cbn [String.eqb].
      change "{name}_mockup.png" with ("{name}" ++ "_mockup.png").
      rewrite replace_from_match. reflexivity. }
    rewrite E1.
    assert (E2 : forall old new,
              replace (path_stem design_path ++ "_mockup.png") (String "{" old) new
              = path_stem design_path ++ "_mockup.png").
    { intros old new. unfold replace. cbn [String.eqb].
      rewrite (replace_from_brace_free old new _ _ Hs). reflexivity. }
    rewrite !E2. reflexivity.
  - unfold build_output_name. cbv zeta.
    assert (E1 : replace "{name}" "{name}" (path_stem design_path)
                 = path_stem design_path).
    { unfold replace. cbn [String.eqb].
      change "{name}" with ("{name}" ++ "") at 2.
      rewrite replace_from_match. apply append_nil_r. }
    rewrite E1. reflexivity.
Qed.

Lemma build_output_name_passes_witness :
  build_output_name "{name}_mockup.png" (design_file "shirt" ".png") 3
  = "shirt_mockup.png" /\
  build_output_name "{name}" (design_file "{index}-{ext}" ".png") 3
  = "3-png".
Proof.
  split.
  - exact (proj1 (proj2 (build_output_name_passes (design_file "shirt" ".png") 3))
             eq_refl).
  - rewrite (proj2 (proj2 (build_output_name_passes
                             (design_file "{index}-{ext}" ".png") 3))).
    vm_compute. reflexivity.
Defined.

(* ================================================================== *)
(** * The batch loop *)
(* ================================================================== *)

Section CommandFacts.
Context `{Extern} `{Unicode} `{PathLib}.

Lemma output_path_value (out_dir pattern : string) (dp : Path) (idx : Z) :
  output_path out_dir pattern dp idx = Some (saved_path out_dir pattern dp idx).
Proof.
  unfold output_path, saved_path, slugify_filename, slug_of.
  rewrite slug_chars_value. reflexivity.
Qed.

Lemma render_loop_ok (render : Path -> io Raster) (out_dir pattern : string)
  (designs : list Path) :
  Forall (renders render) designs ->
  forall idx count t,
    render_loop render out_dir pattern designs idx count t
    = (Rendered (count + Z.of_nat (List.length designs)),
       (t ++ loop_events render out_dir pattern designs idx)%list).
Proof.
  induction 1 as [|dp rest [img Hdp] _ IH]; intros idx count t.
  - cbn [render_loop loop_events List.length]. rewrite app_nil_r.
    f_equal. f_equal. lia.
  - cbn [render_loop loop_events]. rewrite output_path_value.
    destruct (run (render dp)) as [[img'|e] opened]; [|discriminate].
    rewrite IH. cbn [snd]. f_equal.
    + f_equal. cbn [List.length]. lia.
    + rewrite <- !app_assoc. reflexivity.
Qed.

Lemma render_loop_fails (render : Path -> io Raster) (out_dir pattern : string)
  (before : list Path) (bad : Path) (after : list Path) (e : exn) :
  Forall (renders render) before ->
  fst (run (render bad)) = Raise e ->
  forall idx count t,
    render_loop render out_dir pattern (before ++ bad :: after) idx count t
    = (Failed e,
       (t ++ loop_events render out_dir pattern before idx
          ++ map Engine (snd (run (render bad))))%list).
Proof.
  intros Hb Hbad. induction Hb as [|dp rest [img Hdp] _ IH]; intros idx count t.
  - cbn [app render_loop loop_events].
    destruct (run (render bad)) as [[img|e'] opened]; cbn [fst snd] in *;
      [discriminate|].
    injection Hbad as ->. reflexivity.
  - cbn [app render_loop loop_events]. rewrite output_path_value.
    destruct (run (render dp)) as [[img'|e'] opened]; [|discriminate].
    rewrite IH. cbn [snd]. f_equal. rewrite <- !app_assoc. reflexivity.
Qed.

End CommandFacts.

(* ================================================================== *)
(** * Batches *)
(* ================================================================== *)

Section Batch.
Context `{Extern} `{Unicode} `{PathLib}.

Lemma render_one_events (fs : FileSystem) (mockup : string) (dp : Path)
  (config : RenderConfig) :
  renders (fun dp => render_one fs mockup (path_str dp) config) dp ->
  snd (run (render_one fs mockup (path_str dp) config))
  = [Opened mockup; Opened (path_str dp)].
Proof.
  intros [img E]. revert E. rewrite render_one_trace.
  destruct (fs mockup); [|discriminate].
  destruct (fs (path_str dp)); [|discriminate]. reflexivity.
Qed.

Lemma loop_events_render_one (fs : FileSystem) (mockup out_dir pattern : string)
  (config : RenderConfig) (designs : list Path) :
  Forall (renders (fun dp => render_one fs mockup (path_str dp) config)) designs ->
  forall idx,
    loop_events (fun dp => render_one fs mockup (path_str dp) config)
      out_dir pattern designs idx
    = batch_trace mockup out_dir pattern designs idx.
Proof.
  induction 1 as [|dp rest Hdp _ IH]; intros idx; [reflexivity|].
  cbn [loop_events batch_trace]. rewrite (render_one_events fs mockup dp config Hdp).
  cbn [map app]. rewrite IH. reflexivity.
Qed.

(** X20. A batch that goes through opens the mockup again for every
    design: with a configuration that parses and designs that all render,
    [cmd_render] returns after rendering as many images as there are
    designs, and what it did is, design by design in the order listed, open
    the mockup, open the design, save the output under the slug of the
    filled pattern. *)
Theorem cmd_render_opens_mockup_per_design
  (fs : FileSystem) (data : list (string * json)) (config : RenderConfig)
  (patterns : list string) (mockup out_dir pattern : string) :
  from_dict data = Ok config ->
  list_design_files patterns <> [] ->
  Forall (renders (fun dp => render_one fs mockup (path_str dp) config))
         (list_design_files patterns) ->
  cmd_render fs data patterns mockup out_dir pattern
  = (Rendered (Z.of_nat (List.length (list_design_files patterns))),
     batch_trace mockup out_dir pattern (list_design_files patterns) 1).
Proof.
  intros Ecfg Hne Hall. unfold cmd_render. rewrite Ecfg.
  destruct (list_design_files patterns) as [|dp rest] eqn:El; [contradiction|].
  rewrite (render_loop_ok _ out_dir pattern (dp :: rest) Hall).
  rewrite (loop_events_render_one fs mockup out_dir pattern config _ Hall).
  reflexivity.
Qed.

(** X21. A batch stops at the first design that fails to render: the
    exception leaves [cmd_render], and [main] returns 2.  The outputs of
    the designs before it have been saved and stay; of the failing design
    only the files the engine opened are seen; the designs after it are
    never opened. *)
Theorem cmd_render_stops_at_first_failure
  (fs : FileSystem) (data : list (string * json)) (config : RenderConfig)
  (patterns : list string) (mockup out_dir pattern : string)
  (before : list Path) (bad : Path) (after : list Path) (e : exn) :
  from_dict data = Ok config ->
  list_design_files patterns = (before ++ bad :: after)%list ->
  Forall (renders (fun dp => render_one fs mockup (path_str dp) config)) before ->
  fst (run (render_one fs mockup (path_str bad) config)) = Raise e ->
  cmd_render fs data patterns mockup out_dir pattern
  = (Failed e,
     (batch_trace mockup out_dir pattern before 1
      ++ map Engine (snd (run (render_one fs mockup (path_str bad) config))))%list) /\
  main (cmd_render fs data patterns mockup out_dir pattern) = Some 2.
Proof.
  intros Ecfg El Hb Hbad.
  assert (E : cmd_render fs data patterns mockup out_dir pattern
              = (Failed e,
                 (batch_trace mockup out_dir pattern before 1
                  ++ map Engine (snd (run (render_one fs mockup (path_str bad)
                                             config))))%list)).
  { unfold cmd_render. rewrite Ecfg, El.
    destruct (before ++ bad :: after)%list as [|dp rest] eqn:Ed.
    - destruct before; discriminate.
    - rewrite <- Ed.
      rewrite (render_loop_fails
                 (fun dp => render_one fs mockup (path_str dp) config)
                 out_dir pattern before bad after e Hb Hbad).
      rewrite (loop_events_render_one fs mockup out_dir pattern config _ Hb).
      reflexivity. }
  split; [exact E|]. rewrite E. reflexivity.
Qed.

(** X22. How the batch commands end without rendering.  [cmd_render]
    parses the configuration before it looks for designs, so a
    configuration that [from_dict] rejects makes it raise, and [main]
    return 2, even when no design matches.  With no design to render both
    batch commands leave through [sys.exit(1)], which [main] does not
    catch: the process ends with status 1, and no file has been opened. *)
Theorem batch_without_designs
  (fs : FileSystem) (data : list (string * json)) (patterns : list string)
  (mockup out_dir pattern : string) :
  (forall e, from_dict data = Raise e ->
     cmd_render fs data patterns mockup out_dir pattern = (Failed e, []) /\
     main (cmd_render fs data patterns mockup out_dir pattern) = Some 2) /\
  (forall config, from_dict data = Ok config -> list_design_files patterns = [] ->
     cmd_render fs data patterns mockup out_dir pattern = (Exited 1, []) /\
     main (cmd_render fs data patterns mockup out_dir pattern) = Some 1) /\
  (forall anchor x y w h rotation aspect opacity blend,
     list_design_files patterns = [] ->
     cmd_render_simple fs patterns mockup out_dir pattern anchor x y w h rotation
       aspect opacity blend = (Exited 1, []) /\
     main (cmd_render_simple fs patterns mockup out_dir pattern anchor x y w h
             rotation aspect opacity blend) = Some 1).
Proof.
  split; [|split].
  - intros e E. unfold main, cmd_render. rewrite E. split; reflexivity.
  - intros config E El. unfold main, cmd_render. rewrite E, El. split; reflexivity.
  - intros anchor x y w h rotation aspect opacity blend El.
    unfold main, cmd_render_simple. rewrite El. split; reflexivity.
Qed.

Lemma filter_flat_map {A B : Type} (f : A -> list B) (p : B -> bool) (l : list A) :
  filter p (flat_map f l) = flat_map (fun a => filter p (f a)) l.
Proof.
  induction l as [|a l IH]; [reflexivity|].
  cbn [flat_map]. rewrite filter_app, IH. reflexivity.
Qed.

(** X23. [list_design_files] lists the matches pattern by pattern, in
    the order of the patterns: every path it lists is a file whose suffix
    is [.png] in some letter case and is a match of one of the patterns; a
    match of two patterns is listed twice, so that a pattern given twice
    lists its files twice and the batch renders them twice. *)
Theorem list_design_files_keeps_duplicates (patterns more : list string) :
  (forall p, In p (list_design_files patterns) ->
     is_file p = true /\ lower (path_suffix p) = ".png" /\
     exists pat, In pat patterns /\ In p (glob pat)) /\
  list_design_files (patterns ++ more)
  = (list_design_files patterns ++ list_design_files more)%list /\
  List.length (list_design_files (patterns ++ patterns))
  = (2 * List.length (list_design_files patterns))%nat.
Proof.
  split; [|split].
  - intros p Hin. unfold list_design_files in Hin.
    apply in_flat_map in Hin. destruct Hin as (pat & Hpat & Hp).
    apply filter_In in Hp. destruct Hp as [Hg Hk].
    apply andb_true_iff in Hk. destruct Hk as [Hfile Hsuf].
    split; [exact Hfile|]. split.
    + unfold mem in Hsuf. cbn [existsb] in Hsuf. rewrite orb_false_r in Hsuf.
      apply String.eqb_eq in Hsuf. exact Hsuf.
    + exists pat. split; assumption.
  - unfold list_design_files. apply flat_map_app.
  - unfold list_design_files. rewrite flat_map_app, length_app. lia.
Qed.

End Batch.

Lemma sample_designs :
  @list_design_files sample_paths ["*.png"]
  = [design_file "design" ".png"; design_file "missing" ".png"].
Proof. reflexivity. Qed.

Lemma sample_design_renders :
  renders (fun dp => @render_one sample_extern sample_fs "mockup.png" (path_str dp)
                       default_config)
          (design_file "design" ".png").
Proof.
  apply is_ok_Ok. vm_compute. reflexivity.
Qed.

Lemma cmd_render_opens_mockup_per_design_witness :
  @cmd_render sample_extern ascii_only sample_paths sample_fs [] ["*"] "mockup.png"
    "out" "{name}_mockup.png"
  = (Rendered 1,
     [Engine (Opened "mockup.png"); Engine (Opened "design.png");
      Saved "out/design_mockup.png" false]).
Proof.
  rewrite (@cmd_render_opens_mockup_per_design sample_extern ascii_only sample_paths
             sample_fs [] default_config ["*"] "mockup.png" "out" "{name}_mockup.png"
             eq_refl).
  - reflexivity.
  - discriminate.
  - constructor; [exact sample_design_renders|constructor].
Defined.

Lemma cmd_render_stops_at_first_failure_witness :
  @cmd_render sample_extern ascii_only sample_paths sample_fs [] ["*.png"; "*"]
    "mockup.png" "out" "{index}.png"
  = (Failed OSError,
     [Engine (Opened "mockup.png"); Engine (Opened "design.png");
      Saved "out/1.png" false;
      Engine (Opened "mockup.png"); Engine (Opened "missing.png")]).
Proof.
  rewrite (proj1 (@cmd_render_stops_at_first_failure sample_extern ascii_only
             sample_paths sample_fs [] default_config ["*.png"; "*"] "mockup.png"
             "out" "{index}.png" [design_file "design" ".png"]
             (design_file "missing" ".png") [design_file "design" ".png"] OSError
             eq_refl eq_refl
             ltac:(constructor; [exact sample_design_renders|constructor])
             eq_refl)).
  reflexivity.
Defined.

Lemma batch_without_designs_witness :
  @main (@cmd_render sample_extern ascii_only sample_paths sample_fs
           [("mode", JStr "foo")] ["none"] "mockup.png" "out" "{name}.png") = Some 2 /\
  @main (@cmd_render sample_extern ascii_only sample_paths sample_fs
           [] ["none"] "mockup.png" "out" "{name}.png") = Some 1.
Proof.
  destruct (@batch_without_designs sample_extern ascii_only sample_paths sample_fs
              [("mode", JStr "foo")] ["none"] "mockup.png" "out" "{name}.png")
    as (Hbad & _ & _).
  destruct (@batch_without_designs sample_extern ascii_only sample_paths sample_fs
              [] ["none"] "mockup.png" "out" "{name}.png") as (_ & Hnone & _).
  split.
  - exact (proj2 (Hbad ValueError eq_refl)).
  - exact (proj2 (Hnone default_config eq_refl eq_refl)).
Defined.

Lemma list_design_files_keeps_duplicates_witness :
  @list_design_files sample_paths ["*.png"; "*"]
  = [design_file "design" ".png"; design_file "missing" ".png";
     design_file "design" ".png"].
Proof.
  change ["*.png"; "*"] with (["*.png"] ++ ["*"])%list.
  rewrite (proj1 (proj2 (@list_design_files_keeps_duplicates sample_paths
                           ["*.png"] ["*"]))).
  reflexivity.
Defined.

(* ================================================================== *)
(** * Templates *)
(* ================================================================== *)

Section Templates.
Context `{Extern}.

(** X24. The templates of [init-config] are configurations [from_dict]
    accepts: for a mode that is rect or perspective in any letter case the
    template parses to the configuration it spells out (the perspective
    one, which names no aspect policy, gets contain), and every other mode
    is refused with [ValueError]. *)
Theorem init_config_templates_parse (mode : string) :
  (lower mode = "rect" ->
   exists template, cmd_init_config mode = Ok template /\
     from_dict template = Ok rect_template) /\
  (lower mode = "perspective" ->
   exists template, cmd_init_config mode = Ok template /\
     from_dict template = Ok perspective_template) /\
  (unsupported (lower mode) -> cmd_init_config mode = Raise ValueError).
Proof.
  split; [|split].
  - intros E. unfold cmd_init_config. cbv zeta. rewrite E.
    cbn [String.eqb Ascii.eqb Bool.eqb]. eexists. split; [reflexivity|].
    vm_compute. reflexivity.
  - intros E. unfold cmd_init_config. cbv zeta. rewrite E.
    cbn [String.eqb Ascii.eqb Bool.eqb]. eexists. split; [reflexivity|].
    vm_compute. reflexivity.
  - intros [Hr Hp]. unfold cmd_init_config. cbv zeta.
    rewrite (eqb_false _ _ Hr), (eqb_false _ _ Hp). reflexivity.
Qed.

End Templates.

Lemma init_config_templates_parse_witness :
  exists template,
    cmd_init_config "Perspective" = Ok template /\
    @from_dict sample_extern template = Ok perspective_template.
Proof.
  exact (proj1 (proj2 (@init_config_templates_parse sample_extern "Perspective"))
           eq_refl).
Defined.
